(** * Restaurant pricing service: the request handlers of [notebooks/app.py]

    A shallow embedding of the two Flask handlers [get_options] and
    [predict], and of the pandas operations they call, followed by the
    properties of the handlers.

    Conventions of the embedding.
    - Text: a Python [str] is a [string]; the character with code [n]
      stands for the code point U+00[n], so the alphabet is Latin-1.
    - Numbers: a Python or numpy float is the rational it denotes
      ([Qc]); the one special value the handlers can produce, NaN, is
      kept apart ([None] in [float]), and there are no infinities.  The
      product [price * 1.1] is rounded to a double as IEEE 754 binary64
      multiplication rounds it, the literal [1.1] being the double
      nearest to eleven tenths; sums, means and comparisons are exact.
    - pandas: a [Series] is a typed column ([object] holding text,
      [float64] holding numbers), a [DataFrame] an ordered collection of
      named columns of equal length.  Operations that raise in pandas
      return [None] here, and the handler's [except] turns that into its
      500 response.
    - Regular expressions: [Series.str.contains] compiles its argument as
      a regular expression.  Patterns made of ordinary characters and [.]
      are interpreted exactly; the compilation of any other pattern is a
      parameter of the development ([re_other]). *)

From Stdlib Require Import QArith Qcanon ZArith Ascii String List.
From Stdlib Require Import Qabs Qpower Lqa.
From stdpp Require Import base numbers option list strings sorting gmap.

Local Open Scope string_scope.
Local Open Scope Z_scope.

(** ** Text *)

Module Text.

Definition code (c : ascii) : N := N_of_ascii c.

(** [str.isspace] on a single character (code points below 256). *)
Definition isspace (c : ascii) : bool :=
  let n := code c in
  ((9 <=? n) && (n <=? 13) || (28 <=? n) && (n <=? 32)
   || (n =? 133) || (n =? 160))%N.

Fixpoint lstrip (s : string) : string :=
  match s with
  | String c s' => if isspace c then lstrip s' else s
  | EmptyString => EmptyString
  end.

Definition rstrip (s : string) : string :=
  String.rev (lstrip (String.rev s)).

(** [s.strip()] *)
Definition strip (s : string) : string := rstrip (lstrip s).

(** [s.split(sep)] for a one-character separator: never empty. *)
Fixpoint split (sep : ascii) (s : string) : list string :=
  match s with
  | EmptyString => [EmptyString]
  | String c s' =>
      if Ascii.eqb c sep then EmptyString :: split sep s'
      else match split sep s' with
           | h :: t => String c h :: t
           | [] => [String c EmptyString]
           end
  end.

(** Case folding used by [re.IGNORECASE]: A-Z and the Latin-1 capitals
    (U+00C0-U+00DE without the multiplication sign U+00D7). *)
Definition lower (c : ascii) : ascii :=
  let n := code c in
  if ((65 <=? n) && (n <=? 90)
      || (192 <=? n) && (n <=? 222) && negb (n =? 215))%N
  then ascii_of_N (n + 32) else c.

Definition eqb_ci (a b : ascii) : bool := Ascii.eqb (lower a) (lower b).

(** Truth value of a [str]: non-empty. *)
Definition truthy (s : string) : bool :=
  match s with EmptyString => false | String _ _ => true end.

(** The glossary's substring filter: [q] occurs in [s] as a contiguous
    substring, letter case ignored. *)
Fixpoint prefix_ci (q s : string) : bool :=
  match q, s with
  | EmptyString, _ => true
  | String a q', String b s' => eqb_ci a b && prefix_ci q' s'
  | String _ _, EmptyString => false
  end.

Fixpoint contains_ci (q s : string) : bool :=
  prefix_ci q s ||
  match s with
  | EmptyString => false
  | String _ s' => contains_ci q s'
  end.

End Text.

(** ** Regular expressions: the exactly modelled fragment *)

Module Re.

(** The characters with a special meaning in a pattern. *)
Definition special (c : ascii) : bool :=
  existsb (Ascii.eqb c) (list_ascii_of_string ".^$*+?{}[]\|()").

Inductive atom : Type :=
| AnyChar               (* [.]: any character but a newline *)
| Lit (c : ascii).      (* an ordinary character *)

Fixpoint parse (pat : string) : option (list atom) :=
  match pat with
  | EmptyString => Some []
  | String c pat' =>
      if Ascii.eqb c "." then cons AnyChar <$> parse pat'
      else if special c then None
      else cons (Lit c) <$> parse pat'
  end.

Definition atom_match (a : atom) (c : ascii) : bool :=
  match a with
  | AnyChar => negb (Ascii.eqb c "010")
  | Lit p => Text.eqb_ci p c
  end.

Fixpoint match_here (r : list atom) (s : string) : bool :=
  match r, s with
  | [], _ => true
  | a :: r', String c s' => atom_match a c && match_here r' s'
  | _ :: _, EmptyString => false
  end.

(** [re.search] under [re.IGNORECASE]: a match starting anywhere. *)
Fixpoint search (r : list atom) (s : string) : bool :=
  match_here r s ||
  match s with
  | EmptyString => false
  | String _ s' => search r s'
  end.

(** A pattern without special characters. *)
Definition literal (pat : string) : bool :=
  forallb (fun c => negb (special c)) (list_ascii_of_string pat).

End Re.

(** ** Numbers *)

Definition float : Type := option Qc.
Definition NaN : float := None.

Definition qc (n : Z) (d : positive) : Qc := Q2Qc (n # d).

(** Nearest integer, ties to the even one. *)
Definition round_half_even (q : Q) : Z :=
  let n := Qnum q in
  let d := Zpos (Qden q) in
  let f := n / d in
  match (2 * (n mod d) ?= d) with
  | Lt => f
  | Gt => f + 1
  | Eq => if Z.even f then f else f + 1
  end.

(** [round(x, 2)] on a finite number. *)
Definition round2 (x : Qc) : Qc :=
  Q2Qc (round_half_even (Qmult (this x) (100 # 1)) # 100).

(** [round(x, 2)] on a float: NaN stays NaN. *)
Definition py_round2 (x : float) : float := round2 <$> x.

(** Truth value of a float: everything but zero, NaN included. *)
Definition float_truthy (x : float) : bool :=
  match x with
  | None => true
  | Some q => negb (bool_decide (q = qc 0 1))
  end.

(** [min(a, b)]: the first argument unless the second is smaller. *)
Definition py_min (a b : Qc) : Qc :=
  if bool_decide (b < a)%Qc then b else a.

(** *** binary64 *)

(** [2^e] *)
Definition pow2 (e : Z) : Q := Qpower 2 e.

(** The exponent of the unit in the last place of the doubles around
    [x]: [e - 52] when [2^e <= |x| < 2^(e+1)], and [-1074] throughout the
    subnormal range. *)
Definition ulp_exponent (x : Q) : Z :=
  let e0 := Z.log2 (Z.abs (Qnum x)) - Z.log2 (Zpos (Qden x)) in
  let e := if Qle_bool (pow2 e0) (Qabs x) then e0 else e0 - 1 in
  Z.max (e - 52) (-1074).

(** The multiple of the unit in the last place nearest to [x], the even
    multiple when two are equally near. *)
Definition nearest (x : Q) : Q :=
  inject_Z (round_half_even (x / pow2 (ulp_exponent x)))
  * pow2 (ulp_exponent x).

(** The rounding of every float operation: the double nearest to the
    exact result, the one of even mantissa when two are equally near.
    A result beyond the largest double is an infinity in Python, which
    [float] does not hold; the rounding here goes on with the same 53
    bits. *)
Definition round_double (x : Qc) : Qc := Q2Qc (nearest x).

(** [float(x)]: what [*] does first to an integer operand.  On an
    integer beyond the doubles Python raises; the rounding here goes on,
    and the properties of the product are stated for prices that are
    doubles. *)
Definition py_float (x : Qc) : Qc := round_double x.

(** [a * b] on floats *)
Definition float_mul (a b : Qc) : Qc := round_double (a * b).

(** The literal [1.1]: the double [0x3FF199999999999A]. *)
Definition double_1_1 : Qc := qc 2476979795053773 2251799813685248.

Definition sum_Qc (l : list Qc) : Qc := foldr Qcplus (qc 0 1) l.

(** [Series.dropna()] on the values. *)
Definition dropna {A} (l : list (option A)) : list A := omap id l.

(** [Series.mean()] of a float column: missing values are skipped, and
    the mean of no value is NaN. *)
Definition mean (l : list (option Qc)) : float :=
  match dropna l with
  | [] => NaN
  | v => Some (sum_Qc v / Qc_of_Z (Z.of_nat (length v)))%Qc
  end.

(** ** pandas: series and data frames *)

(** A value read out of a frame: missing, text, or a number. *)
Inductive Cell : Type :=
| NA
| Str (s : string)
| Num (q : Qc).

(** A column: [object] dtype holding text, or [float64]; [None] is a
    missing value. *)
Inductive Series : Type :=
| ObjectSeries (vals : list (option string))
| FloatSeries (vals : list (option Qc)).

(** A frame: the length of its index and its named columns, in order. *)
Record DataFrame : Type := {
  nrows : nat;
  data : list (string * Series)
}.

Definition series_length (s : Series) : nat :=
  match s with
  | ObjectSeries vals => length vals
  | FloatSeries vals => length vals
  end.

(** Every column is as long as the index. *)
Definition well_formed (df : DataFrame) : bool :=
  forallb (fun p => Nat.eqb (series_length (snd p)) (nrows df)) (data df).

(** [df.columns] *)
Definition columns (df : DataFrame) : list string := map fst (data df).

(** [df.empty]: no rows or no columns. *)
Definition df_empty (df : DataFrame) : bool :=
  Nat.eqb (nrows df) 0 || match data df with [] => true | _ :: _ => false end.

(** [col in df.columns] *)
Definition has_column (df : DataFrame) (col : string) : bool :=
  existsb (String.eqb col) (columns df).

(** The resolution loop: the first alias that names a column. *)
Definition find_column (aliases : list string) (df : DataFrame) : option string :=
  List.find (has_column df) aliases.

Definition location_columns : list string := ["Location"; "location"; "LOCATION"].
Definition cuisine_columns : list string :=
  ["Cuisines"; "cuisines"; "CUISINES"; "Cuisine"; "cuisine"].
Definition price_columns : list string :=
  ["Price_for_one"; "price_for_one"; "Price"; "price"].
Definition rating_columns : list string := ["Rating"; "rating"; "RATING"].
Definition name_columns : list string :=
  ["Name"; "name"; "NAME"; "Restaurant_Name"; "restaurant_name"].

(** [df[col]]; [None] stands for the [KeyError]. *)
Definition column (df : DataFrame) (col : string) : option Series :=
  snd <$> List.find (fun p => String.eqb (fst p) col) (data df).

(** Boolean indexing: the entries whose mask bit is set. *)
Fixpoint select {A} (mask : list bool) (l : list A) : list A :=
  match mask, l with
  | b :: mask', x :: l' => if b then x :: select mask' l' else select mask' l'
  | _, _ => []
  end.

Definition series_select (mask : list bool) (s : Series) : Series :=
  match s with
  | ObjectSeries vals => ObjectSeries (select mask vals)
  | FloatSeries vals => FloatSeries (select mask vals)
  end.

(** [df[mask]] *)
Definition df_select (mask : list bool) (df : DataFrame) : DataFrame :=
  {| nrows := length (select mask (seq 0 (nrows df)));
     data := map (fun p => (fst p, series_select mask (snd p))) (data df) |}.

(** [df.iloc[idxs]]: the rows at the given positions, in that order. *)
Definition take_rows {A} (idxs : list nat) (l : list A) : list A :=
  omap (fun i => l !! i) idxs.

Definition series_take (idxs : list nat) (s : Series) : Series :=
  match s with
  | ObjectSeries vals => ObjectSeries (take_rows idxs vals)
  | FloatSeries vals => FloatSeries (take_rows idxs vals)
  end.

Definition df_take (idxs : list nat) (df : DataFrame) : DataFrame :=
  {| nrows := length (take_rows idxs (seq 0 (nrows df)));
     data := map (fun p => (fst p, series_take idxs (snd p))) (data df) |}.

(** [s.isna().all()] *)
Definition isna_all (s : Series) : bool :=
  match s with
  | ObjectSeries vals => forallb (fun v => negb (bool_decide (is_Some v))) vals
  | FloatSeries vals => forallb (fun v => negb (bool_decide (is_Some v))) vals
  end.

(** The value of a column at a position. *)
Definition cell_at (s : Series) (i : nat) : Cell :=
  match s with
  | ObjectSeries vals =>
      match vals !! i with Some (Some x) => Str x | _ => NA end
  | FloatSeries vals =>
      match vals !! i with Some (Some x) => Num x | _ => NA end
  end.

(** *** mode *)

Section Mode.
Context {A : Type} `{EqDecision A} (R : relation A) `{!RelDecision R}.

Definition occurrences (x : A) (l : list A) : nat :=
  length (filter (x =.) l).

(** [Series.mode()] on the non-missing values: every value of the
    highest frequency, once each, in ascending order. *)
Definition mode (l : list A) : list A :=
  let top := max_list ((fun x => occurrences x l) <$> l) in
  merge_sort R (remove_dups (filter (fun x => occurrences x l = top) l)).
End Mode.

(** [s.mode()], then [m[0] if not m.empty else None]. *)
Definition mode_first (s : Series) : option Cell :=
  match s with
  | ObjectSeries vals => Str <$> head (mode String.le (dropna vals))
  | FloatSeries vals => Num <$> head (mode Qcle (dropna vals))
  end.

(** *** mean *)

(** [s.mean()]; on an [object] column holding text pandas raises. *)
Definition series_mean (s : Series) : option float :=
  match s with
  | FloatSeries vals => Some (mean vals)
  | ObjectSeries vals =>
      match dropna vals with [] => Some NaN | _ :: _ => None end
  end.

(** *** idxmax *)

(** Scan for the largest value; [best] is the position and value of the
    largest one seen so far, replaced only by a strictly larger one. *)
Fixpoint idxmax_from (i : nat) (best : option (nat * Qc)) (l : list (option Qc))
  : option (nat * Qc) :=
  match l with
  | [] => best
  | None :: l' => idxmax_from (S i) best l'
  | Some v :: l' =>
      match best with
      | Some (_, b) =>
          if bool_decide (b < v)%Qc then idxmax_from (S i) (Some (i, v)) l'
          else idxmax_from (S i) best l'
      | None => idxmax_from (S i) (Some (i, v)) l'
      end
  end.

Definition idxmax (l : list (option Qc)) : option nat :=
  fst <$> idxmax_from 0 None l.

(** [s.idxmax()]: the position of the first largest non-missing value;
    [None] when pandas raises (text column, or nothing to compare). *)
Definition series_idxmax (s : Series) : option nat :=
  match s with
  | FloatSeries vals => idxmax vals
  | ObjectSeries _ => None
  end.

(** ** Responses *)

(** The error responses of the two handlers. *)
Inductive Error : Type :=
| ClientInputError          (* 400, "Missing location or cuisine" *)
| DataUnavailable           (* 500, "No data available" *)
| SchemaError               (* 500, "Required columns not found in dataset" *)
| NotFound (loc : string)   (* 404, "No data found for location: ..." *)
| ComputationError.         (* 500, the handler's [except Exception] *)

Definition status_code (e : Error) : Z :=
  match e with
  | ClientInputError => 400
  | NotFound _ => 404
  | DataUnavailable | SchemaError | ComputationError => 500
  end.

Inductive Outcome (A : Type) : Type :=
| Ok (a : A)
| Err (e : Error).
Arguments Ok {A} a.
Arguments Err {A} e.

#[global] Instance Outcome_ret : MRet Outcome := fun A a => Ok a.
#[global] Instance Outcome_bind : MBind Outcome := fun A B f m =>
  match m with
  | Ok a => f a
  | Err e => Err e
  end.
#[global] Instance Outcome_fmap : FMap Outcome := fun A B f m =>
  match m with
  | Ok a => Ok (f a)
  | Err e => Err e
  end.

(** An exception raised inside the handler's [try]. *)
Definition attempt {A} (o : option A) : Outcome A :=
  match o with
  | Some a => Ok a
  | None => Err ComputationError
  end.

Record Options : Type := {
  locations : list Cell;
  cuisines : list string;
  total_records : nat
}.

Record Request : Type := {
  location : option string;
  cuisine : option string;
  price : option Qc
}.

Record Response : Type := {
  average_price : float;
  popular_cuisine : Cell;
  Popular_Restaurant : Cell;
  Popular_Restaurant_serving_cuisine : Cell;
  suggested_price : float
}.

(** The predictive function: the frame built from the request (column
    name and value, twice) goes through encoding and [model.predict];
    [None] when any of that raises. *)
Definition ModelInput : Type := list (string * string).
Definition Model : Type := ModelInput -> option Qc.

(** The state of [predict] after line 134: the request, the resolved
    column names and the rows of the requested location. *)
Record Located : Type := {
  the_location : string;
  the_cuisine : string;
  location_col : string;
  cuisine_col : string;
  price_col : string;
  rating_col : option string;
  name_col : option string;
  df_location : DataFrame
}.

(** The state of [predict] after line 157. *)
Record Stats : Type := {
  st_popular_cuisine : Cell;
  st_average_price : float;
  st_most_popular_restaurant_name : Cell;
  st_most_popular_cuisine_restaurant_name : Cell
}.

#[global] Instance Cell_eq_dec : EqDecision Cell.
Proof. solve_decision. Defined.
#[global] Instance Series_eq_dec : EqDecision Series.
Proof. solve_decision. Defined.
#[global] Instance DataFrame_eq_dec : EqDecision DataFrame.
Proof. solve_decision. Defined.
#[global] Instance Error_eq_dec : EqDecision Error.
Proof. solve_decision. Defined.
#[global] Instance Outcome_eq_dec {A} `{EqDecision A} : EqDecision (Outcome A).
Proof. solve_decision. Defined.
#[global] Instance Options_eq_dec : EqDecision Options.
Proof. solve_decision. Defined.
#[global] Instance Response_eq_dec : EqDecision Response.
Proof. solve_decision. Defined.
#[global] Instance Located_eq_dec : EqDecision Located.
Proof. solve_decision. Defined.
#[global] Instance Stats_eq_dec : EqDecision Stats.
Proof. solve_decision. Defined.

(** [unique()]: first occurrences, in order. *)
Definition unique {A} `{EqDecision A} (l : list A) : list A :=
  reverse (remove_dups (reverse l)).

(** The tokens of one cuisine entry: split on commas, trimmed, the empty
    ones dropped. *)
Definition tokens (entry : string) : list string :=
  List.filter Text.truthy (Text.strip <$> Text.split "," entry).

(** Line 170, once the model has answered: the price, a JSON number, is
    compared as it is and multiplied as a float.  A product over the
    largest double is [+inf] in Python and loses to the prediction in
    [min], as it does here; a product under the most negative double is
    [-inf], which is outside [float]. *)
Definition blend (price predicted_price : Qc) : Qc :=
  if bool_decide (predicted_price ≤ price)%Qc then predicted_price
  else py_min (float_mul (py_float price) double_1_1) predicted_price.

(** Lines 159-174: the inputs the model was called with, and the
    suggested price before rounding. *)
Definition suggest (model_data : option Model) (input_df : ModelInput)
    (price : Qc) (average_price : float) : list ModelInput * float :=
  match model_data with
  | Some model =>
      ([input_df],
       match model input_df with
       | Some predicted_price => Some (blend price predicted_price)
       | None => if float_truthy average_price then average_price
                 else Some price
       end)
  | None => ([], Some price)
  end.

(** Lines 176-182. *)
Definition response (st : Stats) (suggested : float) : Response :=
  {| average_price :=
       if float_truthy (st_average_price st)
       then py_round2 (st_average_price st) else Some (qc 0 1);
     popular_cuisine := st_popular_cuisine st;
     Popular_Restaurant := st_most_popular_restaurant_name st;
     Popular_Restaurant_serving_cuisine :=
       st_most_popular_cuisine_restaurant_name st;
     suggested_price := py_round2 suggested |}.

(** [data.get("price", 0)] *)
Definition price_of (req : Request) : Qc := default (qc 0 1) (price req).

(** Line 164. *)
Definition input_df_of (L : Located) : ModelInput :=
  [(location_col L, the_location L); (cuisine_col L, the_cuisine L)].

(** Lines 142-147 and 153-157: the name in the row of the highest rating,
    when the ratings are not all missing. *)
Definition best_rated (frame : DataFrame) (rating name : string)
    (otherwise : Cell) : Outcome Cell :=
  ratings ← attempt (column frame rating);
  if negb (isna_all ratings) then
    i ← attempt (series_idxmax ratings);
    names ← attempt (column frame name);
    Ok (cell_at names i)
  else Ok otherwise.

(** ** The handlers *)

Section Handlers.

(** [str] of a float, and the compilation of a pattern that uses
    special characters other than [.] ([None]: [re.error]). *)
Variable float_str : Qc -> string.
Variable re_other : string -> option (string -> bool).

(** [re.compile(pat, re.IGNORECASE).search] *)
Definition re_compile (pat : string) : option (string -> bool) :=
  match Re.parse pat with
  | Some r => Some (Re.search r)
  | None => re_other pat
  end.

(** The mask a compiled pattern gives on text values ([na=False]). *)
Definition mask_of (f : string -> bool) (vals : list (option string))
  : list bool :=
  (fun v => match v with Some x => f x | None => false end) <$> vals.

(** [s.str.contains(pat, case=False, na=False)]: the mask of the rows
    whose text matches; a float column has no [.str]. *)
Definition str_contains (s : Series) (pat : string) : option (list bool) :=
  match s with
  | ObjectSeries vals => f ← re_compile pat; Some (mask_of f vals)
  | FloatSeries _ => None
  end.

(** *** [get_options] *)

(** Lines 57-58. *)
Definition locations_of (s : Series) : list Cell :=
  match s with
  | ObjectSeries vals =>
      Str <$> merge_sort String.le
        (List.filter (fun loc => Text.truthy (Text.strip loc))
                     (unique (dropna vals)))
  | FloatSeries vals =>
      Num <$> merge_sort Qcle
        (List.filter (fun loc => Text.truthy (Text.strip (float_str loc)))
                     (unique (dropna vals)))
  end.

(** [str(cuisine_entry)] for every non-missing entry. *)
Definition entries_of (s : Series) : list string :=
  match s with
  | ObjectSeries vals => dropna vals
  | FloatSeries vals => float_str <$> dropna vals
  end.

(** Lines 62-70: the set the loop accumulates. *)
Definition all_cuisines (s : Series) : gset string :=
  list_to_set (entries_of s ≫= tokens).

(** Lines 60-71. *)
Definition cuisines_of (s : Series) : list string :=
  merge_sort String.le (elements (all_cuisines s)).

Definition get_options (df : DataFrame) : Outcome Options :=
  if df_empty df then Err DataUnavailable
  else
    let location_col := find_column location_columns df in
    let cuisine_col := find_column cuisine_columns df in
    locations ← match location_col with
                | Some col => locations_of <$> attempt (column df col)
                | None => Ok []
                end;
    cuisines ← match cuisine_col with
               | Some col => cuisines_of <$> attempt (column df col)
               | None => Ok []
               end;
    Ok {| locations := locations;
          cuisines := cuisines;
          total_records := nrows df |}.

(** *** [predict] *)

(** Lines 85-134: the request is read, the columns are resolved and the
    rows of the location are selected. *)
Definition locate (df : DataFrame) (req : Request) : Outcome Located :=
  match location req, cuisine req with
  | Some location, Some cuisine =>
    if negb (Text.truthy location) || negb (Text.truthy cuisine)
    then Err ClientInputError
    else if df_empty df then Err DataUnavailable
    else
      match find_column location_columns df,
            find_column cuisine_columns df,
            find_column price_columns df with
      | Some location_col, Some cuisine_col, Some price_col =>
          places ← attempt (column df location_col);
          mask ← attempt (str_contains places location);
          let df_location := df_select mask df in
          if df_empty df_location then Err (NotFound location)
          else Ok {| the_location := location;
                     the_cuisine := cuisine;
                     location_col := location_col;
                     cuisine_col := cuisine_col;
                     price_col := price_col;
                     rating_col := find_column rating_columns df;
                     name_col := find_column name_columns df;
                     df_location := df_location |}
      | _, _, _ => Err SchemaError
      end
  | _, _ => Err ClientInputError
  end.

(** Lines 136-157: the statistics of the selected rows. *)
Definition statistics (L : Located) : Outcome Stats :=
  kinds ← attempt (column (df_location L) (cuisine_col L));
  let popular_cuisine :=
    default (Str "Not Available") (mode_first kinds) in
  prices ← attempt (column (df_location L) (price_col L));
  average_price ← attempt (series_mean prices);
  most_popular_restaurant_name ←
    match rating_col L, name_col L with
    | Some rating, Some name =>
        best_rated (df_location L) rating name (Str "Not Available")
    | _, _ => Ok (Str "Not Available")
    end;
  cuisine_filter ← attempt (str_contains kinds (the_cuisine L));
  let cuisine_restaurants := df_select cuisine_filter (df_location L) in
  most_popular_cuisine_restaurant_name ←
    match rating_col L, name_col L with
    | Some rating, Some name =>
        if negb (df_empty cuisine_restaurants) then
          best_rated cuisine_restaurants rating name (Str "Not Found")
        else Ok (Str "Not Found")
    | _, _ => Ok (Str "Not Found")
    end;
  Ok {| st_popular_cuisine := popular_cuisine;
        st_average_price := average_price;
        st_most_popular_restaurant_name := most_popular_restaurant_name;
        st_most_popular_cuisine_restaurant_name :=
          most_popular_cuisine_restaurant_name |}.

(** The handler: the calls made to the model, and the response. *)
Definition predict (df : DataFrame) (model_data : option Model)
    (req : Request) : list ModelInput * Outcome Response :=
  match locate df req with
  | Ok L =>
      match statistics L with
      | Ok st =>
          let '(calls, suggested) :=
            suggest model_data (input_df_of L) (price_of req)
                    (st_average_price st) in
          (calls, Ok (response st suggested))
      | Err e => ([], Err e)
      end
  | Err e => ([], Err e)
  end.

End Handlers.

(** ** Reference notions of the specification *)

(** The substring filter of the glossary, as a mask on text values;
    missing values never match. *)
Definition substring_mask (q : string) (vals : list (option string))
  : list bool :=
  mask_of (Text.contains_ci q) vals.

(** No row selected. *)
Definition selects_nothing (mask : list bool) : Prop :=
  ∀ b, b ∈ mask → b = false.

(** The location set as the specification words it: non-missing values,
    trimmed, the empty ones dropped, deduplicated, sorted. *)
Definition locations_spec (vals : list (option string)) : list string :=
  merge_sort String.le
    (remove_dups (List.filter Text.truthy (Text.strip <$> dropna vals))).

(** Position [i] holds the largest non-missing value, and no earlier
    position holds one as large. *)
Definition first_max (l : list (option Qc)) (i : nat) : Prop :=
  ∃ v, l !! i = Some (Some v) ∧
       ∀ (j : nat) (w : Qc), l !! j = Some (Some w) →
              (w ≤ v)%Qc ∧ ((j < i)%nat → (w < v)%Qc).

(** [m] is the smaller of [a] and [b]. *)
Definition is_min (m a b : Qc) : Prop :=
  (m = a ∨ m = b) ∧ (m ≤ a)%Qc ∧ (m ≤ b)%Qc.

(** The largest double, [(2^53 - 1) * 2^971]. *)
Definition top : Q := inject_Z (2 ^ 53 - 1) * pow2 971.
Definition max_double : Qc := Q2Qc top.

(** The smallest positive normal double, [2^-1022]. *)
Definition min_normal : Qc := Q2Qc (pow2 (-1022)).

(** Within the range of the doubles. *)
Definition finite (x : Qc) : Prop :=
  (- max_double ≤ x)%Qc ∧ (x ≤ max_double)%Qc.

(** The doubles: [m * 2^e] with a mantissa [m] of at most 53 bits and an
    exponent [e] from [-1074] to [971]. *)
Definition is_double (x : Qc) : Prop :=
  ∃ m e : Z, Z.abs m < 2 ^ 53 ∧ -1074 ≤ e ≤ 971 ∧
             x = Q2Qc (inject_Z m * pow2 e).

(** A double whose mantissa, in normal form, is even. *)
Definition even_double (x : Qc) : Prop :=
  ∃ m e : Z, Z.even m = true ∧ Z.abs m < 2 ^ 53 ∧ -1074 ≤ e ≤ 971 ∧
             (2 ^ 52 ≤ Z.abs m ∨ e = -1074) ∧
             x = Q2Qc (inject_Z m * pow2 e).

Definition distance (x y : Qc) : Qc :=
  if bool_decide (x ≤ y)%Qc then (y - x)%Qc else (x - y)%Qc.

(** [y] is [x] rounded as IEEE 754 rounds by default: a double, no double
    is nearer to [x], and if another is as near then [y] is the even
    one. *)
Definition rounds_to (x y : Qc) : Prop :=
  is_double y ∧
  (∀ d, is_double d → (distance x y ≤ distance x d)%Qc) ∧
  (∀ d, is_double d → d ≠ y → distance x d = distance x y → even_double y).

(** ** Example data *)

(** An engine that rejects every pattern outside the fragment, and a
    rendering of floats; the examples below do not reach either. *)
Definition reject_other : string -> option (string -> bool) := fun _ => None.
Definition repr_zero : Qc -> string := fun _ => "0.0".

(** The three-row example of the specification. *)
Definition downtown : DataFrame :=
  {| nrows := 3;
     data :=
       [("Location",
         ObjectSeries [Some "Downtown"; Some "Downtown"; Some "Downtown"]);
        ("Cuisines",
         ObjectSeries [Some "Italian"; Some "Italian,Mexican"; Some "Thai"]);
        ("Price_for_one",
         FloatSeries [Some (qc 10 1); Some (qc 20 1); Some (qc 30 1)]);
        ("Rating",
         FloatSeries [Some (qc 2 1); Some (qc 5 1); Some (qc 3 1)]);
        ("Name", ObjectSeries [Some "A"; Some "B"; Some "C"])] |}.

Definition downtown_request : Request :=
  {| location := Some "Downtown";
     cuisine := Some "Italian";
     price := Some (qc 15 1) |}.

Definition downtown_located : Located :=
  {| the_location := "Downtown";
     the_cuisine := "Italian";
     location_col := "Location";
     cuisine_col := "Cuisines";
     price_col := "Price_for_one";
     rating_col := Some "Rating";
     name_col := Some "Name";
     df_location := downtown |}.

Definition downtown_stats : Stats :=
  {| st_popular_cuisine := Str "Italian";
     st_average_price := Some (qc 20 1);
     st_most_popular_restaurant_name := Str "B";
     st_most_popular_cuisine_restaurant_name := Str "B" |}.

(** A model that answers 18 whatever it is asked, and one that raises. *)
Definition model_18 : Model := fun _ => Some (qc 18 1).
Definition model_raising : Model := fun _ => None.

(** A location no row has, and requests whose location or cuisine is the
    one-character pattern [.]. *)
Definition uptown_request : Request :=
  {| location := Some "Uptown"; cuisine := Some "Italian"; price := None |}.
Definition dot_location_request : Request :=
  {| location := Some "."; cuisine := Some "Italian"; price := None |}.
Definition dot_cuisine_request : Request :=
  {| location := Some "Downtown"; cuisine := Some "."; price := None |}.

(** The same restaurants without their ratings. *)
Definition unrated : DataFrame :=
  {| nrows := 3;
     data :=
       [("Location",
         ObjectSeries [Some "Downtown"; Some "Downtown"; Some "Downtown"]);
        ("Cuisines",
         ObjectSeries [Some "Italian"; Some "Italian,Mexican"; Some "Thai"]);
        ("Price_for_one",
         FloatSeries [Some (qc 10 1); Some (qc 20 1); Some (qc 30 1)]);
        ("Name", ObjectSeries [Some "A"; Some "B"; Some "C"])] |}.

(** Two locations; the only row of the first one has no price. *)
Definition unpriced : DataFrame :=
  {| nrows := 2;
     data :=
       [("Location", ObjectSeries [Some "Downtown"; Some "Uptown"]);
        ("Cuisines", ObjectSeries [Some "Thai"; Some "Thai"]);
        ("Price_for_one", FloatSeries [None; Some (qc 10 1)])] |}.

(** Location values with surrounding blanks. *)
Definition padded : DataFrame :=
  {| nrows := 3;
     data :=
       [("Location", ObjectSeries [Some " Downtown"; Some "Downtown"; Some "  "]);
        ("Cuisines", ObjectSeries [Some "Thai, Thai"; None; Some ",Italian"])] |}.

(** The three-row example under any accepted naming of its columns. *)
Definition restaurants (lc cc pc rc nc : string) : DataFrame :=
  {| nrows := 3;
     data :=
       [(lc, ObjectSeries [Some "Downtown"; Some "Downtown"; Some "Downtown"]);
        (cc, ObjectSeries [Some "Italian"; Some "Italian,Mexican"; Some "Thai"]);
        (pc, FloatSeries [Some (qc 10 1); Some (qc 20 1); Some (qc 30 1)]);
        (rc, FloatSeries [Some (qc 2 1); Some (qc 5 1); Some (qc 3 1)]);
        (nc, ObjectSeries [Some "A"; Some "B"; Some "C"])] |}.

(** ** The remaining handler and notions used to describe the handlers *)

(** [health_check], lines 190-198. *)
Record Health : Type := {
  status : string;
  data_loaded : bool;
  model_loaded : bool;
  records : nat
}.

Definition health_check (df : DataFrame) (model_data : option Model) : Health :=
  {| status := "healthy";
     data_loaded := negb (df_empty df);
     model_loaded := bool_decide (is_Some model_data);
     records := if negb (df_empty df) then nrows df else 0%nat |}.

(** The test of line 91, passed. *)
Definition valid_request (req : Request) : bool :=
  match location req, cuisine req with
  | Some loc, Some cui => Text.truthy loc && Text.truthy cui
  | _, _ => false
  end.

(** The three columns line 128 asks for. *)
Definition required_columns (df : DataFrame) : bool :=
  bool_decide (is_Some (find_column location_columns df)) &&
  bool_decide (is_Some (find_column cuisine_columns df)) &&
  bool_decide (is_Some (find_column price_columns df)).

(** The same text up to the case of its letters. *)
Definition same_up_to_case (p q : string) : Prop :=
  Text.lower <$> list_ascii_of_string p = Text.lower <$> list_ascii_of_string q.


(** The position, among the selected entries, of the entry at [i]. *)
Definition rank (mask : list bool) (i : nat) : nat :=
  length (List.filter id (take i mask)).

(** No value is shared by two rows. *)
Definition distinct_values (l : list (option Qc)) : Prop :=
  ∀ (i j : nat) (v : Qc),
    l !! i = Some (Some v) → l !! j = Some (Some v) → i = j.

(** ** Properties *)

(** Discharges a closed equation between values with decidable equality
    by evaluation. *)
Ltac by_evaluation :=
  match goal with
  | |- ?P => apply (bool_decide_eq_true_1 P); vm_compute; reflexivity
  end.

(** *** Doubles *)

(** Powers of two. *)

Lemma pow2_pos (e : Z) : (0 < pow2 e)%Q.
Proof. by apply Qpower_0_lt. Qed.

Lemma pow2_add (a b : Z) : (pow2 (a + b) == pow2 a * pow2 b)%Q.
Proof. by apply Qpower_plus. Qed.

Lemma pow2_le (a b : Z) : a ≤ b → (pow2 a <= pow2 b)%Q.
Proof. intros. by apply Qpower_le_compat_l. Qed.

Lemma pow2_lt (a b : Z) : a < b → (pow2 a < pow2 b)%Q.
Proof. intros. by apply Qpower_lt_compat_l. Qed.

Lemma pow2_Z (a : Z) : 0 ≤ a → (pow2 a == inject_Z (2 ^ a))%Q.
Proof. intros. symmetry. by apply Zpower_Qpower. Qed.

Lemma pow2_succ (a : Z) : (pow2 (a + 1) == 2 * pow2 a)%Q.
Proof. rewrite pow2_add. unfold pow2 at 2. rewrite Qpower_1_r. ring. Qed.

(** The exponent of the last place. *)

Lemma log2_bounds (x : Q) :
  ¬ (x == 0)%Q →
  let e0 := Z.log2 (Z.abs (Qnum x)) - Z.log2 (Zpos (Qden x)) in
  (pow2 (e0 - 1) < Qabs x)%Q ∧ (Qabs x < pow2 (e0 + 1))%Q.
Proof.
  destruct x as [n d]. intros Hx e0. subst e0. cbn [Qnum Qden].
  assert (Hn : 0 < Z.abs n).
  { unfold Qeq in Hx. cbn in Hx. lia. }
  pose proof (Z.log2_spec _ Hn) as [Hn1 Hn2].
  pose proof (Z.log2_spec (Z.pos d) ltac:(lia)) as [Hd1 Hd2].
  pose proof (Z.log2_nonneg (Z.abs n)) as Hln.
  pose proof (Z.log2_nonneg (Z.pos d)) as Hld.
  set (ln := Z.log2 (Z.abs n)) in *. set (ld := Z.log2 (Z.pos d)) in *.
  assert (HA := pow2_Z ln Hln). assert (HB := pow2_Z ld Hld).
  assert (HA' := pow2_succ ln). assert (HB' := pow2_succ ld).
  rewrite <-Z.add_1_r in Hn2, Hd2.
  rewrite Zle_Qle in Hn1, Hd1. rewrite Zlt_Qlt in Hn2, Hd2.
  rewrite <-(pow2_Z (ln + 1)) in Hn2 by lia.
  rewrite <-(pow2_Z (ld + 1)) in Hd2 by lia.
  rewrite <-HA in Hn1. rewrite <-HB in Hd1. rewrite HA' in Hn2. rewrite HB' in Hd2.
  assert (Hx' : (Qabs (n # d) * inject_Z (Z.pos d) == inject_Z (Z.abs n))%Q).
  { cbn [Qabs]. rewrite (Qmake_Qdiv (Z.abs n) d). field.
    intros H0. unfold Qeq in H0. cbn in H0. lia. }
  pose proof (Qabs_nonneg (n # d)) as Hpos.
  pose proof (pow2_pos ln) as HAp. pose proof (pow2_pos ld) as HBp.
  set (X := Qabs (n # d)) in *. set (N := inject_Z (Z.abs n)) in *.
  set (D := inject_Z (Z.pos d)) in *.
  set (A := pow2 ln) in *. set (B := pow2 ld) in *.
  assert (E1 : (pow2 (ln - ld - 1) == A / (2 * B))%Q).
  { replace (ln - ld - 1) with (ln - (ld + 1)) by lia.
    unfold pow2 at 1. rewrite Qpower_minus by done.
    fold (pow2 ln) (pow2 (ld + 1)). rewrite HB'. reflexivity. }
  assert (E2 : (pow2 (ln - ld + 1) == 2 * A / B)%Q).
  { replace (ln - ld + 1) with (ln + 1 - ld) by lia.
    unfold pow2 at 1. rewrite Qpower_minus by done.
    fold (pow2 (ln + 1)) (pow2 ld). rewrite HA'. reflexivity. }
  rewrite E1, E2. split.
  - apply Qlt_shift_div_r; [lra|]. nra.
  - apply Qlt_shift_div_l; [lra|]. nra.
Qed.

Lemma ulp_exponent_spec (x : Q) :
  ¬ (x == 0)%Q →
  -1074 ≤ ulp_exponent x ∧
  (Qabs x < pow2 (ulp_exponent x + 53))%Q ∧
  (ulp_exponent x = -1074 ∨ (pow2 (ulp_exponent x + 52) <= Qabs x)%Q).
Proof.
  intros Hx. destruct (log2_bounds x Hx) as [Hlo Hhi]. unfold ulp_exponent.
  set (e0 := Z.log2 (Z.abs (Qnum x)) - Z.log2 (Z.pos (Qden x))) in *.
  assert (He : ∃ e, (if Qle_bool (pow2 e0) (Qabs x) then e0 else e0 - 1) = e ∧
                    (pow2 e <= Qabs x)%Q ∧ (Qabs x < pow2 (e + 1))%Q).
  { destruct (Qle_bool (pow2 e0) (Qabs x)) eqn:Hb.
    - exists e0. apply Qle_bool_iff in Hb. done.
    - exists (e0 - 1). split; [done|]. split; [by apply Qlt_le_weak|].
      replace (e0 - 1 + 1) with e0 by lia.
      apply Qnot_le_lt. intros Hle. apply Qle_bool_iff in Hle. congruence. }
  destruct He as (e & -> & He1 & He2).
  split; [lia|]. split.
  - eapply Qlt_le_trans; [exact He2|]. apply pow2_le. lia.
  - destruct (Z.max_spec (e - 52) (-1074)) as [[_ ->] | [_ ->]]; [by left|].
    right. by replace (e - 52 + 52) with e by lia.
Qed.

(** The nearest integer. *)

Lemma round_half_even_close (q : Q) :
  (inject_Z (round_half_even q) - (1 # 2) <= q)%Q ∧
  (q <= inject_Z (round_half_even q) + (1 # 2))%Q.
Proof.
  destruct q as [n d]. unfold round_half_even. cbn [Qnum Qden].
  pose proof (Z.div_mod n (Z.pos d) ltac:(lia)) as Hdiv.
  pose proof (Z.mod_pos_bound n (Z.pos d) ltac:(lia)) as Hmod.
  set (f := n / Z.pos d) in *. set (r := n mod Z.pos d) in *.
  assert (Hcases : ∀ z : Z,
    (2 * Z.pos d * z - Z.pos d <= 2 * n)%Z →
    (2 * n <= 2 * Z.pos d * z + Z.pos d)%Z →
    (inject_Z z - (1 # 2) <= n # d)%Q ∧ (n # d <= inject_Z z + (1 # 2))%Q).
  { intros z H1 H2. unfold Qle, Qminus, Qplus, Qopp, inject_Z.
    cbn [Qnum Qden]. split; nia. }
  destruct (Z.compare_spec (2 * r) (Z.pos d)) as [Heq | Hlt | Hgt].
  - destruct (Z.even f); apply Hcases; nia.
  - apply Hcases; nia.
  - apply Hcases; nia.
Qed.

(** At a tie the even integer is taken. *)
Lemma round_half_even_tie (q : Q) :
  (Qabs (inject_Z (round_half_even q) - q) == 1 # 2)%Q →
  Z.even (round_half_even q) = true.
Proof.
  destruct q as [n d]. unfold round_half_even. cbn [Qnum Qden].
  pose proof (Z.div_mod n (Z.pos d) ltac:(lia)) as Hdiv.
  pose proof (Z.mod_pos_bound n (Z.pos d) ltac:(lia)) as Hmod.
  set (f := n / Z.pos d) in *. set (r := n mod Z.pos d) in *.
  assert (Hstrict : ∀ z : Z,
    (2 * Z.pos d * z - Z.pos d < 2 * n)%Z →
    (2 * n < 2 * Z.pos d * z + Z.pos d)%Z →
    ¬ (Qabs (inject_Z z - (n # d)) == 1 # 2)%Q).
  { intros z H1 H2 Habs.
    assert ((inject_Z z - (1 # 2) < n # d)%Q ∧ (n # d < inject_Z z + (1 # 2))%Q)
      as [H3 H4].
    { unfold Qlt, Qminus, Qplus, Qopp, inject_Z. cbn [Qnum Qden]. split; nia. }
    revert Habs. apply Qabs_case; intros; lra. }
  destruct (Z.compare_spec (2 * r) (Z.pos d)) as [Heq | Hlt | Hgt].
  - intros _. destruct (Z.even f) eqn:Hf; [done|].
    rewrite Z.even_add, Hf. done.
  - intros Habs. exfalso. revert Habs. apply Hstrict; nia.
  - intros Habs. exfalso. revert Habs. apply Hstrict; nia.
Qed.

Lemma integers_apart (N r : Z) :
  N ≠ r →
  (inject_Z N <= inject_Z r - 1)%Q ∨ (inject_Z r + 1 <= inject_Z N)%Q.
Proof.
  intros Hne. destruct (Z_lt_le_dec N r) as [Hlt | Hge]; [left | right];
    unfold Qle, Qminus, Qplus, Qopp, inject_Z; cbn [Qnum Qden]; lia.
Qed.

Lemma round_half_even_nearest (q : Q) (N : Z) :
  (Qabs (inject_Z (round_half_even q) - q) <= Qabs (inject_Z N - q))%Q.
Proof.
  destruct (round_half_even_close q) as [Hlo Hhi].
  set (r := round_half_even q) in *.
  destruct (Z.eq_dec N r) as [-> | Hne]; [apply Qle_refl|].
  destruct (integers_apart N r Hne) as [Hfar | Hfar];
    apply Qabs_case; intros; apply Qabs_case; intros; lra.
Qed.

(** Another integer as near as the rounded one: a tie. *)
Lemma round_half_even_other (q : Q) (N : Z) :
  N ≠ round_half_even q →
  (Qabs (inject_Z N - q) == Qabs (inject_Z (round_half_even q) - q))%Q →
  Z.even (round_half_even q) = true.
Proof.
  intros Hne Heq. apply round_half_even_tie.
  destruct (round_half_even_close q) as [Hlo Hhi].
  set (r := round_half_even q) in *.
  destruct (integers_apart N r Hne) as [Hfar | Hfar].
  all: revert Heq;
    apply Qabs_case; intros ?; apply Qabs_case; intros ? Heq; lra.
Qed.

(** The nearest multiple of a power of two. *)

Lemma scaled_nearest (x p : Q) (N : Z) :
  (0 < p)%Q →
  (Qabs (inject_Z (round_half_even (x / p)) * p - x)
   <= Qabs (inject_Z N * p - x))%Q.
Proof.
  intros Hp. pose proof (round_half_even_nearest (x / p) N) as Hnear.
  set (r := inject_Z (round_half_even (x / p))) in *.
  assert (E1 : (r * p - x == (r - x / p) * p)%Q) by (field; lra).
  assert (E2 : (inject_Z N * p - x == (inject_Z N - x / p) * p)%Q)
    by (field; lra).
  rewrite E1, E2, !Qabs_Qmult, (Qabs_pos p) by lra.
  apply Qmult_le_compat_r; [done | lra].
Qed.

Lemma scaled_tie (x p : Q) (N : Z) :
  (0 < p)%Q → N ≠ round_half_even (x / p) →
  (Qabs (inject_Z N * p - x)
   == Qabs (inject_Z (round_half_even (x / p)) * p - x))%Q →
  Z.even (round_half_even (x / p)) = true.
Proof.
  intros Hp Hne Heq. apply (round_half_even_other (x / p) N Hne).
  set (r := inject_Z (round_half_even (x / p))) in *.
  assert (E1 : (r * p - x == (r - x / p) * p)%Q) by (field; lra).
  assert (E2 : (inject_Z N * p - x == (inject_Z N - x / p) * p)%Q)
    by (field; lra).
  rewrite E1, E2, !Qabs_Qmult, (Qabs_pos p) in Heq by lra.
  apply Qmult_inj_r in Heq; [done | lra].
Qed.

Lemma pow2_multiple (m e k : Z) :
  k ≤ e →
  (inject_Z m * pow2 e == inject_Z (m * 2 ^ (e - k)) * pow2 k)%Q.
Proof.
  intros Hke. replace e with (e - k + k) at 1 by lia.
  rewrite pow2_add, (pow2_Z (e - k)) by lia. rewrite inject_Z_mult. ring.
Qed.

Lemma Qabs_inject_Z (m : Z) : (Qabs (inject_Z m) == inject_Z (Z.abs m))%Q.
Proof. reflexivity. Qed.

(** A double of a finer exponent than the last place of [x] is smaller
    than [2^(k+52)], which [x] is not. *)
Lemma finer_double_small (m e k : Z) :
  Z.abs m < 2 ^ 53 → e < k →
  (Qabs (inject_Z m * pow2 e) < pow2 (k + 52))%Q.
Proof.
  intros Hm Hek. rewrite Qabs_Qmult, Qabs_inject_Z.
  rewrite (Qabs_pos (pow2 e)) by (apply Qlt_le_weak, pow2_pos).
  assert (Hm' : (inject_Z (Z.abs m) < inject_Z (2 ^ 53))%Q)
    by by rewrite <-Zlt_Qlt.
  rewrite <-(pow2_Z 53) in Hm' by lia.
  pose proof (pow2_le e (k - 1) ltac:(lia)) as He.
  replace (k + 52) with (53 + (k - 1)) by lia. rewrite pow2_add.
  pose proof (pow2_pos e). pose proof (pow2_pos 53).
  assert (0 <= inject_Z (Z.abs m))%Q.
  { change 0%Q with (inject_Z 0). rewrite <-Zle_Qle. lia. }
  nra.
Qed.

Lemma nearest_finer (x : Q) (m e : Z) :
  ¬ (x == 0)%Q → Z.abs m < 2 ^ 53 → -1074 ≤ e → e < ulp_exponent x →
  (Qabs (nearest x - x) < Qabs (inject_Z m * pow2 e - x))%Q.
Proof.
  intros Hx Hm He Hek.
  destruct (ulp_exponent_spec x Hx) as (_ & _ & [Hk | Hk]); [lia|].
  pose proof (finer_double_small m e _ Hm Hek) as Hsmall.
  set (k := ulp_exponent x) in *. set (d := (inject_Z m * pow2 e)%Q) in *.
  assert (HB : (pow2 (k + 52) == inject_Z (2 ^ 52) * pow2 k)%Q).
  { rewrite Z.add_comm, pow2_add, (pow2_Z 52) by lia. reflexivity. }
  unfold nearest. fold k.
  destruct (Qlt_le_dec x 0) as [Hneg | Hpos].
  - pose proof (scaled_nearest x (pow2 k) (- 2 ^ 52) (pow2_pos k)) as Hn.
    rewrite inject_Z_opp in Hn.
    eapply Qle_lt_trans; [exact Hn|].
    rewrite Qabs_neg in Hk by lra. revert Hsmall.
    apply Qabs_case; intros ?; apply Qabs_case; intros ?;
      apply Qabs_case; intros ?; lra.
  - pose proof (scaled_nearest x (pow2 k) (2 ^ 52) (pow2_pos k)) as Hn.
    eapply Qle_lt_trans; [exact Hn|].
    rewrite Qabs_pos in Hk by lra. revert Hsmall.
    apply Qabs_case; intros ?; apply Qabs_case; intros ?;
      apply Qabs_case; intros ?; lra.
Qed.

Lemma nearest_is_nearest (x : Q) (m e : Z) :
  Z.abs m < 2 ^ 53 → -1074 ≤ e →
  (Qabs (nearest x - x) <= Qabs (inject_Z m * pow2 e - x))%Q.
Proof.
  intros Hm He. destruct (Z_lt_le_dec e (ulp_exponent x)) as [Hek | Hke].
  - destruct (Qeq_dec x 0) as [H0 | Hx].
    + pose proof (scaled_nearest x (pow2 (ulp_exponent x)) 0 (pow2_pos _))
        as Hn.
      eapply Qle_trans; [exact Hn|]. change (inject_Z 0) with 0%Q.
      apply Qabs_case; intros ?; apply Qabs_case; intros ?; lra.
    + by apply Qlt_le_weak, nearest_finer.
  - rewrite (pow2_multiple m e _ Hke). apply scaled_nearest, pow2_pos.
Qed.

Lemma round_half_even_ge (z : Q) (a : Z) :
  (inject_Z a <= z)%Q → a ≤ round_half_even z.
Proof.
  intros Ha. destruct (round_half_even_close z) as [_ Hhi].
  apply Z.lt_succ_r, Z.succ_lt_mono. rewrite <-!Z.add_1_r, Zlt_Qlt.
  rewrite !inject_Z_plus. change (inject_Z 1) with 1%Q. lra.
Qed.

Lemma round_half_even_le (z : Q) (a : Z) :
  (z <= inject_Z a)%Q → round_half_even z ≤ a.
Proof.
  intros Ha. destruct (round_half_even_close z) as [Hlo _].
  apply Z.lt_succ_r. rewrite <-!Z.add_1_r, Zlt_Qlt.
  rewrite !inject_Z_plus. change (inject_Z 1) with 1%Q. lra.
Qed.

Lemma nearest_zero (x : Q) : (x == 0)%Q → (nearest x == 0)%Q.
Proof.
  intros H0.
  pose proof (scaled_nearest x (pow2 (ulp_exponent x)) 0 (pow2_pos _)) as Hn.
  fold (nearest x) in Hn. change (inject_Z 0) with 0%Q in Hn. revert Hn.
  apply Qabs_case; intros ?; apply Qabs_case; intros ?; lra.
Qed.

Lemma top_lt : (top < pow2 1024)%Q.
Proof.
  unfold top. replace 1024 with (53 + 971) by lia.
  rewrite pow2_add, (pow2_Z 53) by lia. pose proof (pow2_pos 971).
  apply Qmult_lt_compat_r; [done|]. by rewrite <-Zlt_Qlt.
Qed.

Lemma pow2_lt_inv (a b : Z) : (pow2 a < pow2 b)%Q → a < b.
Proof.
  intros Hlt. destruct (Z_lt_le_dec a b) as [|Hle]; [done|].
  apply pow2_le in Hle. lra.
Qed.

Lemma nearest_representation (x : Q) :
  (Qabs x <= top)%Q →
  ∃ m e : Z,
    Z.abs m < 2 ^ 53 ∧ -1074 ≤ e ≤ 971 ∧
    (2 ^ 52 ≤ Z.abs m ∨ e = -1074) ∧
    (nearest x == inject_Z m * pow2 e)%Q ∧
    (Z.even (round_half_even (x / pow2 (ulp_exponent x))) = true →
     Z.even m = true).
Proof.
  intros Htop. destruct (Qeq_dec x 0) as [H0 | Hx].
  { exists 0, (-1074). split; [done|]. split; [lia|]. split; [by right|].
    split; [|done].
    rewrite (nearest_zero x H0). change (inject_Z 0) with 0%Q. ring. }
  destruct (ulp_exponent_spec x Hx) as (Hk1 & Hk2 & Hk3).
  pose proof top_lt as Htop'.
  pose proof (nearest_is_nearest x (2 ^ 53 - 1) 971 ltac:(lia) ltac:(lia))
    as Hup.
  pose proof (nearest_is_nearest x (- (2 ^ 53 - 1)) 971 ltac:(lia) ltac:(lia))
    as Hdown.
  assert (Edown : (inject_Z (- (2 ^ 53 - 1)) * pow2 971 == - top)%Q)
    by (unfold top; rewrite inject_Z_opp; ring).
  rewrite Edown in Hdown. fold top in Hup. clear Edown.
  unfold nearest in *.
  set (k := ulp_exponent x) in *. pose proof (pow2_pos k) as Hp.
  set (r := round_half_even (x / pow2 k)) in *.
  assert (Hz : (x == x / pow2 k * pow2 k)%Q) by (field; lra).
  assert (HB : (pow2 (k + 53) == inject_Z (2 ^ 53) * pow2 k)%Q).
  { rewrite Z.add_comm, pow2_add, (pow2_Z 53) by lia. reflexivity. }
  assert (HB' : (pow2 (k + 52) == inject_Z (2 ^ 52) * pow2 k)%Q).
  { rewrite Z.add_comm, pow2_add, (pow2_Z 52) by lia. reflexivity. }
  rewrite HB in Hk2. rewrite HB' in Hk3.
  assert (Hk : k ≤ 971).
  { destruct Hk3 as [-> | Hk3]; [lia|].
    rewrite <-HB' in Hk3.
    assert (k + 52 < 1024); [|lia]. apply pow2_lt_inv. lra. }
  assert (Hr : Z.abs r ≤ 2 ^ 53).
  { assert (- 2 ^ 53 ≤ r ∧ r ≤ 2 ^ 53); [|lia]. split.
    - apply round_half_even_ge. rewrite inject_Z_opp.
      apply Qle_shift_div_l; [done|]. revert Hk2.
      apply Qabs_case; intros ?; lra.
    - apply round_half_even_le.
      apply Qle_shift_div_r; [done|]. revert Hk2.
      apply Qabs_case; intros ?; lra. }
  assert (Hr' : k = -1074 ∨ 2 ^ 52 ≤ Z.abs r).
  { destruct Hk3 as [-> | Hk3]; [by left|]. right.
    destruct (Qlt_le_dec x 0) as [Hneg | Hpos].
    - assert (r ≤ - 2 ^ 52); [|lia].
      apply round_half_even_le. rewrite inject_Z_opp.
      apply Qle_shift_div_r; [done|]. rewrite Qabs_neg in Hk3; lra.
    - assert (2 ^ 52 ≤ r); [|lia].
      apply round_half_even_ge.
      apply Qle_shift_div_l; [done|]. rewrite Qabs_pos in Hk3; lra. }
  destruct (Z.eq_dec (Z.abs r) (2 ^ 53)) as [Hcarry | Hplain].
  - assert (Hk' : k + 1 ≤ 971).
    { assert (k + 53 < 1024); [|lia]. apply pow2_lt_inv.
      rewrite HB. eapply Qle_lt_trans; [|exact Htop'].
      assert (Hr2 : r = 2 ^ 53 ∨ r = - 2 ^ 53) by lia.
      destruct (Qlt_le_dec x 0) as [Hneg | Hpos].
      + assert (r ≤ 0).
        { apply round_half_even_le. change (inject_Z 0) with 0%Q.
          apply Qle_shift_div_r; [done|]. lra. }
        destruct Hr2 as [Hr2 | Hr2]; [lia|]. rewrite Hr2 in Hdown.
        rewrite inject_Z_opp in Hdown. rewrite Qabs_neg in Htop by lra.
        revert Hdown.
        apply Qabs_case; intros ?; apply Qabs_case; intros ?; lra.
      + assert (0 ≤ r).
        { apply round_half_even_ge. change (inject_Z 0) with 0%Q.
          apply Qle_shift_div_l; [done|]. lra. }
        destruct Hr2 as [Hr2 | Hr2]; [|lia]. rewrite Hr2 in Hup.
        rewrite Qabs_pos in Htop by lra. revert Hup.
        apply Qabs_case; intros ?; apply Qabs_case; intros ?; lra. }
    assert (Hr2 : r = 2 ^ 53 ∨ r = - 2 ^ 53) by lia.
    exists (r / 2), (k + 1).
    assert (Hhalf : r = 2 * (r / 2)) by (destruct Hr2 as [-> | ->]; done).
    split; [destruct Hr2 as [-> | ->]; done|]. split; [lia|].
    split; [left; destruct Hr2 as [-> | ->]; done|]. split.
    + rewrite pow2_succ. rewrite Hhalf at 1. rewrite inject_Z_mult.
      change (inject_Z 2) with 2%Q. ring.
    + intros _. destruct Hr2 as [-> | ->]; done.
  - exists r, k. split; [lia|]. split; [lia|].
    split; [destruct Hr'; [by right | by left]|]. split; [reflexivity|done].
Qed.

Lemma nearest_tie (x : Q) (m e : Z) :
  Z.abs m < 2 ^ 53 → -1074 ≤ e →
  ¬ (inject_Z m * pow2 e == nearest x)%Q →
  (Qabs (inject_Z m * pow2 e - x) == Qabs (nearest x - x))%Q →
  Z.even (round_half_even (x / pow2 (ulp_exponent x))) = true.
Proof.
  intros Hm He Hne Heq.
  destruct (Qeq_dec x 0) as [H0 | Hx].
  { exfalso. apply Hne. pose proof (nearest_zero x H0) as Hn. revert Heq.
    apply Qabs_case; intros ?; apply Qabs_case; intros ?; lra. }
  destruct (Z_lt_le_dec e (ulp_exponent x)) as [Hek | Hke].
  { pose proof (nearest_finer x m e Hx Hm He Hek). lra. }
  rewrite (pow2_multiple m e _ Hke) in Heq, Hne.
  apply (scaled_tie x _ (m * 2 ^ (e - ulp_exponent x)) (pow2_pos _));
    [|exact Heq].
  intros HN. apply Hne. unfold nearest. by rewrite HN.
Qed.

(** The rounding, on the floats. *)

Lemma distance_Qabs (x y : Qc) :
  (this (distance x y) == Qabs (this y - this x))%Q.
Proof.
  unfold distance. case_bool_decide as Hle.
  - unfold Qcle in Hle. unfold Qcminus, Qcplus, Qcopp, Q2Qc. cbn [this].
    rewrite !Qred_correct, Qabs_pos by lra. reflexivity.
  - apply Qcnot_le_lt in Hle. unfold Qclt in Hle.
    unfold Qcminus, Qcplus, Qcopp, Q2Qc. cbn [this].
    rewrite !Qred_correct, Qabs_neg by lra. ring.
Qed.

Lemma this_Q2Qc (q : Q) : (this (Q2Qc q) == q)%Q.
Proof. apply Qred_correct. Qed.

Lemma this_max_double : (this max_double == top)%Q.
Proof. apply this_Q2Qc. Qed.

Lemma round_double_nearest (x : Qc) : round_double x = Q2Qc (nearest x).
Proof. reflexivity. Qed.

Lemma Qabs_le_top (x : Qc) :
  (- max_double ≤ x)%Qc → (x ≤ max_double)%Qc → (Qabs x <= top)%Q.
Proof.
  unfold Qcle, Qcopp, Q2Qc. cbn [this].
  rewrite !Qred_correct, this_max_double. intros Hlo Hhi.
  apply Qabs_case; intros ?; lra.
Qed.

(** The rounding is the IEEE 754 one: to the nearest double, and to the
    one of even mantissa when two doubles are equally near. *)
Lemma round_double_rounds_to (x : Qc) :
  (- max_double ≤ x)%Qc → (x ≤ max_double)%Qc →
  rounds_to x (round_double x).
Proof.
  intros Hlo Hhi. pose proof (Qabs_le_top x Hlo Hhi) as Htop.
  destruct (nearest_representation x Htop)
    as (m & e & Hm & He & Hcanon & Hrep & Heven).
  rewrite round_double_nearest. split; [|split].
  - exists m, e. split; [done|]. split; [done|]. by apply Q2Qc_eq_iff.
  - intros d (m' & e' & Hm' & He' & ->).
    unfold Qcle. rewrite !distance_Qabs, !this_Q2Qc.
    apply nearest_is_nearest; [done | lia].
  - intros d (m' & e' & Hm' & He' & ->) Hne Hdist.
    exists m, e. split; [|split; [done|split; [done|split; [done|]]]].
    + apply Heven. apply (nearest_tie x m' e'); [done | lia | |].
      * intros Heq. apply Hne. by apply Q2Qc_eq_iff.
      * apply (f_equal this) in Hdist.
        assert (this (distance x (Q2Qc (inject_Z m' * pow2 e')))
                == this (distance x (Q2Qc (nearest x))))%Q as Hd
          by by rewrite Hdist.
        by rewrite !distance_Qabs, !this_Q2Qc in Hd.
    + by apply Q2Qc_eq_iff.
Qed.

Lemma is_double_bounded (x : Qc) :
  is_double x → (- max_double ≤ x)%Qc ∧ (x ≤ max_double)%Qc.
Proof.
  intros (m & e & Hm & He & ->).
  unfold Qcle, Qcopp, Q2Qc. cbn [this].
  rewrite !Qred_correct, this_max_double. unfold top.
  pose proof (pow2_le e 971 ltac:(lia)) as Hp. pose proof (pow2_pos e).
  assert ((- inject_Z (2 ^ 53 - 1) <= inject_Z m)%Q ∧
          (inject_Z m <= inject_Z (2 ^ 53 - 1))%Q) as [H1 H2].
  { rewrite <-inject_Z_opp, <-!Zle_Qle. lia. }
  assert (0 < inject_Z (2 ^ 53 - 1))%Q by by rewrite <-(Zlt_Qlt 0).
  set (M := inject_Z (2 ^ 53 - 1)) in *. split; nra.
Qed.

Lemma distance_self (x : Qc) : distance x x = Q2Qc 0.
Proof.
  unfold distance. rewrite bool_decide_eq_true_2 by apply Qcle_refl.
  apply Qc_is_canon. unfold Qcminus, Qcplus, Qcopp, Q2Qc. cbn [this].
  rewrite !Qred_correct. ring.
Qed.

Lemma distance_zero (x y : Qc) : (distance x y ≤ Q2Qc 0)%Qc → y = x.
Proof.
  unfold Qcle. intros Hd. rewrite distance_Qabs, this_Q2Qc in Hd.
  apply Qc_is_canon. revert Hd. apply Qabs_case; intros; lra.
Qed.

(** A double is its own rounding: [float] leaves a float as it is. *)
Lemma round_double_id (x : Qc) : is_double x → round_double x = x.
Proof.
  intros Hx. destruct (is_double_bounded x Hx) as [Hlo Hhi].
  destruct (round_double_rounds_to x Hlo Hhi) as (_ & Hnear & _).
  apply distance_zero. rewrite <-(distance_self x). by apply Hnear.
Qed.

(** The product of a price and 1.1. *)

Lemma this_double_1_1 :
  (this double_1_1 == 2476979795053773 # 2251799813685248)%Q.
Proof. apply this_Q2Qc. Qed.

Lemma this_product (price : Qc) :
  (this (price * double_1_1)%Qc
   == this price * (2476979795053773 # 2251799813685248))%Q.
Proof.
  unfold Qcmult, Q2Qc. cbn [this]. by rewrite Qred_correct, this_double_1_1.
Qed.

Lemma float_mul_rounds_to (price : Qc) :
  is_double price → finite (price * double_1_1)%Qc →
  float_mul (py_float price) double_1_1 = round_double (price * double_1_1) ∧
  rounds_to (price * double_1_1)%Qc (round_double (price * double_1_1)).
Proof.
  intros Hprice [Hlo Hhi]. unfold float_mul, py_float.
  rewrite (round_double_id price Hprice). split; [done|].
  by apply round_double_rounds_to.
Qed.

(** The product of a double that is not negative is not under it. *)
Lemma product_above (price product : Qc) :
  is_double price → (Q2Qc 0 ≤ price)%Qc →
  rounds_to (price * double_1_1)%Qc product → (price ≤ product)%Qc.
Proof.
  intros Hprice Hpos (_ & Hnear & _). specialize (Hnear price Hprice).
  unfold Qcle in *. rewrite !distance_Qabs, this_product in Hnear.
  rewrite this_Q2Qc in Hpos. revert Hnear.
  apply Qabs_case; intros ?; apply Qabs_case; intros ?; lra.
Qed.

(** The product of a negative double is not over it. *)
Lemma product_below (price product : Qc) :
  is_double price → (price ≤ Q2Qc 0)%Qc →
  rounds_to (price * double_1_1)%Qc product → (product ≤ price)%Qc.
Proof.
  intros Hprice Hneg (_ & Hnear & _). specialize (Hnear price Hprice).
  unfold Qcle in *. rewrite !distance_Qabs, this_product in Hnear.
  rewrite this_Q2Qc in Hneg. revert Hnear.
  apply Qabs_case; intros ?; apply Qabs_case; intros ?; lra.
Qed.

(** Next to a negative double of mantissa 5 or more, the double one unit
    further from zero is nearer to the product. *)
Lemma closer_double (p : Q) (m e : Z) :
  (p == inject_Z m * pow2 e)%Q → m ≤ -5 →
  (Qabs (inject_Z (m - 1) * pow2 e
         - p * (2476979795053773 # 2251799813685248))
   < Qabs (p - p * (2476979795053773 # 2251799813685248)))%Q.
Proof.
  intros Hp Hm. pose proof (pow2_pos e) as Hu.
  assert (HM : (inject_Z m <= - 5)%Q).
  { change (- 5)%Q with (inject_Z (-5)). by rewrite <-Zle_Qle. }
  assert (E : (inject_Z (m - 1) == inject_Z m - 1)%Q).
  { unfold Z.sub. rewrite inject_Z_plus. reflexivity. }
  rewrite E. set (M := inject_Z m) in *. set (u := pow2 e) in *.
  assert (HMu : (M * u <= - 5 * u)%Q) by nra.
  apply Qabs_case; intros ?; apply Qabs_case; intros ?; nra.
Qed.

Lemma normal_representation (price : Qc) :
  is_double price → finite (price * double_1_1)%Qc →
  (price ≤ - min_normal)%Qc →
  ∃ m e : Z,
    (this price == inject_Z m * pow2 e)%Q ∧ m ≤ -5 ∧
    is_double (Q2Qc (inject_Z (m - 1) * pow2 e)).
Proof.
  intros (m & e & Hm & He & ->) [Hlo _] Hneg.
  unfold Qcle in Hlo, Hneg.
  rewrite this_product in Hlo.
  unfold Qcopp, min_normal in Hlo, Hneg.
  rewrite !this_Q2Qc in Hlo, Hneg. rewrite this_max_double in Hlo.
  rewrite this_Q2Qc in Hneg. unfold top in Hlo.
  pose proof (pow2_pos e) as Hu. pose proof (pow2_pos (-1022)) as Hn.
  assert (Hm0 : m < 0).
  { destruct (Z_lt_le_dec m 0) as [|Hge]; [done|]. exfalso.
    rewrite (Zle_Qle 0 m) in Hge. change (inject_Z 0) with 0%Q in Hge. nra. }
  destruct (Z_le_gt_dec m (-5)) as [Hbig | Hsmall].
  - exists m, e. split; [apply this_Q2Qc|]. split; [done|].
    destruct (Z.eq_dec m (- (2 ^ 53 - 1))) as [-> | Hnot].
    + assert (He' : e ≤ 970).
      { destruct (Z_le_gt_dec e 970) as [|Hgt]; [done|]. exfalso.
        assert (e = 971) as -> by lia. revert Hlo.
        change (inject_Z (- (2 ^ 53 - 1))) with (- inject_Z (2 ^ 53 - 1))%Q.
        assert (0 < inject_Z (2 ^ 53 - 1))%Q by by rewrite <-(Zlt_Qlt 0).
        set (M := inject_Z (2 ^ 53 - 1)) in *. pose proof (pow2_pos 971).
        set (T := pow2 971) in *. intros Hlo.
        assert (0 < M * T)%Q by nra. lra. }
      exists (- 2 ^ 52), (e + 1). split; [done|]. split; [lia|].
      apply Q2Qc_eq_iff. rewrite pow2_succ.
      replace (- (2 ^ 53 - 1) - 1) with (2 * - 2 ^ 52) by done.
      rewrite inject_Z_mult. change (inject_Z 2) with 2%Q. ring.
    + exists (m - 1), e. split; [lia|]. done.
  - assert (He' : -1024 ≤ e).
    { destruct (Z_le_gt_dec (-1024) e) as [|Hgt]; [done|]. exfalso.
      pose proof (pow2_le e (-1025) ltac:(lia)) as Hle.
      assert (E : (pow2 (-1022) == 8 * pow2 (-1025))%Q).
      { replace (-1022) with (3 + -1025) by lia.
        rewrite pow2_add. reflexivity. }
      assert (HM : (- 4 <= inject_Z m)%Q).
      { change (- 4)%Q with (inject_Z (-4)). rewrite <-Zle_Qle. lia. }
      pose proof (pow2_pos (-1025)). nra. }
    exists (8 * m), (e - 3). split; [|split].
    + rewrite this_Q2Qc. replace e with (3 + (e - 3)) at 1 by lia.
      rewrite pow2_add, inject_Z_mult. change (pow2 3) with 8%Q.
      change (inject_Z 8) with 8%Q. ring.
    + lia.
    + exists (8 * m - 1), (e - 3). split; [lia|]. split; [lia|]. done.
Qed.

(** The product of a negative normal double is under it. *)
Lemma product_strictly_below (price product : Qc) :
  is_double price → finite (price * double_1_1)%Qc →
  (price ≤ - min_normal)%Qc →
  rounds_to (price * double_1_1)%Qc product → (product < price)%Qc.
Proof.
  intros Hprice Hfin Hneg Hround.
  assert (Hle : (product ≤ price)%Qc).
  { apply (product_below price product Hprice); [|done].
    eapply Qcle_trans; [exact Hneg|]. unfold Qcle, Qcopp, min_normal. rewrite !this_Q2Qc. pose proof (pow2_pos (-1022)). lra. }
  destruct (Qcle_lt_or_eq _ _ Hle) as [Hlt | ->]; [done|]. exfalso.
  destruct (normal_representation price Hprice Hfin Hneg)
    as (m & e & Hrep & Hm & Hd).
  destruct Hround as (_ & Hnear & _). specialize (Hnear _ Hd).
  unfold Qcle in Hnear.
  rewrite !distance_Qabs, this_product, this_Q2Qc in Hnear.
  pose proof (closer_double price m e Hrep Hm). lra.
Qed.

(** The literal [1.1] is eleven tenths, rounded. *)
Lemma double_1_1_rounds_to : rounds_to (qc 11 10) double_1_1.
Proof.
  assert (double_1_1 = round_double (qc 11 10)) as -> by by_evaluation.
  apply round_double_rounds_to; by_evaluation.
Qed.

(** *** The blend rule *)

Lemma py_min_is_min (a b : Qc) : is_min (py_min a b) a b.
Proof.
  unfold py_min, is_min. case_bool_decide as Hlt.
  - repeat split; [by right | by apply Qclt_le_weak | done].
  - apply Qcle_ngt in Hlt. repeat split; [by left | done | done].
Qed.

Lemma blend_above (price predicted : Qc) :
  (predicted ≤ price)%Qc → blend price predicted = predicted.
Proof. intros Hle. unfold blend. by rewrite bool_decide_eq_true_2. Qed.

Lemma blend_below (price predicted : Qc) :
  (price < predicted)%Qc →
  blend price predicted
  = py_min (float_mul (py_float price) double_1_1) predicted.
Proof.
  intros Hlt. unfold blend. rewrite bool_decide_eq_false_2; [done|].
  by apply Qclt_nge.
Qed.

(** Two products that the rounding decides: [0.15 * 1.1] is over 0.165,
    so that the suggestion is rounded to 0.17, and [3 * 1.1] is the double
    [3.3000000000000003], over the double [3.3]. *)
Lemma blend_fifteen_hundredths :
  round2 (blend (qc 5404319552844595 36028797018963968) (qc 18 1))
  = qc 17 100.
Proof. by_evaluation. Qed.

Lemma blend_three :
  blend (qc 3 1) (qc 7430939385161319 2251799813685248)
  = qc 7430939385161319 2251799813685248 ∧
  blend (qc 3 1) (qc 18 1) = qc 7430939385161319 2251799813685248 ∧
  (qc 3715469692580659 1125899906842624
   < qc 7430939385161319 2251799813685248)%Qc.
Proof. repeat split; by_evaluation. Qed.

(** C1. When the model is loaded and answers [predicted] on the request's
    input, [predict] succeeds after exactly that one call, and the
    suggested price before rounding is [predicted] itself if the request's
    price is at least [predicted], and otherwise the smaller of the
    product [price * 1.1] and [predicted].  The price is a double, and
    the product is the float product: [1.1] is the double nearest to
    eleven tenths, and the exact product of the price and that double,
    within the range of the doubles, is rounded to the nearest double,
    to the even one at a tie. *)
Theorem predict_blend_rule
    (re_other : string -> option (string -> bool))
    (df : DataFrame) (model : Model) (req : Request)
    (L : Located) (st : Stats) (predicted : Qc) :
  locate re_other df req = Ok L →
  statistics re_other L = Ok st →
  model (input_df_of L) = Some predicted →
  is_double (price_of req) →
  finite (price_of req * double_1_1)%Qc →
  ∃ suggested : Qc,
    predict re_other df (Some model) req
      = ([input_df_of L], Ok (response st (Some suggested))) ∧
    ((predicted ≤ price_of req)%Qc → suggested = predicted) ∧
    ((price_of req < predicted)%Qc →
       ∃ product : Qc,
         rounds_to (qc 11 10) double_1_1 ∧
         rounds_to (price_of req * double_1_1)%Qc product ∧
         is_min suggested product predicted).
Proof.
  intros HL Hst Hm Hprice Hfin. exists (blend (price_of req) predicted).
  split; [|split].
  - unfold predict, suggest. by rewrite HL, Hst, Hm.
  - apply blend_above.
  - intros Hlt. rewrite (blend_below _ _ Hlt).
    destruct (float_mul_rounds_to _ Hprice Hfin) as [-> Hround].
    eexists. split; [exact double_1_1_rounds_to|].
    split; [exact Hround|]. apply py_min_is_min.
Qed.

Lemma predict_blend_rule_witness :
  locate reject_other downtown downtown_request = Ok downtown_located ∧
  statistics reject_other downtown_located = Ok downtown_stats ∧
  model_18 (input_df_of downtown_located) = Some (qc 18 1) ∧
  is_double (price_of downtown_request) ∧
  finite (price_of downtown_request * double_1_1)%Qc ∧
  ∃ suggested : Qc,
    predict reject_other downtown (Some model_18) downtown_request
      = ([input_df_of downtown_located],
         Ok (response downtown_stats (Some suggested))) ∧
    ((qc 18 1 ≤ price_of downtown_request)%Qc → suggested = qc 18 1) ∧
    ((price_of downtown_request < qc 18 1)%Qc →
       ∃ product : Qc,
         rounds_to (qc 11 10) double_1_1 ∧
         rounds_to (price_of downtown_request * double_1_1)%Qc product ∧
         is_min suggested product (qc 18 1)).
Proof.
  assert (HL : locate reject_other downtown downtown_request
               = Ok downtown_located) by by_evaluation.
  assert (Hst : statistics reject_other downtown_located = Ok downtown_stats)
    by by_evaluation.
  assert (Hm : model_18 (input_df_of downtown_located) = Some (qc 18 1))
    by reflexivity.
  assert (Hprice : is_double (price_of downtown_request)).
  { exists 15, 0. split; [done|]. split; [lia|]. by_evaluation. }
  assert (Hfin : finite (price_of downtown_request * double_1_1)%Qc)
    by (split; by_evaluation).
  exact (conj HL (conj Hst (conj Hm (conj Hprice (conj Hfin
    (predict_blend_rule reject_other downtown model_18 downtown_request
       downtown_located downtown_stats (qc 18 1) HL Hst Hm Hprice Hfin)))))).
Defined.

(** *** Patterns without special characters are substring tests *)

Lemma literal_not_dot (c : ascii) :
  Re.special c = false → Ascii.eqb c "." = false.
Proof.
  unfold Re.special. cbn [list_ascii_of_string existsb].
  intros H. by apply orb_false_iff in H as [? _].
Qed.

Lemma literal_parse (pat : string) :
  Re.literal pat = true →
  Re.parse pat = Some (Re.Lit <$> list_ascii_of_string pat).
Proof.
  unfold Re.literal. induction pat as [|c pat IH]; [done|].
  cbn [list_ascii_of_string forallb Re.parse].
  intros [Hc Hpat]%andb_true_iff. apply negb_true_iff in Hc.
  rewrite (literal_not_dot _ Hc), Hc, (IH Hpat). done.
Qed.

Lemma literal_match_here (pat s : string) :
  Re.match_here (Re.Lit <$> list_ascii_of_string pat) s = Text.prefix_ci pat s.
Proof.
  revert s. induction pat as [|c pat IH]; intros s; [by destruct s|].
  destruct s as [|d s]; [done|]. cbn. by rewrite IH.
Qed.

Lemma literal_search (pat s : string) :
  Re.search (Re.Lit <$> list_ascii_of_string pat) s = Text.contains_ci pat s.
Proof.
  induction s as [|d s IH]; cbn [Re.search Text.contains_ci];
    rewrite literal_match_here; [done|]. by rewrite IH.
Qed.

Lemma literal_str_contains re_other (pat : string) (vals : list (option string)) :
  Re.literal pat = true →
  str_contains re_other (ObjectSeries vals) pat
    = Some (substring_mask pat vals).
Proof.
  intros Hlit. unfold str_contains, re_compile.
  rewrite (literal_parse _ Hlit). cbn. f_equal.
  unfold substring_mask, mask_of. apply list_fmap_ext.
  intros _ [x|] _; [apply literal_search | done].
Qed.

(** *** Selecting rows *)

Lemma selects_nothing_forallb (mask : list bool) :
  forallb negb mask = true → selects_nothing mask.
Proof.
  intros H b Hb. rewrite forallb_forall in H.
  apply list_elem_of_In, H in Hb. by destruct b.
Qed.

Lemma select_nothing {A} (mask : list bool) (l : list A) :
  selects_nothing mask → select mask l = [].
Proof.
  revert l. induction mask as [|b mask IH]; intros l H; [done|].
  destruct l as [|x l]; [done|]. cbn.
  rewrite (H b) by left. apply IH. intros b' Hb'. apply H. by right.
Qed.

Lemma df_select_nothing (mask : list bool) (df : DataFrame) :
  selects_nothing mask → df_empty (df_select mask df) = true.
Proof.
  intros H. unfold df_empty, df_select. cbn. by rewrite (select_nothing _ _ H).
Qed.

Lemma column_df_select (mask : list bool) (df : DataFrame) (col : string) :
  column (df_select mask df) col = series_select mask <$> column df col.
Proof.
  unfold column, df_select. cbn. induction (data df) as [|[c s] d IH]; [done|].
  cbn. destruct (String.eqb c col); [done | apply IH].
Qed.

Lemma columns_df_select (mask : list bool) (df : DataFrame) :
  columns (df_select mask df) = columns df.
Proof.
  unfold columns, df_select. cbn. rewrite map_map. done.
Qed.

Lemma has_column_column (df : DataFrame) (col : string) :
  has_column df col = true → is_Some (column df col).
Proof.
  unfold has_column, column, columns. induction (data df) as [|[c s] d IH]; [done|].
  cbn. rewrite String.eqb_sym. destruct (String.eqb c col); [by eexists | apply IH].
Qed.

Lemma find_column_column (aliases : list string) (df : DataFrame) (col : string) :
  find_column aliases df = Some col → is_Some (column df col).
Proof.
  intros H. apply find_some in H as [_ H]. by apply has_column_column.
Qed.

(** *** No row for the location *)

(** What a successful [locate] has established. *)
Lemma locate_Ok_inv re_other (df : DataFrame) (req : Request) (L : Located) :
  locate re_other df req = Ok L →
  ∃ places mask,
    location req = Some (the_location L) ∧
    cuisine req = Some (the_cuisine L) ∧
    Text.truthy (the_location L) = true ∧
    Text.truthy (the_cuisine L) = true ∧
    df_empty df = false ∧
    find_column location_columns df = Some (location_col L) ∧
    find_column cuisine_columns df = Some (cuisine_col L) ∧
    find_column price_columns df = Some (price_col L) ∧
    rating_col L = find_column rating_columns df ∧
    name_col L = find_column name_columns df ∧
    column df (location_col L) = Some places ∧
    str_contains re_other places (the_location L) = Some mask ∧
    df_location L = df_select mask df ∧
    df_empty (df_select mask df) = false.
Proof.
  unfold locate. intros H.
  destruct (location req) as [loc|]; [|done].
  destruct (cuisine req) as [cui|]; [|done].
  destruct (Text.truthy loc) eqn:Hloc; [|done].
  destruct (Text.truthy cui) eqn:Hcui; [|done].
  cbn [negb orb] in H. destruct (df_empty df) eqn:Hdf; [done|].
  destruct (find_column location_columns df) as [lc|] eqn:Hlc; [|done].
  destruct (find_column cuisine_columns df) as [cc|] eqn:Hcc; [|done].
  destruct (find_column price_columns df) as [pc|] eqn:Hpc; [|done].
  destruct (column df lc) as [places|] eqn:Hplaces; [|done].
  cbn [attempt mbind Outcome_bind] in H.
  destruct (str_contains re_other places loc) as [mask|] eqn:Hmask; [|done].
  cbn [attempt mbind Outcome_bind] in H.
  destruct (df_empty (df_select mask df)) eqn:Hsel; [done|].
  injection H as <-. exists places, mask. cbn. done.
Qed.

(** The first half of [locate], on a valid request over a frame with the
    required columns. *)
Lemma locate_resolved re_other (df : DataFrame) (req : Request)
    (loc cui lc cc pc : string) (places : Series) :
  location req = Some loc → cuisine req = Some cui →
  Text.truthy loc = true → Text.truthy cui = true →
  df_empty df = false →
  find_column location_columns df = Some lc →
  find_column cuisine_columns df = Some cc →
  find_column price_columns df = Some pc →
  column df lc = Some places →
  locate re_other df req =
    match str_contains re_other places loc with
    | Some mask =>
        if df_empty (df_select mask df) then Err (NotFound loc)
        else Ok {| the_location := loc;
                   the_cuisine := cui;
                   location_col := lc;
                   cuisine_col := cc;
                   price_col := pc;
                   rating_col := find_column rating_columns df;
                   name_col := find_column name_columns df;
                   df_location := df_select mask df |}
    | None => Err ComputationError
    end.
Proof.
  intros Hloc Hcui Htl Htc Hdf Hlc Hcc Hpc Hplaces. unfold locate.
  rewrite Hloc, Hcui, Htl, Htc, Hdf, Hlc, Hcc, Hpc, Hplaces. cbn.
  by destruct (str_contains re_other places loc).
Qed.

(** C3, amended. On a valid request over a non-empty frame with the
    required columns, when the location filter of line 132 (a
    case-insensitive regular-expression search, which is the substring
    test for a location without special characters) selects no row,
    [predict] answers with the 404 error alone and the model is never
    called. *)
Theorem predict_not_found
    (re_other : string -> option (string -> bool))
    (df : DataFrame) (model_data : option Model) (req : Request)
    (loc cui lc cc pc : string) (vals : list (option string)) :
  location req = Some loc → cuisine req = Some cui →
  Text.truthy loc = true → Text.truthy cui = true →
  df_empty df = false →
  find_column location_columns df = Some lc →
  find_column cuisine_columns df = Some cc →
  find_column price_columns df = Some pc →
  column df lc = Some (ObjectSeries vals) →
  (∀ mask,
     str_contains re_other (ObjectSeries vals) loc = Some mask →
     selects_nothing mask →
     predict re_other df model_data req = ([], Err (NotFound loc))) ∧
  (Re.literal loc = true →
     selects_nothing (substring_mask loc vals) →
     predict re_other df model_data req = ([], Err (NotFound loc))).
Proof.
  intros Hloc Hcui Htl Htc Hdf Hlc Hcc Hpc Hplaces.
  assert (Hgen : ∀ mask,
     str_contains re_other (ObjectSeries vals) loc = Some mask →
     selects_nothing mask →
     predict re_other df model_data req = ([], Err (NotFound loc))).
  { intros mask Hmask Hnone. unfold predict.
    rewrite (locate_resolved re_other df req loc cui lc cc pc
               (ObjectSeries vals)) by done.
    by rewrite Hmask, (df_select_nothing _ _ Hnone). }
  split; [exact Hgen|].
  intros Hlit Hnone. apply (Hgen _ (literal_str_contains _ _ _ Hlit) Hnone).
Qed.

Lemma predict_not_found_witness :
  location uptown_request = Some "Uptown" ∧
  cuisine uptown_request = Some "Italian" ∧
  Text.truthy "Uptown" = true ∧ Text.truthy "Italian" = true ∧
  df_empty downtown = false ∧
  find_column location_columns downtown = Some "Location" ∧
  find_column cuisine_columns downtown = Some "Cuisines" ∧
  find_column price_columns downtown = Some "Price_for_one" ∧
  column downtown "Location"
    = Some (ObjectSeries [Some "Downtown"; Some "Downtown"; Some "Downtown"]) ∧
  selects_nothing
    (substring_mask "Uptown" [Some "Downtown"; Some "Downtown"; Some "Downtown"]) ∧
  predict reject_other downtown (Some model_18) uptown_request
    = ([], Err (NotFound "Uptown")).
Proof.
  assert (Hnone : selects_nothing
    (substring_mask "Uptown" [Some "Downtown"; Some "Downtown"; Some "Downtown"]))
    by (apply selects_nothing_forallb; reflexivity).
  repeat (split; [reflexivity|]). split; [exact Hnone|].
  exact (proj2 (predict_not_found reject_other downtown (Some model_18)
    uptown_request "Uptown" "Italian" "Location" "Cuisines" "Price_for_one"
    [Some "Downtown"; Some "Downtown"; Some "Downtown"]
    eq_refl eq_refl eq_refl eq_refl eq_refl eq_refl eq_refl eq_refl eq_refl)
    eq_refl Hnone).
Defined.

(** C3 as stated fails: no location of the example contains a dot, so the
    substring filter selects nothing, yet the request for location [.] is
    answered with statistics, because the dot is read as a pattern that
    every location matches. *)
Lemma dot_location_is_found :
  df_empty downtown = false ∧
  selects_nothing
    (substring_mask "." [Some "Downtown"; Some "Downtown"; Some "Downtown"]) ∧
  ∀ re_other,
    predict re_other downtown None dot_location_request
      = ([], Ok (response downtown_stats (Some (qc 0 1)))).
Proof.
  split; [reflexivity|]. split.
  - apply selects_nothing_forallb. reflexivity.
  - intros re_other. by_evaluation.
Qed.

(** *** The model is missing or raises *)

(** C2, amended. Once the statistics are computed, a missing or raising
    model never turns into an error.  Without a model the suggested price
    is the request's price and no call is made; when the call raises, the
    suggested price is the average price of the location if that is a
    number other than zero, and the request's price if it is zero. *)
Theorem predict_fallback
    (re_other : string -> option (string -> bool))
    (df : DataFrame) (model_data : option Model) (req : Request)
    (L : Located) (st : Stats) :
  locate re_other df req = Ok L →
  statistics re_other L = Ok st →
  (model_data = None ∨
   ∃ model, model_data = Some model ∧ model (input_df_of L) = None) →
  ∃ calls suggested,
    predict re_other df model_data req
      = (calls, Ok (response st suggested)) ∧
    (model_data = None → calls = [] ∧ suggested = Some (price_of req)) ∧
    (model_data ≠ None →
       calls = [input_df_of L] ∧
       ∀ avg : Qc, st_average_price st = Some avg →
         (avg ≠ qc 0 1 → suggested = Some avg) ∧
         (avg = qc 0 1 → suggested = Some (price_of req))).
Proof.
  intros HL Hst [-> | (model & -> & Hm)]; unfold predict, suggest;
    rewrite HL, Hst.
  - eexists _, _. split; [done|]. split; [done|]. by intros [].
  - rewrite Hm. eexists _, _. split; [done|]. split; [done|].
    intros _. split; [done|]. intros avg ->. cbn.
    case_bool_decide; split; intros; cbn; congruence.
Qed.

Lemma predict_fallback_witness :
  locate reject_other downtown downtown_request = Ok downtown_located ∧
  statistics reject_other downtown_located = Ok downtown_stats ∧
  model_raising (input_df_of downtown_located) = None ∧
  ∃ calls suggested,
    predict reject_other downtown (Some model_raising) downtown_request
      = (calls, Ok (response downtown_stats suggested)) ∧
    (Some model_raising = None →
       calls = [] ∧ suggested = Some (price_of downtown_request)) ∧
    (Some model_raising ≠ None →
       calls = [input_df_of downtown_located] ∧
       ∀ avg : Qc, st_average_price downtown_stats = Some avg →
         (avg ≠ qc 0 1 → suggested = Some avg) ∧
         (avg = qc 0 1 → suggested = Some (price_of downtown_request))).
Proof.
  assert (HL : locate reject_other downtown downtown_request
               = Ok downtown_located) by by_evaluation.
  assert (Hst : statistics reject_other downtown_located = Ok downtown_stats)
    by by_evaluation.
  assert (Hm : model_raising (input_df_of downtown_located) = None)
    by reflexivity.
  exact (conj HL (conj Hst (conj Hm
    (predict_fallback reject_other downtown (Some model_raising)
       downtown_request downtown_located downtown_stats HL Hst
       (or_intror (ex_intro _ model_raising (conj eq_refl Hm))))))).
Defined.

(** C2 as stated fails: without a model the example request is answered
    with its own price, 15, although the average price of the location is
    computable and not zero (it is 20). *)
Lemma unloaded_model_keeps_price :
  ∃ r, (∀ re_other,
          predict re_other downtown None downtown_request = ([], Ok r)) ∧
       average_price r = Some (qc 20 1) ∧
       suggested_price r = Some (qc 15 1) ∧
       qc 15 1 ≠ qc 20 1.
Proof.
  exists (response downtown_stats (Some (qc 15 1))).
  split; [intros re_other; by_evaluation|].
  split; [by_evaluation|]. split; [by_evaluation|].
  intros H. by apply (f_equal this) in H.
Qed.

(** *** The average price *)

(** C4, the failing input. The only row of the location has no price:
    the mean is NaN, NaN counts as true, and the response carries NaN as
    its average price instead of 0. *)
Theorem average_price_of_no_price_is_nan
    (re_other : string -> option (string -> bool)) :
  predict re_other unpriced None downtown_request
    = ([], Ok {| average_price := NaN;
                 popular_cuisine := Str "Thai";
                 Popular_Restaurant := Str "Not Available";
                 Popular_Restaurant_serving_cuisine := Str "Not Found";
                 suggested_price := Some (qc 15 1) |}).
Proof. by_evaluation. Qed.

(** The same truth test sits in the fallback of line 174: when the model
    raises on that request, the suggested price is NaN as well. *)
Lemma raising_model_without_price_suggests_nan
    (re_other : string -> option (string -> bool)) :
  ∃ calls r,
    predict re_other unpriced (Some model_raising) downtown_request
      = (calls, Ok r) ∧
    suggested_price r = NaN.
Proof.
  eexists _, _. split; [vm_compute; reflexivity | reflexivity].
Qed.

(** *** The row of the highest rating *)

Lemma idxmax_from_spec (l : list (option Qc)) :
  ∀ (i0 : nat) (best : option (nat * Qc)),
  match idxmax_from i0 best l with
  | None => best = None ∧ ∀ (k : nat) (w : Qc), l !! k ≠ Some (Some w)
  | Some (ri, rv) =>
      (best = Some (ri, rv) ∧
       ∀ (k : nat) (w : Qc), l !! k = Some (Some w) → (w ≤ rv)%Qc) ∨
      (∃ k : nat,
         ri = (i0 + k)%nat ∧ l !! k = Some (Some rv) ∧
         (∀ bi bv, best = Some (bi, bv) → (bv < rv)%Qc) ∧
         ∀ (j : nat) (w : Qc), l !! j = Some (Some w) →
           (w ≤ rv)%Qc ∧ ((j < k)%nat → (w < rv)%Qc))
  end.
Proof.
  induction l as [|[v|] l IH]; intros i0 best.
  - cbn. destruct best as [[bi bv]|]; [|done]. left. split; [done|].
    intros k w Hk. by destruct k.
  - cbn [idxmax_from].
    assert (Hnew :
      (∀ bi bv, best = Some (bi, bv) → (bv < v)%Qc) →
      match idxmax_from (S i0) (Some (i0, v)) l with
      | None => best = None ∧ ∀ (k : nat) (w : Qc), (Some v :: l) !! k ≠ Some (Some w)
      | Some (ri, rv) =>
          (best = Some (ri, rv) ∧
           ∀ (k : nat) (w : Qc), (Some v :: l) !! k = Some (Some w) → (w ≤ rv)%Qc) ∨
          (∃ k : nat,
             ri = (i0 + k)%nat ∧ (Some v :: l) !! k = Some (Some rv) ∧
             (∀ bi bv, best = Some (bi, bv) → (bv < rv)%Qc) ∧
             ∀ (j : nat) (w : Qc), (Some v :: l) !! j = Some (Some w) →
               (w ≤ rv)%Qc ∧ ((j < k)%nat → (w < rv)%Qc))
      end).
    { intros Hbest. specialize (IH (S i0) (Some (i0, v))).
      destruct (idxmax_from (S i0) (Some (i0, v)) l) as [[ri rv]|];
        [|by destruct IH].
      right. destruct IH as [[[= <- <-] Hall] | (k & -> & Hk & Hlt & Hall)].
      - exists 0%nat. split; [lia|]. split; [done|]. split; [done|].
        intros [|j] w Hj; cbn in Hj.
        + injection Hj as <-. split; [apply Qcle_refl | lia].
        + split; [by eapply Hall | lia].
      - exists (S k). split; [lia|]. split; [done|]. split.
        + intros bi bv Hb. eapply Qclt_trans; [by eapply Hbest | by eapply Hlt].
        + intros [|j] w Hj; cbn in Hj.
          * injection Hj as <-. split; [apply Qclt_le_weak|intros _]; by eapply Hlt.
          * destruct (Hall j w Hj) as [Hle Hjk]. split; [done|].
            intros ?. apply Hjk. lia. }
    destruct best as [[bi bv]|]; [|by apply Hnew].
    case_bool_decide as Hlt; [apply Hnew; by intros ?? [= <- <-]|].
    apply Qcle_ngt in Hlt.
    specialize (IH (S i0) (Some (bi, bv))).
    destruct (idxmax_from (S i0) (Some (bi, bv)) l) as [[ri rv]|];
      [|by destruct IH].
    destruct IH as [[[= <- <-] Hall] | (k & -> & Hk & Hb & Hall)].
    + left. split; [done|]. intros [|j] w Hj; cbn in Hj.
      * by injection Hj as <-.
      * by eapply Hall.
    + right. exists (S k). split; [lia|]. split; [done|]. split; [done|].
      assert (v < rv)%Qc as Hv
        by (eapply Qcle_lt_trans; [exact Hlt | by eapply Hb]).
      intros [|j] w Hj; cbn in Hj.
      * injection Hj as <-. split; [by apply Qclt_le_weak | done].
      * destruct (Hall j w Hj) as [Hle Hjk]. split; [done|].
        intros ?. apply Hjk. lia.
  - cbn [idxmax_from]. specialize (IH (S i0) best).
    destruct (idxmax_from (S i0) best l) as [[ri rv]|].
    + destruct IH as [[-> Hall] | (k & -> & Hk & Hb & Hall)].
      * left. split; [done|]. intros [|j] w Hj; cbn in Hj; [done|].
        by eapply Hall.
      * right. exists (S k). split; [lia|]. split; [done|]. split; [done|].
        intros [|j] w Hj; cbn in Hj; [done|].
        destruct (Hall j w Hj) as [Hle Hjk]. split; [done|].
        intros ?. apply Hjk. lia.
    + destruct IH as [-> Hall]. split; [done|].
      intros [|j] w Hj; cbn in Hj; [done|]. by eapply Hall.
Qed.

Lemma idxmax_first_max (l : list (option Qc)) (i : nat) :
  idxmax l = Some i → first_max l i.
Proof.
  unfold idxmax. intros H. pose proof (idxmax_from_spec l 0 None) as Hspec.
  destruct (idxmax_from 0 None l) as [[ri rv]|]; [|done].
  injection H as ->.
  destruct Hspec as [[? _] | (k & -> & Hk & _ & Hall)]; [done|].
  exists rv. split; [done|]. exact Hall.
Qed.

Lemma idxmax_is_Some (l : list (option Qc)) :
  isna_all (FloatSeries l) = false → is_Some (idxmax l).
Proof.
  unfold idxmax. intros H. pose proof (idxmax_from_spec l 0 None) as Hspec.
  destruct (idxmax_from 0 None l) as [[ri rv]|]; [by eexists|].
  destruct Hspec as [_ Hall]. exfalso.
  cbn in H. apply not_true_iff_false in H. apply H.
  apply forallb_forall. intros [w|] Hin; [|done].
  apply list_elem_of_In, list_elem_of_lookup in Hin as [k Hk].
  by destruct (Hall k w).
Qed.

Lemma best_rated_inv (frame : DataFrame) (rating name : string)
    (otherwise c : Cell) :
  best_rated frame rating name otherwise = Ok c →
  ∃ ratings,
    column frame rating = Some ratings ∧
    ((isna_all ratings = true ∧ c = otherwise) ∨
     (isna_all ratings = false ∧
      ∃ vals names i,
        ratings = FloatSeries vals ∧ column frame name = Some names ∧
        first_max vals i ∧ c = cell_at names i)).
Proof.
  unfold best_rated. intros H.
  destruct (column frame rating) as [ratings|]; [|done].
  cbn [attempt mbind Outcome_bind] in H. exists ratings. split; [done|].
  destruct (isna_all ratings) eqn:Hna; cbn [negb] in H.
  - left. by injection H as <-.
  - right. split; [done|]. destruct ratings as [texts|vals]; [done|].
    cbn [series_idxmax] in H.
    destruct (idxmax vals) as [i|] eqn:Hi; [|done].
    cbn [attempt mbind Outcome_bind] in H.
    destruct (column frame name) as [names|]; [|done].
    cbn [attempt mbind Outcome_bind] in H. injection H as <-.
    exists vals, names, i. by split; [|split; [|split; [apply idxmax_first_max|]]].
Qed.

(** What a successful [statistics] has computed. *)
Lemma statistics_Ok_inv re_other (L : Located) (st : Stats) :
  statistics re_other L = Ok st →
  ∃ kinds prices cuisine_filter,
    column (df_location L) (cuisine_col L) = Some kinds ∧
    st_popular_cuisine st = default (Str "Not Available") (mode_first kinds) ∧
    column (df_location L) (price_col L) = Some prices ∧
    series_mean prices = Some (st_average_price st) ∧
    match rating_col L, name_col L with
    | Some rating, Some name =>
        best_rated (df_location L) rating name (Str "Not Available")
    | _, _ => Ok (Str "Not Available")
    end = Ok (st_most_popular_restaurant_name st) ∧
    str_contains re_other kinds (the_cuisine L) = Some cuisine_filter ∧
    match rating_col L, name_col L with
    | Some rating, Some name =>
        if negb (df_empty (df_select cuisine_filter (df_location L))) then
          best_rated (df_select cuisine_filter (df_location L)) rating name
                     (Str "Not Found")
        else Ok (Str "Not Found")
    | _, _ => Ok (Str "Not Found")
    end = Ok (st_most_popular_cuisine_restaurant_name st).
Proof.
  unfold statistics. intros H.
  destruct (column (df_location L) (cuisine_col L)) as [kinds|]; [|done].
  cbn [attempt mbind Outcome_bind] in H.
  destruct (column (df_location L) (price_col L)) as [prices|]; [|done].
  cbn [attempt mbind Outcome_bind] in H.
  destruct (series_mean prices) as [avg|] eqn:Havg; [|done].
  cbn [attempt mbind Outcome_bind] in H.
  destruct (match rating_col L, name_col L with
            | Some rating, Some name =>
                best_rated (df_location L) rating name (Str "Not Available")
            | _, _ => Ok (Str "Not Available")
            end) as [overall|] eqn:Hoverall; [|done].
  cbn [mbind Outcome_bind] in H.
  destruct (str_contains re_other kinds (the_cuisine L))
    as [cuisine_filter|] eqn:Hfilter; [|done].
  cbn [attempt mbind Outcome_bind] in H.
  destruct (match rating_col L, name_col L with
            | Some rating, Some name =>
                if negb (df_empty (df_select cuisine_filter (df_location L)))
                then best_rated (df_select cuisine_filter (df_location L))
                                rating name (Str "Not Found")
                else Ok (Str "Not Found")
            | _, _ => Ok (Str "Not Found")
            end) as [serving|] eqn:Hserving; [|done].
  cbn [mbind Outcome_bind] in H. injection H as <-.
  exists kinds, prices, cuisine_filter. cbn. done.
Qed.

(** A successful [predict] went through both stages. *)
Lemma predict_Ok_inv re_other (df : DataFrame) (model_data : option Model)
    (req : Request) (calls : list ModelInput) (r : Response) :
  predict re_other df model_data req = (calls, Ok r) →
  ∃ L st suggested,
    locate re_other df req = Ok L ∧
    statistics re_other L = Ok st ∧
    r = response st suggested.
Proof.
  unfold predict. intros H.
  destruct (locate re_other df req) as [L|]; [|done].
  destruct (statistics re_other L) as [st|] eqn:Hst; [|done].
  destruct (suggest _ _ _ _) as [calls' suggested].
  injection H as _ <-. by exists L, st, suggested.
Qed.

(** On a successful call the cuisine column of the selected rows holds
    text: its [.str] accessor was used. *)
Lemma statistics_kinds_text re_other (L : Located) (st : Stats) :
  statistics re_other L = Ok st →
  ∃ texts cuisine_filter,
    column (df_location L) (cuisine_col L) = Some (ObjectSeries texts) ∧
    str_contains re_other (ObjectSeries texts) (the_cuisine L)
      = Some cuisine_filter.
Proof.
  intros (kinds & prices & cuisine_filter & Hkinds & _ & _ & _ & _ & Hf & _)
    %statistics_Ok_inv.
  destruct kinds as [texts|vals]; [|done]. by exists texts, cuisine_filter.
Qed.

(** C6, amended. On a successful call, let the sub-subset be the rows of
    the location that the cuisine filter of line 150 selects (a
    case-insensitive regular-expression search; the substring test when
    the cuisine has no special characters).  The restaurant reported for
    the cuisine is "Not Found" when the sub-subset is empty, or the rating
    or name column is unavailable, or every rating of the sub-subset is
    missing; in the remaining case it is the name in the row of the
    highest rating of the sub-subset, the first such row on ties. *)
Theorem serving_cuisine_restaurant
    (re_other : string -> option (string -> bool))
    (df : DataFrame) (model_data : option Model) (req : Request)
    (calls : list ModelInput) (r : Response) :
  predict re_other df model_data req = (calls, Ok r) →
  ∃ L texts cuisine_filter,
    locate re_other df req = Ok L ∧
    column (df_location L) (cuisine_col L) = Some (ObjectSeries texts) ∧
    str_contains re_other (ObjectSeries texts) (the_cuisine L)
      = Some cuisine_filter ∧
    (Re.literal (the_cuisine L) = true →
       cuisine_filter = substring_mask (the_cuisine L) texts) ∧
    let sub := df_select cuisine_filter (df_location L) in
    let result := Popular_Restaurant_serving_cuisine r in
    ((df_empty sub = true ∨ rating_col L = None ∨ name_col L = None ∨
      (∃ rating ratings,
         rating_col L = Some rating ∧ column sub rating = Some ratings ∧
         isna_all ratings = true)) →
       result = Str "Not Found") ∧
    (∀ rating name ratings,
       df_empty sub = false →
       rating_col L = Some rating → name_col L = Some name →
       column sub rating = Some ratings → isna_all ratings = false →
       ∃ vals names i,
         ratings = FloatSeries vals ∧ column sub name = Some names ∧
         first_max vals i ∧ result = cell_at names i).
Proof.
  intros (L & st & suggested & HL & Hst & ->)%predict_Ok_inv.
  destruct (statistics_kinds_text _ _ _ Hst) as (texts & cf & Hkinds & Hcf).
  apply statistics_Ok_inv in Hst
    as (kinds & prices & cf' & Hkinds' & _ & _ & _ & _ & Hcf' & Hserving).
  rewrite Hkinds in Hkinds'. injection Hkinds' as <-.
  rewrite Hcf in Hcf'. injection Hcf' as <-.
  exists L, texts, cf. split; [done|]. split; [done|]. split; [done|]. split.
  { intros Hlit. rewrite (literal_str_contains _ _ _ Hlit) in Hcf. congruence. }
  cbn zeta. cbn [response Popular_Restaurant_serving_cuisine].
  set (sub := df_select cf (df_location L)) in *.
  set (result := st_most_popular_cuisine_restaurant_name st) in *.
  destruct (rating_col L) as [rating|]; [|split; [by injection Hserving|done]].
  destruct (name_col L) as [name|]; [|split; [by injection Hserving|done]].
  destruct (df_empty sub) eqn:Hsub; cbn [negb] in Hserving;
    [split; [by injection Hserving|done]|].
  apply best_rated_inv in Hserving as (ratings & Hratings & Hcases).
  split.
  - intros [? | [? | [? | (rating' & ratings' & [= <-] & Hr' & Hna)]]];
      [done..|].
    rewrite Hratings in Hr'. injection Hr' as <-.
    destruct Hcases as [[_ ?] | [? _]]; [done | congruence].
  - intros rating' name' ratings' _ [= <-] [= <-] Hr' Hna.
    rewrite Hratings in Hr'. injection Hr' as <-.
    destruct Hcases as [[? _] | [_ ?]]; [congruence | done].
Qed.

Lemma serving_cuisine_restaurant_witness :
  predict reject_other downtown None downtown_request
    = ([], Ok (response downtown_stats (Some (qc 15 1)))) ∧
  ∃ L texts cuisine_filter,
    locate reject_other downtown downtown_request = Ok L ∧
    column (df_location L) (cuisine_col L) = Some (ObjectSeries texts) ∧
    str_contains reject_other (ObjectSeries texts) (the_cuisine L)
      = Some cuisine_filter ∧
    (Re.literal (the_cuisine L) = true →
       cuisine_filter = substring_mask (the_cuisine L) texts) ∧
    let sub := df_select cuisine_filter (df_location L) in
    let result :=
      Popular_Restaurant_serving_cuisine
        (response downtown_stats (Some (qc 15 1))) in
    ((df_empty sub = true ∨ rating_col L = None ∨ name_col L = None ∨
      (∃ rating ratings,
         rating_col L = Some rating ∧ column sub rating = Some ratings ∧
         isna_all ratings = true)) →
       result = Str "Not Found") ∧
    (∀ rating name ratings,
       df_empty sub = false →
       rating_col L = Some rating → name_col L = Some name →
       column sub rating = Some ratings → isna_all ratings = false →
       ∃ vals names i,
         ratings = FloatSeries vals ∧ column sub name = Some names ∧
         first_max vals i ∧ result = cell_at names i).
Proof.
  assert (H : predict reject_other downtown None downtown_request
              = ([], Ok (response downtown_stats (Some (qc 15 1)))))
    by by_evaluation.
  exact (conj H (serving_cuisine_restaurant reject_other downtown None
                   downtown_request [] _ H)).
Defined.

(** C6 as stated fails: no cuisine value of the example contains a dot,
    so the substring sub-subset is empty, yet the request for cuisine [.]
    is answered with restaurant B, not with "Not Found". *)
Lemma dot_cuisine_is_served :
  selects_nothing
    (substring_mask "." [Some "Italian"; Some "Italian,Mexican"; Some "Thai"]) ∧
  ∃ r, (∀ re_other,
          predict re_other downtown None dot_cuisine_request = ([], Ok r)) ∧
       Popular_Restaurant_serving_cuisine r = Str "B".
Proof.
  split; [apply selects_nothing_forallb; reflexivity|].
  exists (response downtown_stats (Some (qc 0 1))).
  split; [intros re_other|]; by_evaluation.
Qed.

(** *** The most frequent cuisine *)

Section ModeFacts.
Context {A : Type} `{EqDecision A} (R : relation A)
        `{!RelDecision R, !Transitive R, !Total R}.

Lemma mode_nil : mode R [] = [].
Proof. reflexivity. Qed.

(** The first mode is a value of the highest frequency, and comes first in
    the order among the values of that frequency. *)
Lemma mode_head (l : list A) :
  l ≠ [] →
  ∃ m, head (mode R l) = Some m ∧ m ∈ l ∧
       (∀ v, v ∈ l → occurrences v l ≤ occurrences m l)%nat ∧
       (∀ v, v ∈ l → occurrences v l = occurrences m l → R m v).
Proof.
  intros Hl. unfold mode.
  set (top := max_list ((λ x, occurrences x l) <$> l)).
  set (cands := remove_dups (filter (λ x, occurrences x l = top) l)).
  assert (Hcand : ∀ x, x ∈ cands ↔ x ∈ l ∧ occurrences x l = top).
  { intros x. unfold cands. rewrite elem_of_remove_dups, list_elem_of_filter.
    tauto. }
  assert (Htop : ∀ v, v ∈ l → (occurrences v l ≤ top)%nat).
  { intros v Hv. apply max_list_elem_of_le, list_elem_of_fmap. by exists v. }
  assert (Hsome : ∃ x, x ∈ cands).
  { assert (top ∈ (λ x, occurrences x l) <$> l) as Hin.
    { apply max_list_elem_of. by destruct l. }
    apply list_elem_of_fmap in Hin as (x & Hx & Hxl). exists x.
    by apply Hcand. }
  pose proof (merge_sort_Permutation R cands) as Hperm.
  pose proof (StronglySorted_merge_sort R cands) as Hsorted.
  destruct (merge_sort R cands) as [|m rest].
  { destruct Hsome as [x Hx]. rewrite <-Hperm in Hx. by apply elem_of_nil in Hx. }
  assert (Hm : m ∈ cands) by (rewrite <-Hperm; left).
  apply Hcand in Hm as [Hml Hmtop].
  exists m. split; [done|]. split; [done|]. split.
  - intros v Hv. rewrite Hmtop. by apply Htop.
  - intros v Hv Heq. assert (v ∈ m :: rest) as Hin.
    { rewrite Hperm. apply Hcand. split; [done | congruence]. }
    apply StronglySorted_inv in Hsorted as [_ Hall].
    apply elem_of_cons in Hin as [-> | Hin].
    + by destruct (total R m m).
    + rewrite Forall_forall in Hall. by apply Hall.
Qed.
End ModeFacts.

(** C10. On a successful call the popular cuisine is the mode of the raw,
    un-split cuisine values of the rows of the location: a value no other
    value occurs more often than, and the least in the order of strings
    among the values occurring as often; without any value it is
    "Not Available". *)
Theorem popular_cuisine_is_raw_mode
    (re_other : string -> option (string -> bool))
    (df : DataFrame) (model_data : option Model) (req : Request)
    (calls : list ModelInput) (r : Response) :
  predict re_other df model_data req = (calls, Ok r) →
  ∃ L texts,
    locate re_other df req = Ok L ∧
    column (df_location L) (cuisine_col L) = Some (ObjectSeries texts) ∧
    let raw := dropna texts in
    (raw = [] → popular_cuisine r = Str "Not Available") ∧
    (raw ≠ [] →
       ∃ m, popular_cuisine r = Str m ∧ m ∈ raw ∧
            (∀ v, v ∈ raw → occurrences v raw ≤ occurrences m raw)%nat ∧
            (∀ v, v ∈ raw → occurrences v raw = occurrences m raw →
                  String.le m v)).
Proof.
  intros (L & st & suggested & HL & Hst & ->)%predict_Ok_inv.
  destruct (statistics_kinds_text _ _ _ Hst) as (texts & cf & Hkinds & _).
  apply statistics_Ok_inv in Hst as (kinds & _ & _ & Hkinds' & Hpop & _).
  rewrite Hkinds in Hkinds'. injection Hkinds' as <-.
  exists L, texts. split; [done|]. split; [done|].
  cbn zeta. cbn [response popular_cuisine]. rewrite Hpop. cbn [mode_first].
  split.
  - intros ->. by rewrite mode_nil.
  - intros Hraw.
    destruct (mode_head String.le _ Hraw) as (m & Hhead & Hm).
    exists m. by rewrite Hhead.
Qed.

Lemma popular_cuisine_is_raw_mode_witness :
  predict reject_other downtown None downtown_request
    = ([], Ok (response downtown_stats (Some (qc 15 1)))) ∧
  ∃ L texts,
    locate reject_other downtown downtown_request = Ok L ∧
    column (df_location L) (cuisine_col L) = Some (ObjectSeries texts) ∧
    let raw := dropna texts in
    (raw = [] →
       popular_cuisine (response downtown_stats (Some (qc 15 1)))
         = Str "Not Available") ∧
    (raw ≠ [] →
       ∃ m, popular_cuisine (response downtown_stats (Some (qc 15 1))) = Str m ∧
            m ∈ raw ∧
            (∀ v, v ∈ raw → occurrences v raw ≤ occurrences m raw)%nat ∧
            (∀ v, v ∈ raw → occurrences v raw = occurrences m raw →
                  String.le m v)).
Proof.
  assert (H : predict reject_other downtown None downtown_request
              = ([], Ok (response downtown_stats (Some (qc 15 1)))))
    by by_evaluation.
  exact (conj H (popular_cuisine_is_raw_mode reject_other downtown None
                   downtown_request [] _ H)).
Defined.

(** *** Required and optional columns *)

Lemma locate_schema_error re_other (df : DataFrame) (req : Request)
    (loc cui : string) :
  location req = Some loc → cuisine req = Some cui →
  Text.truthy loc = true → Text.truthy cui = true →
  df_empty df = false →
  find_column location_columns df = None ∨
  find_column cuisine_columns df = None ∨
  find_column price_columns df = None →
  locate re_other df req = Err SchemaError.
Proof.
  intros Hloc Hcui Htl Htc Hdf Hnone. unfold locate.
  rewrite Hloc, Hcui, Htl, Htc, Hdf. cbn [negb orb].
  destruct Hnone as [-> | [-> | ->]]; [done | |].
  - by destruct (find_column location_columns df).
  - by destruct (find_column location_columns df),
               (find_column cuisine_columns df).
Qed.

(** Without ratings or names the statistics still come out, the overall
    restaurant as "Not Available". *)
Lemma statistics_without_ratings re_other (L : Located)
    (texts : list (option string)) (prices : list (option Qc)) :
  rating_col L = None ∨ name_col L = None →
  column (df_location L) (cuisine_col L) = Some (ObjectSeries texts) →
  column (df_location L) (price_col L) = Some (FloatSeries prices) →
  is_Some (re_compile re_other (the_cuisine L)) →
  ∃ st, statistics re_other L = Ok st ∧
        st_most_popular_restaurant_name st = Str "Not Available".
Proof.
  intros Hopt Hkinds Hprices [f Hf]. unfold statistics.
  rewrite Hkinds, Hprices. cbn [attempt mbind Outcome_bind series_mean].
  unfold str_contains. rewrite Hf. cbn [attempt mbind option_bind Outcome_bind].
  destruct Hopt as [-> | Hname].
  - cbn [mbind Outcome_bind]. by eexists.
  - rewrite Hname. destruct (rating_col L); cbn [mbind Outcome_bind]; by eexists.
Qed.

(** C5. On a valid request over a non-empty frame: when the location, the
    cuisine or the price column is unavailable the call fails with the
    schema error; when those three are available and only the rating or
    the name column is unavailable, the call succeeds wherever it would
    with them (text location and cuisine columns, a numeric price column,
    patterns that compile, a row for the location), and reports the
    overall restaurant as "Not Available". *)
Theorem predict_schema
    (re_other : string -> option (string -> bool))
    (df : DataFrame) (model_data : option Model) (req : Request)
    (loc cui : string) :
  location req = Some loc → cuisine req = Some cui →
  Text.truthy loc = true → Text.truthy cui = true →
  df_empty df = false →
  (find_column location_columns df = None ∨
   find_column cuisine_columns df = None ∨
   find_column price_columns df = None →
   predict re_other df model_data req = ([], Err SchemaError)) ∧
  (∀ lc cc pc places kinds prices mask,
     find_column location_columns df = Some lc →
     find_column cuisine_columns df = Some cc →
     find_column price_columns df = Some pc →
     find_column rating_columns df = None ∨
     find_column name_columns df = None →
     column df lc = Some (ObjectSeries places) →
     column df cc = Some (ObjectSeries kinds) →
     column df pc = Some (FloatSeries prices) →
     str_contains re_other (ObjectSeries places) loc = Some mask →
     df_empty (df_select mask df) = false →
     is_Some (re_compile re_other cui) →
     ∃ calls r,
       predict re_other df model_data req = (calls, Ok r) ∧
       Popular_Restaurant r = Str "Not Available").
Proof.
  intros Hloc Hcui Htl Htc Hdf. split.
  - intros Hnone. unfold predict.
    by rewrite (locate_schema_error re_other df req loc cui).
  - intros lc cc pc places kinds prices mask Hlc Hcc Hpc Hopt
      Hplaces Hkinds Hprices Hmask Hrows Hcompile.
    unfold predict.
    rewrite (locate_resolved re_other df req loc cui lc cc pc
               (ObjectSeries places)) by done.
    rewrite Hmask, Hrows.
    match goal with |- context [statistics re_other ?L] => set (Loc := L) end.
    destruct (statistics_without_ratings re_other Loc
                (select mask kinds) (select mask prices)) as (st & -> & Hna).
    + done.
    + subst Loc. cbn [df_location cuisine_col].
      by rewrite column_df_select, Hkinds.
    + subst Loc. cbn [df_location price_col].
      by rewrite column_df_select, Hprices.
    + done.
    + destruct (suggest _ _ _ _) as [calls suggested].
      by exists calls, (response st suggested).
Qed.

Lemma predict_schema_witness :
  location downtown_request = Some "Downtown" ∧
  cuisine downtown_request = Some "Italian" ∧
  Text.truthy "Downtown" = true ∧ Text.truthy "Italian" = true ∧
  df_empty unrated = false ∧ df_empty padded = false ∧
  find_column price_columns padded = None ∧
  predict reject_other padded None downtown_request = ([], Err SchemaError) ∧
  find_column rating_columns unrated = None ∧
  ∃ calls r,
    predict reject_other unrated None downtown_request = (calls, Ok r) ∧
    Popular_Restaurant r = Str "Not Available".
Proof.
  do 7 (split; [reflexivity|]). split.
  - exact (proj1 (predict_schema reject_other padded None downtown_request
      "Downtown" "Italian" eq_refl eq_refl eq_refl eq_refl eq_refl)
      (or_intror (or_intror eq_refl))).
  - split; [reflexivity|].
    exact (proj2 (predict_schema reject_other unrated None downtown_request
      "Downtown" "Italian" eq_refl eq_refl eq_refl eq_refl eq_refl)
      "Location" "Cuisines" "Price_for_one"
      [Some "Downtown"; Some "Downtown"; Some "Downtown"]
      [Some "Italian"; Some "Italian,Mexican"; Some "Thai"]
      [Some (qc 10 1); Some (qc 20 1); Some (qc 30 1)]
      [true; true; true]
      eq_refl eq_refl eq_refl (or_introl eq_refl) eq_refl eq_refl eq_refl
      eq_refl eq_refl (ex_intro _ _ eq_refl)).
Defined.

(** *** The options *)

Lemma elem_of_dropna {A} (l : list (option A)) (x : A) :
  x ∈ dropna l ↔ Some x ∈ l.
Proof.
  unfold dropna. rewrite list_elem_of_omap. split.
  - by intros ([y|] & Hy & [= ->]).
  - intros H. by exists (Some x).
Qed.

Lemma elem_of_unique {A} `{EqDecision A} (l : list A) (x : A) :
  x ∈ unique l ↔ x ∈ l.
Proof.
  unfold unique. by rewrite elem_of_reverse, elem_of_remove_dups, elem_of_reverse.
Qed.

Lemma NoDup_unique {A} `{EqDecision A} (l : list A) : NoDup (unique l).
Proof. unfold unique. rewrite reverse_Permutation. apply NoDup_remove_dups. Qed.

Lemma elem_of_List_filter {A} (f : A → bool) (l : list A) (x : A) :
  x ∈ List.filter f l ↔ x ∈ l ∧ f x = true.
Proof. by rewrite !list_elem_of_In, filter_In. Qed.

Lemma NoDup_List_filter {A} (f : A → bool) (l : list A) :
  NoDup l → NoDup (List.filter f l).
Proof.
  induction 1 as [|x l Hx Hl IH]; cbn; [constructor|].
  destruct (f x); [|done]. constructor; [|done].
  rewrite elem_of_List_filter. tauto.
Qed.

Lemma truthy_nonempty (s : string) : Text.truthy s = true ↔ s ≠ "".
Proof. by destruct s. Qed.

(** Two strictly sorted lists with the same members are the same list. *)
Lemma sorted_same_members (l1 l2 : list string) :
  StronglySorted String.le l1 → NoDup l1 →
  StronglySorted String.le l2 → NoDup l2 →
  (∀ s, s ∈ l1 ↔ s ∈ l2) → l1 = l2.
Proof.
  intros Hs1 Hd1 Hs2 Hd2 Hmem.
  apply (StronglySorted_unique String.le); [done..|].
  by apply NoDup_Permutation.
Qed.

(** On a frame with data, [get_options] answers, and with what. *)
Lemma get_options_Ok float_str (df : DataFrame) :
  df_empty df = false →
  ∃ o, get_options float_str df = Ok o ∧
    (∀ col s, find_column location_columns df = Some col →
              column df col = Some s → locations o = locations_of float_str s) ∧
    (∀ col s, find_column cuisine_columns df = Some col →
              column df col = Some s → cuisines o = cuisines_of float_str s) ∧
    total_records o = nrows df.
Proof.
  intros Hdf. unfold get_options. rewrite Hdf.
  destruct (find_column location_columns df) as [lc|] eqn:Hlc;
    [destruct (find_column_column _ _ _ Hlc) as [ls Hls]; rewrite Hls|];
    (destruct (find_column cuisine_columns df) as [cc|] eqn:Hcc;
      [destruct (find_column_column _ _ _ Hcc) as [cs Hcs]; rewrite Hcs|]);
    cbn; eexists; (split; [reflexivity|]); cbn;
    repeat split; intros; congruence.
Qed.

(** C7, amended. On a frame with data whose location column holds text,
    the locations listed are the distinct non-missing values as stored
    (not trimmed), without those that are empty or blank, in ascending
    order of strings; they are the specification's list when no stored
    value has surrounding blanks. *)
Theorem locations_listed
    (float_str : Qc -> string) (df : DataFrame) (col : string)
    (vals : list (option string)) :
  df_empty df = false →
  find_column location_columns df = Some col →
  column df col = Some (ObjectSeries vals) →
  ∃ o found,
    get_options float_str df = Ok o ∧
    locations o = Str <$> found ∧
    StronglySorted String.le found ∧ NoDup found ∧
    (∀ s, s ∈ found ↔ Some s ∈ vals ∧ Text.strip s ≠ "") ∧
    ((∀ s, Some s ∈ vals → Text.strip s = s) → found = locations_spec vals).
Proof.
  intros Hdf Hcol Hvals.
  destruct (get_options_Ok float_str df Hdf) as (o & Ho & Hloc & _ & _).
  set (kept := List.filter (λ loc, Text.truthy (Text.strip loc))
                           (unique (dropna vals))).
  exists o, (merge_sort String.le kept).
  assert (Hmem : ∀ s, s ∈ merge_sort String.le kept
                      ↔ Some s ∈ vals ∧ Text.strip s ≠ "").
  { intros s. rewrite merge_sort_Permutation. unfold kept.
    by rewrite elem_of_List_filter, elem_of_unique, elem_of_dropna,
      truthy_nonempty. }
  assert (Hsorted : StronglySorted String.le (merge_sort String.le kept))
    by apply (StronglySorted_merge_sort _).
  assert (Hnodup : NoDup (merge_sort String.le kept)).
  { rewrite merge_sort_Permutation. apply NoDup_List_filter, NoDup_unique. }
  split; [done|]. split; [by rewrite (Hloc _ _ Hcol Hvals)|].
  split; [done|]. split; [done|]. split; [done|].
  intros Htrimmed. apply sorted_same_members; [done | done | | |].
  - apply (StronglySorted_merge_sort _).
  - unfold locations_spec. rewrite merge_sort_Permutation.
    apply NoDup_remove_dups.
  - intros s. rewrite Hmem. unfold locations_spec.
    rewrite merge_sort_Permutation, elem_of_remove_dups, elem_of_List_filter,
      list_elem_of_fmap, truthy_nonempty.
    split.
    + intros [Hs Hne]. split; [|by rewrite <-(Htrimmed s Hs)].
      exists s. by rewrite elem_of_dropna, (Htrimmed s Hs).
    + intros [(x & -> & Hx%elem_of_dropna) Hne].
      rewrite (Htrimmed x Hx) in *. by rewrite (Htrimmed x Hx).
Qed.

Lemma locations_listed_witness :
  df_empty padded = false ∧
  find_column location_columns padded = Some "Location" ∧
  column padded "Location"
    = Some (ObjectSeries [Some " Downtown"; Some "Downtown"; Some "  "]) ∧
  ∃ o found,
    get_options repr_zero padded = Ok o ∧
    locations o = Str <$> found ∧
    StronglySorted String.le found ∧ NoDup found ∧
    (∀ s, s ∈ found ↔
          Some s ∈ [Some " Downtown"; Some "Downtown"; Some "  "] ∧
          Text.strip s ≠ "") ∧
    ((∀ s, Some s ∈ [Some " Downtown"; Some "Downtown"; Some "  "] →
           Text.strip s = s) →
     found = locations_spec [Some " Downtown"; Some "Downtown"; Some "  "]).
Proof.
  exact (conj eq_refl (conj eq_refl (conj eq_refl
    (locations_listed repr_zero padded "Location"
       [Some " Downtown"; Some "Downtown"; Some "  "]
       eq_refl eq_refl eq_refl)))).
Defined.

(** C7 as stated fails: the value with a leading blank is listed as it is
    stored, next to its trimmed twin, where the specification's list has
    the one trimmed value. *)
Lemma padded_location_is_kept :
  ∃ o, get_options repr_zero padded = Ok o ∧
       locations o = [Str " Downtown"; Str "Downtown"] ∧
       locations_spec [Some " Downtown"; Some "Downtown"; Some "  "]
         = ["Downtown"].
Proof.
  eexists. split; [vm_compute; reflexivity|]. split; reflexivity.
Qed.

(** *** Reordering and repeating rows *)

Lemma elem_of_take_rows {A} (idxs : list nat) (l : list A) (x : A) :
  (∀ i, (i < length l)%nat → i ∈ idxs) →
  x ∈ take_rows idxs l ↔ x ∈ l.
Proof.
  intros Hcover. unfold take_rows. rewrite list_elem_of_omap. split.
  - intros (i & _ & Hi). by eapply list_elem_of_lookup_2.
  - intros (i & Hi)%list_elem_of_lookup. exists i. split; [|done].
    apply Hcover. by eapply lookup_lt_Some.
Qed.

Lemma length_take_rows {A} (idxs : list nat) (l : list A) :
  (∀ i, i ∈ idxs → (i < length l)%nat) →
  length (take_rows idxs l) = length idxs.
Proof.
  unfold take_rows. induction idxs as [|i idxs IH]; intros Hin; [done|].
  cbn. destruct (lookup_lt_is_Some_2 l i) as [x ->]; [apply Hin; left|].
  cbn. rewrite IH; [done|]. intros j Hj. apply Hin. by right.
Qed.

Lemma columns_df_take (idxs : list nat) (df : DataFrame) :
  columns (df_take idxs df) = columns df.
Proof. unfold columns, df_take. cbn. by rewrite map_map. Qed.

Lemma find_column_df_take (aliases : list string) (idxs : list nat)
    (df : DataFrame) :
  find_column aliases (df_take idxs df) = find_column aliases df.
Proof. unfold find_column, has_column. by rewrite columns_df_take. Qed.

Lemma column_df_take (idxs : list nat) (df : DataFrame) (col : string) :
  column (df_take idxs df) col = series_take idxs <$> column df col.
Proof.
  unfold column, df_take. cbn. induction (data df) as [|[c s] d IH]; [done|].
  cbn. destruct (String.eqb c col); [done | apply IH].
Qed.

Lemma df_take_not_empty (idxs : list nat) (df : DataFrame) :
  df_empty df = false →
  (∀ i, (i < nrows df)%nat → i ∈ idxs) →
  (∀ i, i ∈ idxs → (i < nrows df)%nat) →
  df_empty (df_take idxs df) = false.
Proof.
  unfold df_empty, df_take. cbn. intros Hdf Hcover Hrange.
  apply orb_false_iff in Hdf as [Hrows Hdata]. apply orb_false_iff. split.
  - rewrite length_take_rows by (by rewrite length_seq).
    apply Nat.eqb_neq in Hrows. apply Nat.eqb_neq.
    assert (0%nat ∈ idxs) as Hin by (apply Hcover; lia).
    destruct idxs; [by apply elem_of_nil in Hin | done].
  - by destruct (data df).
Qed.

Lemma well_formed_column (df : DataFrame) (col : string) (s : Series) :
  well_formed df = true → column df col = Some s →
  series_length s = nrows df.
Proof.
  unfold well_formed, column. intros Hwf Hcol.
  destruct (List.find _ (data df)) as [[c s']|] eqn:Hfind; [|done].
  injection Hcol as <-. apply find_some in Hfind as [Hin _].
  rewrite forallb_forall in Hwf. by apply Hwf, Nat.eqb_eq in Hin.
Qed.

Lemma all_cuisines_take float_str (idxs : list nat) (s : Series) :
  (∀ i, (i < series_length s)%nat → i ∈ idxs) →
  all_cuisines float_str (series_take idxs s) = all_cuisines float_str s.
Proof.
  intros Hcover. unfold all_cuisines. apply set_eq. intros token.
  rewrite !elem_of_list_to_set, !list_elem_of_bind.
  assert (∀ e, e ∈ entries_of float_str (series_take idxs s)
               ↔ e ∈ entries_of float_str s) as Hsame.
  { intros e. destruct s as [vals|vals]; cbn in *.
    - by rewrite !elem_of_dropna, elem_of_take_rows.
    - rewrite !list_elem_of_fmap. setoid_rewrite elem_of_dropna.
      by setoid_rewrite elem_of_take_rows. }
  by setoid_rewrite Hsame.
Qed.

(** Taking the rows in any order and any number of times each, every row
    at least once, leaves the listed cuisines unchanged. *)
Lemma cuisines_df_take float_str (df : DataFrame) (idxs : list nat)
    (o : Options) :
  well_formed df = true →
  df_empty df = false →
  get_options float_str df = Ok o →
  (∀ i, (i < nrows df)%nat → i ∈ idxs) →
  (∀ i, i ∈ idxs → (i < nrows df)%nat) →
  ∃ o',
    get_options float_str (df_take idxs df) = Ok o' ∧
    cuisines o' = cuisines o.
Proof.
  intros Hwf Hdf Ho Hcover Hrange.
  destruct (get_options_Ok float_str df Hdf) as (o1 & Ho1 & _ & Hc & _).
  rewrite Ho in Ho1. injection Ho1 as <-.
  destruct (get_options_Ok float_str (df_take idxs df)
              (df_take_not_empty _ _ Hdf Hcover Hrange))
    as (o' & Ho' & _ & Hc' & _).
  exists o'. split; [done|].
  rewrite find_column_df_take in Hc'.
  destruct (find_column cuisine_columns df) as [col|] eqn:Hcol.
  - destruct (find_column_column _ _ _ Hcol) as [s Hs].
    rewrite (Hc col s eq_refl Hs).
    rewrite (Hc' col (series_take idxs s) eq_refl)
      by (by rewrite column_df_take, Hs).
    unfold cuisines_of. rewrite all_cuisines_take; [done|].
    by rewrite (well_formed_column df col s).
  - revert Ho Ho'. unfold get_options.
    rewrite find_column_df_take, !find_column_df_take, Hcol, Hdf,
      (df_take_not_empty _ _ Hdf Hcover Hrange).
    destruct (find_column location_columns df) as [lc|];
      [rewrite column_df_take; destruct (column df lc)|]; cbn;
      try discriminate; by intros [= <-] [= <-].
Qed.

(** C8. On a well-formed frame with data, the cuisines listed (the sorted
    set of the trimmed, non-empty, comma-separated tokens) are the same
    for the frame with its rows permuted and for the frame with any of its
    rows repeated after the original ones. *)
Theorem cuisines_row_invariant
    (float_str : Qc -> string) (df : DataFrame) :
  well_formed df = true →
  df_empty df = false →
  ∃ o,
    get_options float_str df = Ok o ∧
    (∀ idxs, idxs ≡ₚ seq 0 (nrows df) →
       ∃ o', get_options float_str (df_take idxs df) = Ok o' ∧
             cuisines o' = cuisines o) ∧
    (∀ again, (∀ i, i ∈ again → (i < nrows df)%nat) →
       ∃ o', get_options float_str
               (df_take (seq 0 (nrows df) ++ again) df) = Ok o' ∧
             cuisines o' = cuisines o).
Proof.
  intros Hwf Hdf.
  destruct (get_options_Ok float_str df Hdf) as (o & Ho & _).
  exists o. split; [done|]. split.
  - intros idxs Hperm. apply cuisines_df_take; [done..| |].
    + intros i Hi. rewrite Hperm. apply elem_of_seq. lia.
    + intros i Hi. rewrite Hperm in Hi. apply elem_of_seq in Hi. lia.
  - intros again Hagain. apply cuisines_df_take; [done..| |].
    + intros i Hi. apply elem_of_app. left. apply elem_of_seq. lia.
    + intros i [Hi | Hi]%elem_of_app; [|by apply Hagain].
      apply elem_of_seq in Hi. lia.
Qed.

Lemma cuisines_row_invariant_witness :
  well_formed padded = true ∧
  df_empty padded = false ∧
  ∃ o,
    get_options repr_zero padded = Ok o ∧
    (∀ idxs, idxs ≡ₚ seq 0 (nrows padded) →
       ∃ o', get_options repr_zero (df_take idxs padded) = Ok o' ∧
             cuisines o' = cuisines o) ∧
    (∀ again, (∀ i, i ∈ again → (i < nrows padded)%nat) →
       ∃ o', get_options repr_zero
               (df_take (seq 0 (nrows padded) ++ again) padded) = Ok o' ∧
             cuisines o' = cuisines o).
Proof.
  exact (conj eq_refl (conj eq_refl
    (cuisines_row_invariant repr_zero padded eq_refl eq_refl))).
Defined.

(** *** The worked example *)

Lemma predict_of_stats re_other (df : DataFrame) (model_data : option Model)
    (req : Request) (L : Located) (st : Stats) :
  locate re_other df req = Ok L →
  statistics re_other L = Ok st →
  ∃ calls suggested,
    predict re_other df model_data req = (calls, Ok (response st suggested)).
Proof.
  intros HL Hst. unfold predict. rewrite HL, Hst.
  destruct (suggest _ _ _ _) as [calls suggested]. by exists calls, suggested.
Qed.

(** C9. For the three Downtown rows with prices 10, 20, 30, ratings 2, 5,
    3, names A, B, C and cuisine fields "Italian", "Italian,Mexican",
    "Thai", under any accepted naming of the columns and whatever the
    model, the request (Downtown, Italian, 15) is answered with average
    price 20, popular cuisine "Italian" and restaurant B both overall and
    for the cuisine. *)
Theorem downtown_example
    (re_other : string -> option (string -> bool))
    (model_data : option Model) (lc cc pc rc nc : string) :
  lc ∈ location_columns → cc ∈ cuisine_columns → pc ∈ price_columns →
  rc ∈ rating_columns → nc ∈ name_columns →
  ∃ calls r,
    predict re_other (restaurants lc cc pc rc nc) model_data downtown_request
      = (calls, Ok r) ∧
    average_price r = Some (qc 20 1) ∧
    popular_cuisine r = Str "Italian" ∧
    Popular_Restaurant r = Str "B" ∧
    Popular_Restaurant_serving_cuisine r = Str "B".
Proof.
  intros Hlc Hcc Hpc Hrc Hnc.
  assert (∃ L, locate re_other (restaurants lc cc pc rc nc) downtown_request
                 = Ok L ∧
               statistics re_other L = Ok downtown_stats) as (L & HL & Hst).
  { unfold location_columns, cuisine_columns, price_columns, rating_columns,
      name_columns in *.
    repeat match goal with
           | H : _ ∈ _ :: _ |- _ => apply elem_of_cons in H as [-> | H]
           | H : _ ∈ [] |- _ => by apply elem_of_nil in H
           end;
      (eexists; split; [vm_compute; reflexivity | by_evaluation]). }
  destruct (predict_of_stats re_other _ model_data _ _ _ HL Hst)
    as (calls & suggested & Hp).
  exists calls, (response downtown_stats suggested).
  split; [done|]. split; [by_evaluation|]. by repeat split.
Qed.

Lemma downtown_example_witness :
  "Location" ∈ location_columns ∧ "Cuisines" ∈ cuisine_columns ∧
  "Price_for_one" ∈ price_columns ∧ "Rating" ∈ rating_columns ∧
  "Name" ∈ name_columns ∧
  ∃ calls r,
    predict reject_other downtown (Some model_18) downtown_request
      = (calls, Ok r) ∧
    average_price r = Some (qc 20 1) ∧
    popular_cuisine r = Str "Italian" ∧
    Popular_Restaurant r = Str "B" ∧
    Popular_Restaurant_serving_cuisine r = Str "B".
Proof.
  assert (H1 : "Location" ∈ location_columns) by (by left).
  assert (H2 : "Cuisines" ∈ cuisine_columns) by (by left).
  assert (H3 : "Price_for_one" ∈ price_columns) by (by left).
  assert (H4 : "Rating" ∈ rating_columns) by (by left).
  assert (H5 : "Name" ∈ name_columns) by (by left).
  exact (conj H1 (conj H2 (conj H3 (conj H4 (conj H5
    (downtown_example reject_other (Some model_18)
       "Location" "Cuisines" "Price_for_one" "Rating" "Name"
       H1 H2 H3 H4 H5)))))).
Defined.

(** *** The average price, where the location has a price *)



(** *** When a call succeeds *)

Lemma best_rated_succeeds (frame : DataFrame) (rating name : string)
    (otherwise : Cell) (ratings : list (option Qc)) :
  column frame rating = Some (FloatSeries ratings) →
  is_Some (column frame name) →
  ∃ c, best_rated frame rating name otherwise = Ok c.
Proof.
  intros Hratings [names Hnames]. unfold best_rated.
  rewrite Hratings. cbn [attempt mbind Outcome_bind].
  destruct (isna_all (FloatSeries ratings)) eqn:Hna; cbn [negb];
    [by eexists|].
  destruct (idxmax_is_Some _ Hna) as [i Hi]. cbn [series_idxmax].
  rewrite Hi, Hnames. cbn [attempt mbind Outcome_bind]. by eexists.
Qed.

(** The statistics come out for text cuisines, numeric prices and
    ratings, and a cuisine that compiles. *)
Lemma statistics_succeeds re_other (L : Located)
    (texts : list (option string)) (prices : list (option Qc)) :
  column (df_location L) (cuisine_col L) = Some (ObjectSeries texts) →
  column (df_location L) (price_col L) = Some (FloatSeries prices) →
  is_Some (re_compile re_other (the_cuisine L)) →
  (∀ rating, rating_col L = Some rating →
     ∃ ratings, column (df_location L) rating = Some (FloatSeries ratings)) →
  (∀ name, name_col L = Some name → is_Some (column (df_location L) name)) →
  ∃ st, statistics re_other L = Ok st.
Proof.
  intros Hkinds Hprices [f Hf] Hrating Hname. unfold statistics.
  rewrite Hkinds, Hprices. cbn [attempt mbind Outcome_bind series_mean].
  unfold str_contains. rewrite Hf. cbn [attempt mbind option_bind Outcome_bind].
  destruct (rating_col L) as [rating|]; [|cbn [mbind Outcome_bind]; by eexists].
  destruct (name_col L) as [name|]; [|cbn [mbind Outcome_bind]; by eexists].
  destruct (Hrating rating eq_refl) as [ratings Hratings].
  destruct (Hname name eq_refl) as [names Hnames].
  destruct (best_rated_succeeds (df_location L) rating name
              (Str "Not Available") ratings) as [c ->]; [done | by eexists |].
  cbn [mbind Outcome_bind].
  destruct (df_empty (df_select (mask_of f texts) (df_location L)));
    cbn [negb]; [cbn [mbind Outcome_bind]; by eexists|].
  destruct (best_rated_succeeds (df_select (mask_of f texts) (df_location L))
              rating name (Str "Not Found")
              (select (mask_of f texts) ratings)) as [c' ->].
  - by rewrite column_df_select, Hratings.
  - rewrite column_df_select, Hnames. by eexists.
  - cbn [mbind Outcome_bind]. by eexists.
Qed.

(** A valid request over a frame with data, with text location and
    cuisine columns, numeric price and rating columns, patterns that
    compile and a row for the location, is answered, whatever the model
    does. *)
Lemma predict_succeeds re_other (df : DataFrame) (model_data : option Model)
    (req : Request) (loc cui lc cc pc : string)
    (places kinds : list (option string)) (prices : list (option Qc))
    (mask : list bool) :
  location req = Some loc → cuisine req = Some cui →
  Text.truthy loc = true → Text.truthy cui = true →
  df_empty df = false →
  find_column location_columns df = Some lc →
  find_column cuisine_columns df = Some cc →
  find_column price_columns df = Some pc →
  column df lc = Some (ObjectSeries places) →
  column df cc = Some (ObjectSeries kinds) →
  column df pc = Some (FloatSeries prices) →
  (∀ rating, find_column rating_columns df = Some rating →
     ∃ ratings, column df rating = Some (FloatSeries ratings)) →
  str_contains re_other (ObjectSeries places) loc = Some mask →
  df_empty (df_select mask df) = false →
  is_Some (re_compile re_other cui) →
  ∃ calls r, predict re_other df model_data req = (calls, Ok r).
Proof.
  intros Hloc Hcui Htl Htc Hdf Hlc Hcc Hpc Hplaces Hkinds Hprices Hratings
    Hmask Hrows Hcompile.
  unfold predict.
  rewrite (locate_resolved re_other df req loc cui lc cc pc
             (ObjectSeries places)) by done.
  rewrite Hmask, Hrows.
  match goal with |- context [statistics re_other ?L] => set (Loc := L) end.
  destruct (statistics_succeeds re_other Loc
              (select mask kinds) (select mask prices)) as (st & ->).
  - subst Loc. cbn [df_location cuisine_col].
    by rewrite column_df_select, Hkinds.
  - subst Loc. cbn [df_location price_col].
    by rewrite column_df_select, Hprices.
  - done.
  - subst Loc. cbn [df_location rating_col]. intros rating Hrating.
    destruct (Hratings rating Hrating) as [ratings Hr].
    exists (select mask ratings). by rewrite column_df_select, Hr.
  - subst Loc. cbn [df_location name_col]. intros name Hname.
    destruct (find_column_column _ _ _ Hname) as [names Hn].
    rewrite column_df_select, Hn. by eexists.
  - destruct (suggest _ _ _ _) as [calls suggested].
    by exists calls, (response st suggested).
Qed.

(** * Further properties of the handlers *)

(** *** Column resolution *)

Lemma has_column_elem_of (df : DataFrame) (col : string) :
  has_column df col = true ↔ col ∈ columns df.
Proof.
  unfold has_column. rewrite existsb_exists, list_elem_of_In. split.
  - by intros (c & Hc & ->%String.eqb_eq).
  - intros Hc. exists col. by rewrite String.eqb_refl.
Qed.

Lemma find_first {A} (f : A → bool) (l : list A) (x : A) :
  List.find f l = Some x ↔
  ∃ before after,
    l = (before ++ x :: after)%list ∧ f x = true ∧ ∀ a, a ∈ before → f a = false.
Proof.
  induction l as [|y l IH]; cbn.
  - split; [done|]. by intros ([|??] & ? & ? & _).
  - destruct (f y) eqn:Hy.
    + split.
      * intros [= ->]. exists [], l. split; [done|]. split; [done|].
        by intros a ?%elem_of_nil.
      * intros ([|b before] & after & Hl & Hx & Hbefore).
        -- by injection Hl as -> _.
        -- injection Hl as -> _. rewrite Hbefore in Hy by left. done.
    + rewrite IH. split.
      * intros (before & after & -> & Hx & Hbefore).
        exists (y :: before), after. split; [done|]. split; [done|].
        by intros a [-> | ?]%elem_of_cons; [|apply Hbefore].
      * intros ([|b before] & after & Hl & Hx & Hbefore).
        -- injection Hl as -> _. congruence.
        -- injection Hl as -> ->. exists before, after.
           split; [done|]. split; [done|].
           intros a Ha. apply Hbefore. by right.
Qed.

(** X1. The resolution loop returns the first alias, in the order of the
    list, that is a column of the frame, and nothing exactly when no alias
    is a column. *)
Theorem find_column_first_alias (aliases : list string) (df : DataFrame) :
  (∀ col, find_column aliases df = Some col ↔
     ∃ before after,
       aliases = (before ++ col :: after)%list ∧ col ∈ columns df ∧
       ∀ a, a ∈ before → a ∉ columns df) ∧
  (find_column aliases df = None ↔ ∀ a, a ∈ aliases → a ∉ columns df).
Proof.
  split.
  - intros col. unfold find_column. rewrite find_first.
    split; intros (before & after & Hl & Hcol & Hbefore);
      exists before, after; (split; [done|]); split.
    + by apply has_column_elem_of.
    + intros a Ha Hin%has_column_elem_of. by rewrite (Hbefore a Ha) in Hin.
    + by apply has_column_elem_of.
    + intros a Ha. apply not_true_is_false.
      intros Hin%has_column_elem_of. by apply (Hbefore a Ha).
  - unfold find_column. split.
    + intros Hnone a Ha Hin%has_column_elem_of.
      apply list_elem_of_In in Ha.
      by rewrite (find_none _ _ Hnone a Ha) in Hin.
    + intros Hall. destruct (List.find _ _) as [c|] eqn:Hfind; [|done].
      apply find_some in Hfind as [Hin Hc].
      apply list_elem_of_In in Hin. apply has_column_elem_of in Hc.
      by destruct (Hall c Hin).
Qed.

(** *** The error responses of [predict] *)

Lemma best_rated_Err (frame : DataFrame) (rating name : string)
    (otherwise : Cell) (e : Error) :
  best_rated frame rating name otherwise = Err e → e = ComputationError.
Proof.
  unfold best_rated. destruct (column frame rating) as [ratings|]; cbn;
    [|congruence].
  destruct (isna_all ratings); cbn; [done|].
  destruct (series_idxmax ratings); cbn; [|congruence].
  destruct (column frame name); cbn; [done | congruence].
Qed.

(** The statistics fail only through an exception. *)
Lemma statistics_Err re_other (L : Located) (e : Error) :
  statistics re_other L = Err e → e = ComputationError.
Proof.
  unfold statistics.
  destruct (column (df_location L) (cuisine_col L)) as [kinds|];
    cbn [attempt mbind Outcome_bind]; [|congruence].
  destruct (column (df_location L) (price_col L)) as [prices|];
    cbn [attempt mbind Outcome_bind]; [|congruence].
  destruct (series_mean prices) as [avg|];
    cbn [attempt mbind Outcome_bind]; [|congruence].
  destruct (match rating_col L, name_col L with
            | Some rating, Some name =>
                best_rated (df_location L) rating name (Str "Not Available")
            | _, _ => Ok (Str "Not Available")
            end) as [overall|e1] eqn:Hoverall; cbn [mbind Outcome_bind].
  2:{ intros [= <-]. destruct (rating_col L), (name_col L);
        try done; by eapply best_rated_Err. }
  destruct (str_contains re_other kinds (the_cuisine L)) as [cf|];
    cbn [attempt mbind Outcome_bind]; [|congruence].
  destruct (match rating_col L, name_col L with
            | Some rating, Some name =>
                if negb (df_empty (df_select cf (df_location L)))
                then best_rated (df_select cf (df_location L))
                                rating name (Str "Not Found")
                else Ok (Str "Not Found")
            | _, _ => Ok (Str "Not Found")
            end) as [serving|e2] eqn:Hserving; cbn [mbind Outcome_bind];
    [done|].
  intros [= <-]. destruct (rating_col L), (name_col L); try done.
  destruct (negb _); [by eapply best_rated_Err | done].
Qed.

Lemma valid_request_inv (req : Request) :
  valid_request req = true →
  ∃ loc cui, location req = Some loc ∧ cuisine req = Some cui ∧
             Text.truthy loc = true ∧ Text.truthy cui = true.
Proof.
  unfold valid_request. destruct (location req) as [loc|]; [|done].
  destruct (cuisine req) as [cui|]; [|done].
  intros [? ?]%andb_true_iff. by exists loc, cui.
Qed.

Lemma required_columns_inv (df : DataFrame) :
  required_columns df = true →
  ∃ lc cc pc, find_column location_columns df = Some lc ∧
              find_column cuisine_columns df = Some cc ∧
              find_column price_columns df = Some pc.
Proof.
  unfold required_columns.
  intros [[[lc Hlc]%bool_decide_eq_true [cc Hcc]%bool_decide_eq_true]
            %andb_true_iff [pc Hpc]%bool_decide_eq_true]%andb_true_iff.
  by exists lc, cc, pc.
Qed.

Lemma locate_invalid re_other (df : DataFrame) (req : Request) :
  valid_request req = false → locate re_other df req = Err ClientInputError.
Proof.
  unfold valid_request, locate. destruct (location req) as [loc|]; [|done].
  destruct (cuisine req) as [cui|]; [|done].
  by destruct (Text.truthy loc), (Text.truthy cui).
Qed.

Lemma locate_no_data re_other (df : DataFrame) (req : Request) :
  valid_request req = true → df_empty df = true →
  locate re_other df req = Err DataUnavailable.
Proof.
  intros (loc & cui & Hloc & Hcui & Htl & Htc)%valid_request_inv Hdf.
  unfold locate. by rewrite Hloc, Hcui, Htl, Htc, Hdf.
Qed.

Lemma locate_no_columns re_other (df : DataFrame) (req : Request) :
  valid_request req = true → df_empty df = false →
  required_columns df = false →
  locate re_other df req = Err SchemaError.
Proof.
  intros (loc & cui & Hloc & Hcui & Htl & Htc)%valid_request_inv Hdf Hreq.
  unfold locate. rewrite Hloc, Hcui, Htl, Htc, Hdf. cbn [negb orb].
  unfold required_columns in Hreq.
  destruct (find_column location_columns df); [|done].
  destruct (find_column cuisine_columns df); [|done].
  destruct (find_column price_columns df); [|done].
  exfalso. revert Hreq.
  rewrite !bool_decide_eq_true_2 by (by eexists). done.
Qed.

(** With a valid request, data and the required columns, [locate] depends
    on the location filter alone. *)
Lemma locate_filter re_other (df : DataFrame) (req : Request) :
  valid_request req = true → df_empty df = false →
  required_columns df = true →
  ∃ loc cui lc cc pc places,
    location req = Some loc ∧ cuisine req = Some cui ∧
    find_column location_columns df = Some lc ∧
    find_column cuisine_columns df = Some cc ∧
    find_column price_columns df = Some pc ∧
    column df lc = Some places ∧
    locate re_other df req =
      match str_contains re_other places loc with
      | Some mask =>
          if df_empty (df_select mask df) then Err (NotFound loc)
          else Ok {| the_location := loc;
                     the_cuisine := cui;
                     location_col := lc;
                     cuisine_col := cc;
                     price_col := pc;
                     rating_col := find_column rating_columns df;
                     name_col := find_column name_columns df;
                     df_location := df_select mask df |}
      | None => Err ComputationError
      end.
Proof.
  intros (loc & cui & Hloc & Hcui & Htl & Htc)%valid_request_inv Hdf
         (lc & cc & pc & Hlc & Hcc & Hpc)%required_columns_inv.
  destruct (find_column_column _ _ _ Hlc) as [places Hplaces].
  exists loc, cui, lc, cc, pc, places. repeat (split; [done|]).
  by apply locate_resolved.
Qed.

(** The stage a request is in, decided by three tests. *)
Lemma locate_cases re_other (df : DataFrame) (req : Request) :
  (valid_request req = false ∧
   locate re_other df req = Err ClientInputError) ∨
  (valid_request req = true ∧ df_empty df = true ∧
   locate re_other df req = Err DataUnavailable) ∨
  (valid_request req = true ∧ df_empty df = false ∧
   required_columns df = false ∧
   locate re_other df req = Err SchemaError) ∨
  (valid_request req = true ∧ df_empty df = false ∧
   required_columns df = true).
Proof.
  destruct (valid_request req) eqn:Hvalid;
    [|left; split; [done | by apply locate_invalid]].
  destruct (df_empty df) eqn:Hdf.
  { right; left. split; [done|]. split; [done|]. by apply locate_no_data. }
  destruct (required_columns df) eqn:Hreq.
  - by do 3 right.
  - right; right; left. do 3 (split; [done|]). by apply locate_no_columns.
Qed.

Lemma predict_Err_inv re_other (df : DataFrame) (model_data : option Model)
    (req : Request) (calls : list ModelInput) (e : Error) :
  predict re_other df model_data req = (calls, Err e) →
  calls = [] ∧
  (locate re_other df req = Err e ∨
   ∃ L, locate re_other df req = Ok L ∧ statistics re_other L = Err e).
Proof.
  unfold predict. destruct (locate re_other df req) as [L|e1].
  - destruct (statistics re_other L) as [st|e2] eqn:Hst.
    + by destruct (suggest _ _ _ _).
    + intros [= <- <-]. split; [done|]. right. by exists L.
  - intros [= <- <-]. split; [done|]. by left.
Qed.

Lemma predict_locate_Err re_other (df : DataFrame)
    (model_data : option Model) (req : Request) (e : Error) :
  locate re_other df req = Err e →
  predict re_other df model_data req = ([], Err e).
Proof. intros H. unfold predict. by rewrite H. Qed.

Lemma refusal_iff (calls : list ModelInput) (e e' : Error) (P : Prop) :
  (e = e' ↔ P) →
  (([], Err e) = (calls, @Err Response e') ↔ calls = [] ∧ P).
Proof.
  intros HP. split.
  - intros [= <- He]. split; [done | by apply HP].
  - intros [-> He%HP]. by rewrite He.
Qed.

(** X2. The three refusals of [predict] that do not look at the data are
    decided in order, by the request and the frame alone: 400 exactly for
    a request whose location or cuisine is absent or empty (even over an
    empty frame); the data error exactly for a valid request over an empty
    frame; the schema error exactly for a valid request over a frame with
    data that lacks a location, cuisine or price column.  None of them
    involves the model. *)
Theorem predict_refusals
    (re_other : string -> option (string -> bool))
    (df : DataFrame) (model_data : option Model) (req : Request)
    (calls : list ModelInput) :
  (predict re_other df model_data req = (calls, Err ClientInputError) ↔
     calls = [] ∧ valid_request req = false) ∧
  (predict re_other df model_data req = (calls, Err DataUnavailable) ↔
     calls = [] ∧ valid_request req = true ∧ df_empty df = true) ∧
  (predict re_other df model_data req = (calls, Err SchemaError) ↔
     calls = [] ∧ valid_request req = true ∧ df_empty df = false ∧
     required_columns df = false).
Proof.
  assert (Hfilter : ∀ e,
    valid_request req = true → df_empty df = false →
    required_columns df = true →
    predict re_other df model_data req = (calls, Err e) →
    e = ComputationError ∨ ∃ loc, e = NotFound loc).
  { intros e Hvalid Hdf Hreq [-> [He | (L & _ & He)]]%predict_Err_inv.
    - destruct (locate_filter re_other df req Hvalid Hdf Hreq)
        as (loc & cui & lc & cc & pc & places & _ & _ & _ & _ & _ & _ & Heq).
      rewrite Heq in He. destruct (str_contains re_other places loc);
        [|left; congruence].
      destruct (df_empty (df_select _ df)); [|done].
      right. exists loc. congruence.
    - left. by eapply statistics_Err. }
  destruct (locate_cases re_other df req)
    as [[Hv Hl] | [(Hv & Hd & Hl) | [(Hv & Hd & Hr & Hl) | (Hv & Hd & Hr)]]].
  - rewrite (predict_locate_Err _ _ _ _ _ Hl).
    split; [|split]; apply refusal_iff; split; try done; intros; intuition congruence.
  - rewrite (predict_locate_Err _ _ _ _ _ Hl).
    split; [|split]; apply refusal_iff; split; try done; intros; intuition congruence.
  - rewrite (predict_locate_Err _ _ _ _ _ Hl).
    split; [|split]; apply refusal_iff; split; try done; intros; intuition congruence.
  - split; [|split]; (split;
      [intros H; destruct (Hfilter _ Hv Hd Hr H) as [? | [? ?]]; done
      |intros; intuition congruence]).
Qed.

(** X3. [predict] answers 404 exactly when a valid request over a frame
    with data and the required columns has a location filter that could
    be evaluated and selected no row; the error names the location as
    requested, and the model is not called. *)
Theorem predict_not_found_iff
    (re_other : string -> option (string -> bool))
    (df : DataFrame) (model_data : option Model) (req : Request)
    (calls : list ModelInput) (loc : string) :
  predict re_other df model_data req = (calls, Err (NotFound loc)) ↔
  calls = [] ∧ valid_request req = true ∧ df_empty df = false ∧
  location req = Some loc ∧
  ∃ lc places mask,
    required_columns df = true ∧
    find_column location_columns df = Some lc ∧
    column df lc = Some places ∧
    str_contains re_other places loc = Some mask ∧
    df_empty (df_select mask df) = true.
Proof.
  split.
  - intros H. pose proof H as [-> Hcases]%predict_Err_inv. split; [done|].
    destruct Hcases as [He | (L & _ & He)];
      [|by apply statistics_Err in He].
    destruct (locate_cases re_other df req)
      as [[Hv Hl] | [(Hv & Hd & Hl) | [(Hv & Hd & Hr & Hl) | (Hv & Hd & Hr)]]];
      try congruence.
    destruct (locate_filter re_other df req Hv Hd Hr)
      as (loc' & cui & lc & cc & pc & places & Hloc & _ & Hlc & _ & _
          & Hplaces & Heq).
    rewrite Heq in He.
    destruct (str_contains re_other places loc') as [mask|] eqn:Hmask;
      [|done].
    destruct (df_empty (df_select mask df)) eqn:Hsel; [|done].
    injection He as <-. repeat (split; [done|]). by exists lc, places, mask.
  - intros (-> & Hv & Hd & Hloc & lc & places & mask & Hr & Hlc & Hplaces
            & Hmask & Hsel).
    apply predict_locate_Err.
    destruct (locate_filter re_other df req Hv Hd Hr)
      as (loc' & cui & lc' & cc & pc & places' & Hloc' & _ & Hlc' & _ & _
          & Hplaces' & ->).
    rewrite Hloc in Hloc'. injection Hloc' as <-.
    rewrite Hlc in Hlc'. injection Hlc' as <-.
    rewrite Hplaces in Hplaces'. injection Hplaces' as <-.
    by rewrite Hmask, Hsel.
Qed.

(** *** The model in [predict] *)

Lemma predict_model_calls_aux re_other (df : DataFrame)
    (model_data : option Model) (req : Request) :
  match predict re_other df model_data req with
  | (calls, Err _) => calls = []
  | (calls, Ok _) =>
      match model_data with
      | None => calls = []
      | Some _ => ∃ input_df, calls = [input_df]
      end
  end.
Proof.
  unfold predict.
  destruct (locate re_other df req) as [L|e]; [|done].
  destruct (statistics re_other L) as [st|e]; [|done].
  unfold suggest. destruct model_data as [model|]; [by eexists | done].
Qed.

(** X4. [predict] calls the model at most once: never when it answers
    with an error and never when no model is loaded; when a model is
    loaded and the statistics are computed, exactly once, on the resolved
    location and cuisine column names paired with the location and
    cuisine texts of the request. *)
Theorem predict_model_calls
    (re_other : string -> option (string -> bool))
    (df : DataFrame) (model_data : option Model) (req : Request) :
  match predict re_other df model_data req with
  | (calls, Err _) => calls = []
  | (calls, Ok _) =>
      match model_data with
      | None => calls = []
      | Some _ =>
          ∃ loc cui lc cc,
            location req = Some loc ∧ cuisine req = Some cui ∧
            find_column location_columns df = Some lc ∧
            find_column cuisine_columns df = Some cc ∧
            calls = [[(lc, loc); (cc, cui)]]
      end
  end.
Proof.
  unfold predict.
  destruct (locate re_other df req) as [L|e] eqn:HL; [|done].
  destruct (statistics re_other L) as [st|e]; [|done].
  unfold suggest. destruct model_data as [model|]; [|done].
  apply locate_Ok_inv in HL
    as (_ & _ & Hloc & Hcui & _ & _ & _ & Hlc & Hcc & _).
  by exists (the_location L), (the_cuisine L), (location_col L), (cuisine_col L).
Qed.

Lemma locate_ignores_price re_other (df : DataFrame) (req : Request)
    (p : option Qc) :
  locate re_other df
    {| location := location req; cuisine := cuisine req; price := p |}
  = locate re_other df req.
Proof. reflexivity. Qed.

(** X5. The model and the request's price bear on the suggested price
    alone: with another model and another price the call fails with the
    same error or succeeds with the same average price, popular cuisine
    and restaurants. *)
Theorem statistics_ignore_model_and_price
    (re_other : string -> option (string -> bool))
    (df : DataFrame) (model1 model2 : option Model) (req : Request)
    (p : option Qc) :
  match (predict re_other df model1 req).2,
        (predict re_other df model2
           {| location := location req; cuisine := cuisine req;
              price := p |}).2 with
  | Ok r1, Ok r2 =>
      average_price r1 = average_price r2 ∧
      popular_cuisine r1 = popular_cuisine r2 ∧
      Popular_Restaurant r1 = Popular_Restaurant r2 ∧
      Popular_Restaurant_serving_cuisine r1
        = Popular_Restaurant_serving_cuisine r2
  | Err e1, Err e2 => e1 = e2
  | _, _ => False
  end.
Proof.
  unfold predict. rewrite locate_ignores_price.
  destruct (locate re_other df req) as [L|e]; [|done].
  destruct (statistics re_other L) as [st|e]; [|done].
  by do 2 destruct (suggest _ _ _ _).
Qed.

(** *** The best-rated restaurant of the location *)

(** X6. On a successful call the overall restaurant is "Not Available"
    when the rating or the name column is unavailable or every rating of
    the rows of the location is missing; in the remaining case it is the
    name in the row of the highest rating among those rows, the first such
    row on ties. *)
Theorem overall_restaurant
    (re_other : string -> option (string -> bool))
    (df : DataFrame) (model_data : option Model) (req : Request)
    (calls : list ModelInput) (r : Response) :
  predict re_other df model_data req = (calls, Ok r) →
  ∃ L,
    locate re_other df req = Ok L ∧
    ((rating_col L = None ∨ name_col L = None ∨
      (∃ rating ratings,
         rating_col L = Some rating ∧
         column (df_location L) rating = Some ratings ∧
         isna_all ratings = true)) →
       Popular_Restaurant r = Str "Not Available") ∧
    (∀ rating name ratings,
       rating_col L = Some rating → name_col L = Some name →
       column (df_location L) rating = Some ratings →
       isna_all ratings = false →
       ∃ vals names i,
         ratings = FloatSeries vals ∧
         column (df_location L) name = Some names ∧
         first_max vals i ∧ Popular_Restaurant r = cell_at names i).
Proof.
  intros (L & st & suggested & HL & Hst & ->)%predict_Ok_inv.
  apply statistics_Ok_inv in Hst
    as (kinds & prices & cf & _ & _ & _ & _ & Hoverall & _).
  exists L. split; [done|]. cbn [response Popular_Restaurant].
  destruct (rating_col L) as [rating|]; [|split; [by injection Hoverall|done]].
  destruct (name_col L) as [name|]; [|split; [by injection Hoverall|done]].
  apply best_rated_inv in Hoverall as (ratings & Hratings & Hcases).
  split.
  - intros [? | [? | (rating' & ratings' & [= <-] & Hr' & Hna)]]; [done..|].
    rewrite Hratings in Hr'. injection Hr' as <-.
    destruct Hcases as [[_ ?] | [? _]]; [done | congruence].
  - intros rating' name' ratings' [= <-] [= <-] Hr' Hna.
    rewrite Hratings in Hr'. injection Hr' as <-.
    destruct Hcases as [[? _] | [_ ?]]; [congruence | done].
Qed.

Lemma overall_restaurant_witness :
  predict reject_other downtown None downtown_request
    = ([], Ok (response downtown_stats (Some (qc 15 1)))) ∧
  ∃ L,
    locate reject_other downtown downtown_request = Ok L ∧
    ((rating_col L = None ∨ name_col L = None ∨
      (∃ rating ratings,
         rating_col L = Some rating ∧
         column (df_location L) rating = Some ratings ∧
         isna_all ratings = true)) →
       Popular_Restaurant (response downtown_stats (Some (qc 15 1)))
         = Str "Not Available") ∧
    (∀ rating name ratings,
       rating_col L = Some rating → name_col L = Some name →
       column (df_location L) rating = Some ratings →
       isna_all ratings = false →
       ∃ vals names i,
         ratings = FloatSeries vals ∧
         column (df_location L) name = Some names ∧
         first_max vals i ∧
         Popular_Restaurant (response downtown_stats (Some (qc 15 1)))
           = cell_at names i).
Proof.
  assert (H : predict reject_other downtown None downtown_request
              = ([], Ok (response downtown_stats (Some (qc 15 1)))))
    by by_evaluation.
  exact (conj H (overall_restaurant reject_other downtown None
                   downtown_request [] _ H)).
Defined.

(** *** The suggested price *)

(** X7. When the model answers on a price that is a double with a
    product [price * 1.1] within the range of the doubles, the suggested
    price before rounding never exceeds the prediction; it is the
    prediction exactly when the prediction is at most the price or at
    most the float product; for a price below the prediction it is at
    least the price if the price is not negative, at most the price if
    the price is negative, and below the price if the price is a negative
    normal double. *)
Theorem suggestion_bounds
    (model : Model) (input_df : ModelInput) (price predicted : Qc)
    (average : float) :
  is_double price →
  finite (price * double_1_1)%Qc →
  model input_df = Some predicted →
  ∃ s product : Qc,
    (suggest (Some model) input_df price average).2 = Some s ∧
    rounds_to (price * double_1_1)%Qc product ∧
    (s ≤ predicted)%Qc ∧
    (s = predicted ↔ (predicted ≤ price)%Qc ∨ (predicted ≤ product)%Qc) ∧
    ((qc 0 1 ≤ price)%Qc → (price < predicted)%Qc → (price ≤ s)%Qc) ∧
    ((price < qc 0 1)%Qc → (price < predicted)%Qc → (s ≤ price)%Qc) ∧
    ((price ≤ - min_normal)%Qc → (price < predicted)%Qc → (s < price)%Qc).
Proof.
  intros Hprice Hfin Hm.
  destruct (float_mul_rounds_to _ Hprice Hfin) as [Hmul Hround].
  exists (blend price predicted), (round_double (price * double_1_1)).
  unfold suggest. rewrite Hm. split; [done|]. split; [done|].
  unfold blend, py_min. rewrite Hmul.
  set (product := round_double (price * double_1_1)) in *.
  assert (Habove : (qc 0 1 ≤ price)%Qc → (price ≤ product)%Qc)
    by (intros; by apply (product_above price product)).
  assert (Hbelow : (price ≤ qc 0 1)%Qc → (product ≤ price)%Qc)
    by (intros; by apply (product_below price product)).
  assert (Hstrict : (price ≤ - min_normal)%Qc → (product < price)%Qc)
    by (intros; by apply (product_strictly_below price product)).
  case_bool_decide as Hle.
  - split; [apply Qcle_refl|]. split; [by split; [left|]|].
    repeat split; intros ? Hlt; by apply Qclt_nge in Hlt.
  - apply Qclt_nge in Hle. case_bool_decide as Hmin.
    + split; [apply Qcle_refl|]. split.
      { split; [right; by apply Qclt_le_weak | done]. }
      split; [intros; by apply Qclt_le_weak|].
      split; intros Hneg _.
      * eapply Qcle_trans; [apply Qclt_le_weak, Hmin|].
        by apply Hbelow, Qclt_le_weak.
      * eapply Qclt_trans; [exact Hmin|]. by apply Hstrict.
    + apply Qcle_ngt in Hmin. split; [done|]. split.
      { split.
        - intros Heq. right. rewrite <-Heq. apply Qcle_refl.
        - intros [Hp | Hp]; [by apply Qclt_nge in Hle|].
          by apply (anti_symm Qcle). }
      split; [intros; by apply Habove|].
      split; intros Hneg _.
      * by apply Hbelow, Qclt_le_weak.
      * by apply Hstrict.
Qed.

Lemma suggestion_bounds_witness :
  is_double (qc (-15) 1) ∧
  finite (qc (-15) 1 * double_1_1)%Qc ∧
  model_18 [("Location", "Downtown")] = Some (qc 18 1) ∧
  (qc (-15) 1 ≤ - min_normal)%Qc ∧
  ∃ s product : Qc,
    (suggest (Some model_18) [("Location", "Downtown")] (qc (-15) 1)
             (Some (qc 20 1))).2 = Some s ∧
    rounds_to (qc (-15) 1 * double_1_1)%Qc product ∧
    (s ≤ qc 18 1)%Qc ∧
    (s = qc 18 1 ↔
       (qc 18 1 ≤ qc (-15) 1)%Qc ∨ (qc 18 1 ≤ product)%Qc) ∧
    ((qc 0 1 ≤ qc (-15) 1)%Qc → (qc (-15) 1 < qc 18 1)%Qc →
       (qc (-15) 1 ≤ s)%Qc) ∧
    ((qc (-15) 1 < qc 0 1)%Qc → (qc (-15) 1 < qc 18 1)%Qc →
       (s ≤ qc (-15) 1)%Qc) ∧
    ((qc (-15) 1 ≤ - min_normal)%Qc → (qc (-15) 1 < qc 18 1)%Qc →
       (s < qc (-15) 1)%Qc).
Proof.
  assert (Hprice : is_double (qc (-15) 1)).
  { exists (-15), 0. split; [done|]. split; [lia|]. by_evaluation. }
  assert (Hfin : finite (qc (-15) 1 * double_1_1)%Qc)
    by (split; by_evaluation).
  assert (Hneg : (qc (-15) 1 ≤ - min_normal)%Qc) by by_evaluation.
  exact (conj Hprice (conj Hfin (conj eq_refl (conj Hneg
    (suggestion_bounds model_18 [("Location", "Downtown")] (qc (-15) 1)
       (qc 18 1) (Some (qc 20 1)) Hprice Hfin eq_refl))))).
Defined.

(** X8. A request without a price is treated as price 0: when the model
    then predicts a positive price, the suggested price of the response
    is 0. *)
Theorem omitted_price_suggests_zero
    (re_other : string -> option (string -> bool))
    (df : DataFrame) (model : Model) (req : Request)
    (L : Located) (st : Stats) (predicted : Qc) :
  price req = None →
  locate re_other df req = Ok L →
  statistics re_other L = Ok st →
  model (input_df_of L) = Some predicted →
  (qc 0 1 < predicted)%Qc →
  ∃ calls r,
    predict re_other df (Some model) req = (calls, Ok r) ∧
    suggested_price r = Some (qc 0 1).
Proof.
  intros Hprice HL Hst Hm Hpos. unfold predict, suggest, price_of.
  rewrite HL, Hst, Hm, Hprice. eexists _, _. split; [done|].
  cbn [response suggested_price default py_round2 fmap option_fmap option_map].
  f_equal. unfold blend.
  rewrite bool_decide_eq_false_2 by (by apply Qclt_nge).
  assert (float_mul (py_float (qc 0 1)) double_1_1 = qc 0 1) as ->
    by by_evaluation.
  unfold py_min. rewrite bool_decide_eq_false_2; [by_evaluation|].
  by apply Qcle_ngt, Qclt_le_weak.
Qed.

Lemma omitted_price_suggests_zero_witness :
  price dot_cuisine_request = None ∧
  locate reject_other downtown dot_cuisine_request
    = Ok {| the_location := "Downtown"; the_cuisine := ".";
            location_col := "Location"; cuisine_col := "Cuisines";
            price_col := "Price_for_one"; rating_col := Some "Rating";
            name_col := Some "Name"; df_location := downtown |} ∧
  (qc 0 1 < qc 18 1)%Qc ∧
  ∃ calls r,
    predict reject_other downtown (Some model_18) dot_cuisine_request
      = (calls, Ok r) ∧
    suggested_price r = Some (qc 0 1).
Proof.
  assert (HL : locate reject_other downtown dot_cuisine_request
    = Ok {| the_location := "Downtown"; the_cuisine := ".";
            location_col := "Location"; cuisine_col := "Cuisines";
            price_col := "Price_for_one"; rating_col := Some "Rating";
            name_col := Some "Name"; df_location := downtown |})
    by by_evaluation.
  assert (Hst : statistics reject_other
    {| the_location := "Downtown"; the_cuisine := ".";
       location_col := "Location"; cuisine_col := "Cuisines";
       price_col := "Price_for_one"; rating_col := Some "Rating";
       name_col := Some "Name"; df_location := downtown |}
    = Ok downtown_stats) by by_evaluation.
  assert (Hpos : (qc 0 1 < qc 18 1)%Qc) by reflexivity.
  exact (conj eq_refl (conj HL (conj Hpos
    (omitted_price_suggests_zero reject_other downtown model_18
       dot_cuisine_request _ downtown_stats (qc 18 1)
       eq_refl HL Hst eq_refl Hpos)))).
Defined.

(** *** Rounding *)



(** *** [get_options] and [health_check] *)

(** X10. [get_options] fails in one way only, the data error, and exactly
    on an empty frame.  On a frame with data it reports the number of
    rows of the whole frame, and an unavailable location or cuisine
    column gives the empty list for that field instead of an error. *)
Theorem get_options_outcome (float_str : Qc -> string) (df : DataFrame) :
  (df_empty df = true → get_options float_str df = Err DataUnavailable) ∧
  (df_empty df = false →
     ∃ o, get_options float_str df = Ok o ∧
          total_records o = nrows df ∧
          (find_column location_columns df = None → locations o = []) ∧
          (find_column cuisine_columns df = None → cuisines o = [])).
Proof.
  split; intros Hdf.
  - unfold get_options. by rewrite Hdf.
  - destruct (get_options_Ok float_str df Hdf) as (o & Ho & _ & _ & Hn).
    exists o. split; [done|]. split; [done|].
    revert Ho. unfold get_options. rewrite Hdf.
    destruct (find_column location_columns df) as [lc|] eqn:Hlc;
      [destruct (find_column_column _ _ _ Hlc) as [ls ->]|];
      (destruct (find_column cuisine_columns df) as [cc|] eqn:Hcc;
        [destruct (find_column_column _ _ _ Hcc) as [cs ->]|]);
      cbn; intros [= <-]; by split.
Qed.

(** X11. The health report agrees with the two handlers: it reports data
    exactly when [get_options] answers, with the record count that
    [get_options] gives (0 without data); without data a valid request
    to [predict] gets the data error; and it reports a model exactly when
    a successful [predict] has called one. *)
Theorem health_check_agrees
    (float_str : Qc -> string)
    (re_other : string -> option (string -> bool))
    (df : DataFrame) (model_data : option Model) :
  let h := health_check df model_data in
  (data_loaded h = true ↔ ∃ o, get_options float_str df = Ok o) ∧
  (∀ o, get_options float_str df = Ok o → records h = total_records o) ∧
  (data_loaded h = false →
     records h = 0%nat ∧
     ∀ req, valid_request req = true →
            predict re_other df model_data req = ([], Err DataUnavailable)) ∧
  (∀ req calls r,
     predict re_other df model_data req = (calls, Ok r) →
     (model_loaded h = true ↔ calls ≠ [])).
Proof.
  cbn zeta. unfold health_check. cbn [data_loaded records model_loaded].
  destruct (get_options_outcome float_str df) as [Hempty Hdata].
  destruct (df_empty df) eqn:Hdf; cbn [negb].
  - specialize (Hempty eq_refl). split; [|split; [|split]].
    + split; [done|]. intros [o Ho]. congruence.
    + intros o Ho. congruence.
    + intros _. split; [done|]. intros req Hvalid.
      apply predict_locate_Err. by apply locate_no_data.
    + intros req calls r Hp. apply predict_Ok_inv in Hp
        as (L & _ & _ & HL & _).
      apply locate_Ok_inv in HL as (_ & _ & _ & _ & _ & _ & ? & _).
      congruence.
  - destruct (Hdata eq_refl) as (o & Ho & Hn & _).
    split; [|split; [|split]].
    + split; [by exists o | done].
    + intros o' Ho'. congruence.
    + done.
    + intros req calls r Hp.
      pose proof (predict_model_calls_aux re_other df model_data req) as Hc.
      rewrite Hp in Hc. destruct model_data as [model|].
      * destruct Hc as [x ->]. split; [done|]. intros _.
        by apply bool_decide_eq_true_2.
      * subst calls. split; [|done]. by intros ?%bool_decide_eq_true.
Qed.

(** *** The cuisines listed *)

Lemma string_app_cons (c : ascii) (s t : string) :
  String c s +:+ t = String c (s +:+ t).
Proof. reflexivity. Qed.

Lemma string_app_nil_l (t : string) : "" +:+ t = t.
Proof. reflexivity. Qed.

Lemma string_app_assoc (s1 s2 s3 : string) :
  (s1 +:+ s2) +:+ s3 = s1 +:+ (s2 +:+ s3).
Proof.
  induction s1 as [|c s1 IH]; [done|]. by rewrite !string_app_cons, IH.
Qed.

Lemma rev_app_spec (s acc : string) :
  String.rev_app s acc = String.rev s +:+ acc.
Proof.
  unfold String.rev. revert acc.
  induction s as [|c s IH]; intros acc; [done|].
  cbn [String.rev_app]. rewrite (IH (String c "")), IH, string_app_assoc. done.
Qed.

Lemma rev_cons (c : ascii) (s : string) :
  String.rev (String c s) = String.rev s +:+ String c "".
Proof. unfold String.rev at 1. cbn [String.rev_app]. apply rev_app_spec. Qed.

Lemma rev_snoc (s : string) (c : ascii) :
  String.rev (s +:+ String c "") = String c (String.rev s).
Proof.
  induction s as [|d s IH]; [done|].
  by rewrite string_app_cons, !rev_cons, IH.
Qed.

Lemma rev_involutive (s : string) : String.rev (String.rev s) = s.
Proof.
  induction s as [|c s IH]; [done|]. by rewrite rev_cons, rev_snoc, IH.
Qed.

Lemma lstrip_idemp (s : string) : Text.lstrip (Text.lstrip s) = Text.lstrip s.
Proof.
  induction s as [|c s IH]; [done|]. cbn.
  destruct (Text.isspace c) eqn:Hc; [done|]. cbn. by rewrite Hc.
Qed.

Lemma lstrip_app (s1 s2 : string) (c : ascii) :
  Text.isspace c = false →
  Text.lstrip (s1 +:+ String c s2) = Text.lstrip s1 +:+ String c s2.
Proof.
  intros Hc. induction s1 as [|d s1 IH];
    [rewrite string_app_nil_l; cbn; by rewrite Hc|].
  rewrite string_app_cons. cbn [Text.lstrip].
  by destruct (Text.isspace d).
Qed.

Lemma rstrip_idemp (s : string) : Text.rstrip (Text.rstrip s) = Text.rstrip s.
Proof. unfold Text.rstrip. by rewrite rev_involutive, lstrip_idemp. Qed.

(** Trimming on the right keeps a first character that is not blank. *)
Lemma lstrip_rstrip (s : string) :
  Text.lstrip s = s → Text.lstrip (Text.rstrip s) = Text.rstrip s.
Proof.
  destruct s as [|c s]; [done|]. cbn [Text.lstrip].
  destruct (Text.isspace c) eqn:Hc.
  - intros Heq. exfalso. apply (f_equal String.length) in Heq.
    assert (∀ t, (String.length (Text.lstrip t) ≤ String.length t)%nat) as Hlen.
    { induction t as [|d t IH]; cbn; [lia|]. destruct (Text.isspace d); cbn; lia. }
    specialize (Hlen s). cbn in Heq. lia.
  - intros _. unfold Text.rstrip.
    rewrite rev_cons, (lstrip_app _ _ _ Hc), rev_snoc. cbn [Text.lstrip].
    by rewrite Hc.
Qed.

Lemma strip_idemp (s : string) : Text.strip (Text.strip s) = Text.strip s.
Proof.
  unfold Text.strip.
  rewrite (lstrip_rstrip (Text.lstrip s)) by apply lstrip_idemp.
  apply rstrip_idemp.
Qed.

(** The characters of a trimmed text are characters of the text. *)
Lemma elem_of_app_chars (c : ascii) (s1 s2 : string) :
  c ∈ list_ascii_of_string (s1 +:+ s2) ↔
  c ∈ list_ascii_of_string s1 ∨ c ∈ list_ascii_of_string s2.
Proof.
  induction s1 as [|d s1 IH].
  - rewrite string_app_nil_l. cbn. split; [by right|].
    by intros [?%elem_of_nil|].
  - rewrite string_app_cons. cbn [list_ascii_of_string].
    rewrite !elem_of_cons, IH. tauto.
Qed.

Lemma elem_of_rev_chars (c : ascii) (s : string) :
  c ∈ list_ascii_of_string (String.rev s) ↔ c ∈ list_ascii_of_string s.
Proof.
  induction s as [|d s IH]; [done|].
  rewrite rev_cons, elem_of_app_chars, IH. cbn.
  rewrite !elem_of_cons, elem_of_nil. tauto.
Qed.

Lemma elem_of_lstrip_chars (c : ascii) (s : string) :
  c ∈ list_ascii_of_string (Text.lstrip s) → c ∈ list_ascii_of_string s.
Proof.
  induction s as [|d s IH]; [done|]. cbn.
  destruct (Text.isspace d); [|done]. intros ?%IH. by right.
Qed.

Lemma elem_of_strip_chars (c : ascii) (s : string) :
  c ∈ list_ascii_of_string (Text.strip s) → c ∈ list_ascii_of_string s.
Proof.
  unfold Text.strip, Text.rstrip.
  intros H. apply (proj1 (elem_of_rev_chars _ _)) in H.
  apply elem_of_lstrip_chars in H. apply (proj1 (elem_of_rev_chars _ _)) in H.
  by apply elem_of_lstrip_chars.
Qed.

(** No piece of a split text contains the separator. *)
Lemma split_no_separator (sep : ascii) (s piece : string) :
  piece ∈ Text.split sep s → sep ∉ list_ascii_of_string piece.
Proof.
  revert piece. induction s as [|c s IH]; intros piece; cbn.
  - intros ->%list_elem_of_singleton. by intros ?%elem_of_nil.
  - destruct (Ascii.eqb c sep) eqn:Hc.
    + intros [-> | ?]%elem_of_cons; [by intros ?%elem_of_nil | by apply IH].
    + apply Ascii.eqb_neq in Hc.
      destruct (Text.split sep s) as [|h t] eqn:Hsplit.
      * intros ->%list_elem_of_singleton. cbn.
        intros [-> | ?%elem_of_nil]%elem_of_cons; done.
      * intros [-> | Hin]%elem_of_cons.
        -- cbn. intros [-> | Hh]%elem_of_cons; [done|].
           by apply (IH h); [left|].
        -- apply IH. by right.
Qed.

Lemma elem_of_tokens (entry t : string) :
  t ∈ tokens entry ↔
  ∃ piece, piece ∈ Text.split "," entry ∧ t = Text.strip piece ∧ t ≠ "".
Proof.
  unfold tokens. rewrite elem_of_List_filter, list_elem_of_fmap,
    truthy_nonempty. split.
  - intros [(piece & -> & Hpiece) Hne]. by exists piece.
  - intros (piece & Hpiece & -> & Hne). split; [by exists piece | done].
Qed.

(** X12. On a frame with data whose cuisine column holds text, the
    cuisines listed are, in ascending order of strings and once each, the
    non-empty trimmed pieces of the non-missing cuisine entries split at
    commas; no listed cuisine is empty, starts or ends with a blank, or
    contains a comma. *)
Theorem cuisines_listed
    (float_str : Qc -> string) (df : DataFrame) (col : string)
    (vals : list (option string)) :
  df_empty df = false →
  find_column cuisine_columns df = Some col →
  column df col = Some (ObjectSeries vals) →
  ∃ o,
    get_options float_str df = Ok o ∧
    StronglySorted String.le (cuisines o) ∧ NoDup (cuisines o) ∧
    (∀ t, t ∈ cuisines o ↔
          ∃ entry piece,
            Some entry ∈ vals ∧ piece ∈ Text.split "," entry ∧
            t = Text.strip piece ∧ t ≠ "") ∧
    (∀ t, t ∈ cuisines o →
          t ≠ "" ∧ Text.strip t = t ∧
          ("," : ascii) ∉ list_ascii_of_string t).
Proof.
  intros Hdf Hcol Hvals.
  destruct (get_options_Ok float_str df Hdf) as (o & Ho & _ & Hc & _).
  exists o. split; [done|]. rewrite (Hc _ _ Hcol Hvals).
  unfold cuisines_of, all_cuisines. cbn [entries_of].
  assert (Hmem : ∀ t,
    t ∈ merge_sort String.le
          (elements (list_to_set (dropna vals ≫= tokens) : gset string)) ↔
    ∃ entry piece,
      Some entry ∈ vals ∧ piece ∈ Text.split "," entry ∧
      t = Text.strip piece ∧ t ≠ "").
  { intros t. rewrite merge_sort_Permutation, elem_of_elements,
      elem_of_list_to_set, list_elem_of_bind. split.
    - intros (entry & (piece & ? & ? & ?)%elem_of_tokens & ?%elem_of_dropna).
      by exists entry, piece.
    - intros (entry & piece & ? & ? & ? & ?). exists entry.
      split; [apply elem_of_tokens; by exists piece | by apply elem_of_dropna]. }
  split; [apply (StronglySorted_merge_sort _)|].
  split; [rewrite merge_sort_Permutation; apply NoDup_elements|].
  split; [done|].
  intros t (entry & piece & _ & Hpiece & -> & Hne)%Hmem.
  split; [done|]. split; [apply strip_idemp|].
  intros Hin%elem_of_strip_chars. by eapply split_no_separator.
Qed.

Lemma cuisines_listed_witness :
  df_empty padded = false ∧
  find_column cuisine_columns padded = Some "Cuisines" ∧
  column padded "Cuisines"
    = Some (ObjectSeries [Some "Thai, Thai"; None; Some ",Italian"]) ∧
  ∃ o,
    get_options repr_zero padded = Ok o ∧
    StronglySorted String.le (cuisines o) ∧ NoDup (cuisines o) ∧
    (∀ t, t ∈ cuisines o ↔
          ∃ entry piece,
            Some entry ∈ [Some "Thai, Thai"; None; Some ",Italian"] ∧
            piece ∈ Text.split "," entry ∧
            t = Text.strip piece ∧ t ≠ "") ∧
    (∀ t, t ∈ cuisines o →
          t ≠ "" ∧ Text.strip t = t ∧
          ("," : ascii) ∉ list_ascii_of_string t).
Proof.
  exact (conj eq_refl (conj eq_refl (conj eq_refl
    (cuisines_listed repr_zero padded "Cuisines"
       [Some "Thai, Thai"; None; Some ",Italian"] eq_refl eq_refl eq_refl)))).
Defined.

(** *** Positions in a selection *)

Lemma rank_0 (mask : list bool) : rank mask 0 = 0%nat.
Proof. unfold rank. by rewrite take_0. Qed.

Lemma rank_S (b : bool) (mask : list bool) (i : nat) :
  rank (b :: mask) (S i) = ((if b then 1 else 0) + rank mask i)%nat.
Proof. unfold rank. cbn. by destruct b. Qed.

Lemma select_lookup_rank {A} (mask : list bool) (l : list A) (i : nat) :
  mask !! i = Some true → select mask l !! rank mask i = l !! i.
Proof.
  revert l i. induction mask as [|b mask IH]; intros l i Hi; [done|].
  destruct l as [|x l].
  { rewrite lookup_nil. by destruct b, i. }
  destruct i as [|i]; cbn in Hi.
  - injection Hi as ->. by rewrite rank_0.
  - rewrite rank_S. cbn [select]. destruct b; cbn; by apply IH.
Qed.

Lemma select_lookup_inv {A} (mask : list bool) (l : list A) (j : nat) (x : A) :
  select mask l !! j = Some x →
  ∃ i, mask !! i = Some true ∧ l !! i = Some x ∧ rank mask i = j.
Proof.
  revert l j. induction mask as [|b mask IH]; intros l j Hj; [done|].
  destruct l as [|y l]; [by destruct b|]. cbn [select] in Hj.
  destruct b.
  - destruct j as [|j]; cbn in Hj.
    + injection Hj as ->. exists 0%nat. by rewrite rank_0.
    + destruct (IH _ _ Hj) as (i & Hi & Hx & Hr). exists (S i).
      rewrite rank_S, Hr. done.
  - destruct (IH _ _ Hj) as (i & Hi & Hx & Hr). exists (S i).
    rewrite rank_S, Hr. done.
Qed.

Lemma rank_lt (mask : list bool) (i j : nat) :
  mask !! i = Some true → (i < j)%nat → (rank mask i < rank mask j)%nat.
Proof.
  revert i j. induction mask as [|b mask IH]; intros i j Hi Hij; [done|].
  destruct j as [|j]; [lia|]. destruct i as [|i]; cbn in Hi.
  - injection Hi as ->. rewrite rank_0, rank_S. lia.
  - rewrite !rank_S. specialize (IH i j Hi). lia.
Qed.

Lemma rank_inj (mask : list bool) (i j : nat) :
  mask !! i = Some true → mask !! j = Some true →
  rank mask i = rank mask j → i = j.
Proof.
  intros Hi Hj Hr. destruct (Nat.lt_trichotomy i j) as [Hlt | [-> | Hlt]];
    [|done|].
  - pose proof (rank_lt mask i j Hi Hlt). lia.
  - pose proof (rank_lt mask j i Hj Hlt). lia.
Qed.

Lemma select_not_nil {A} (mask : list bool) (l : list A) (i : nat) :
  mask !! i = Some true → (i < length l)%nat → select mask l ≠ [].
Proof.
  intros Hi Hl Hnil. destruct (lookup_lt_is_Some_2 l i Hl) as [x Hx].
  rewrite <-(select_lookup_rank mask l i Hi), Hnil in Hx. done.
Qed.

Lemma length_select {A B} (mask : list bool) (l : list A) (k : list B) :
  length l = length k → length (select mask l) = length (select mask k).
Proof.
  revert l k. induction mask as [|b mask IH]; intros l k Hlen; [done|].
  destruct l, k; try done. cbn. injection Hlen as Hlen.
  destruct b; cbn; by rewrite (IH _ _ Hlen).
Qed.

Lemma well_formed_df_select (mask : list bool) (df : DataFrame) :
  well_formed df = true → well_formed (df_select mask df) = true.
Proof.
  unfold well_formed, df_select. cbn [data nrows].
  rewrite !forallb_forall. intros Hwf [c s] Hin.
  apply in_map_iff in Hin as ([c' s'] & [= <- <-] & Hin).
  specialize (Hwf _ Hin). cbn in *. apply Nat.eqb_eq in Hwf.
  apply Nat.eqb_eq. destruct s' as [vals|vals]; cbn in *;
    apply length_select; by rewrite length_seq.
Qed.

Lemma first_max_unique (l : list (option Qc)) (i j : nat) :
  first_max l i → first_max l j → i = j.
Proof.
  intros (v & Hi & Hv) (w & Hj & Hw).
  destruct (Nat.lt_trichotomy i j) as [Hlt | [-> | Hlt]]; [|done|].
  - destruct (Hw i v Hi) as [_ Hvw]. destruct (Hv j w Hj) as [Hwv _].
    specialize (Hvw Hlt). by apply Qclt_nge in Hvw.
  - destruct (Hv j w Hj) as [_ Hwv]. destruct (Hw i v Hi) as [Hvw _].
    specialize (Hwv Hlt). by apply Qclt_nge in Hwv.
Qed.

(** The first largest value stays the first largest in any selection that
    keeps it. *)
Lemma first_max_select (mask : list bool) (l : list (option Qc)) (i : nat) :
  first_max l i → mask !! i = Some true →
  first_max (select mask l) (rank mask i).
Proof.
  intros (v & Hi & Hv) Hmask. exists v.
  split; [by rewrite select_lookup_rank|].
  intros j w (k & Hk & Hw & <-)%select_lookup_inv.
  destruct (Hv k w Hw) as [Hle Hlt]. split; [done|].
  intros Hrank. apply Hlt.
  destruct (Nat.lt_trichotomy k i) as [? | [-> | Hik]]; [done | lia |].
  pose proof (rank_lt mask i k Hmask Hik). lia.
Qed.

Lemma first_max_not_all_na (l : list (option Qc)) (i : nat) :
  first_max l i → isna_all (FloatSeries l) = false.
Proof.
  intros (v & Hi & _). apply not_true_iff_false. cbn.
  rewrite forallb_forall. intros Hall.
  apply list_elem_of_lookup_2, list_elem_of_In, Hall in Hi. done.
Qed.

Lemma cell_at_select (mask : list bool) (s : Series) (i : nat) :
  mask !! i = Some true →
  cell_at (series_select mask s) (rank mask i) = cell_at s i.
Proof.
  intros Hi. destruct s as [vals|vals]; cbn;
    by rewrite (select_lookup_rank mask vals i Hi).
Qed.

(** *** The best-rated restaurant and the requested cuisine *)

Lemma df_select_not_empty (mask : list bool) (df : DataFrame) (i : nat) :
  df_empty df = false → mask !! i = Some true → (i < nrows df)%nat →
  df_empty (df_select mask df) = false.
Proof.
  unfold df_empty, df_select. cbn [nrows data].
  intros [_ Hdata]%orb_false_iff Hi Hn. apply orb_false_iff. split.
  - apply Nat.eqb_neq. intros Hlen%length_zero_iff_nil.
    by eapply (select_not_nil mask (seq 0 (nrows df)) i);
      [|rewrite length_seq|].
  - by destruct (data df).
Qed.

(** X13. On a well-formed frame, when the row of the best-rated
    restaurant of the location passes the cuisine filter, the restaurant
    reported for the cuisine is the overall one. *)
Theorem best_rated_serves_cuisine
    (re_other : string -> option (string -> bool))
    (df : DataFrame) (model_data : option Model) (req : Request)
    (calls : list ModelInput) (r : Response) :
  well_formed df = true →
  predict re_other df model_data req = (calls, Ok r) →
  ∃ L texts cuisine_filter,
    locate re_other df req = Ok L ∧
    column (df_location L) (cuisine_col L) = Some (ObjectSeries texts) ∧
    str_contains re_other (ObjectSeries texts) (the_cuisine L)
      = Some cuisine_filter ∧
    ∀ rating name vals i,
      rating_col L = Some rating → name_col L = Some name →
      column (df_location L) rating = Some (FloatSeries vals) →
      first_max vals i → cuisine_filter !! i = Some true →
      Popular_Restaurant_serving_cuisine r = Popular_Restaurant r.
Proof.
  intros Hwf (L & st & suggested & HL & Hst & ->)%predict_Ok_inv.
  destruct (statistics_kinds_text _ _ _ Hst) as (texts & cf & Hkinds & Hcf).
  apply statistics_Ok_inv in Hst
    as (kinds & prices & cf' & Hkinds' & _ & _ & _ & Hoverall & Hcf'
        & Hserving).
  rewrite Hkinds in Hkinds'. injection Hkinds' as <-.
  rewrite Hcf in Hcf'. injection Hcf' as <-.
  exists L, texts, cf. do 3 (split; [done|]).
  intros rating name vals i Hrc Hnc Hvals Hmax Hcfi.
  cbn [response Popular_Restaurant Popular_Restaurant_serving_cuisine].
  rewrite Hrc, Hnc in Hoverall, Hserving.
  apply locate_Ok_inv in HL
    as (places & mask & _ & _ & _ & _ & _ & _ & _ & _ & _ & _ & _ & _ & HdfL
        & Hrows).
  rewrite <-HdfL in Hrows.
  assert (HwfL : well_formed (df_location L) = true)
    by (rewrite HdfL; by apply well_formed_df_select).
  assert (Hi : (i < nrows (df_location L))%nat).
  { rewrite <-(well_formed_column _ _ _ HwfL Hvals). cbn.
    destruct Hmax as (v & Hv & _). by eapply lookup_lt_Some. }
  rewrite (df_select_not_empty cf _ i Hrows Hcfi Hi) in Hserving.
  cbn [negb] in Hserving.
  apply best_rated_inv in Hoverall as (ratings & Hratings & Hcases).
  rewrite Hvals in Hratings. injection Hratings as <-.
  destruct Hcases as [[Hna _] | (_ & vals0 & names & i0 & [= <-] & Hnames
                                  & Hmax0 & ->)].
  { by rewrite (first_max_not_all_na _ _ Hmax) in Hna. }
  rewrite (first_max_unique _ _ _ Hmax0 Hmax).
  apply best_rated_inv in Hserving as (ratings' & Hratings' & Hcases').
  rewrite column_df_select, Hvals in Hratings'. injection Hratings' as <-.
  pose proof (first_max_select cf vals i Hmax Hcfi) as Hsub.
  destruct Hcases' as [[Hna _] | (_ & vals1 & names1 & i1 & [= <-] & Hnames1
                                   & Hmax1 & ->)].
  { cbn [series_select] in Hna.
    by rewrite (first_max_not_all_na _ _ Hsub) in Hna. }
  rewrite column_df_select, Hnames in Hnames1. injection Hnames1 as <-.
  rewrite (first_max_unique _ _ _ Hmax1 Hsub).
  by apply cell_at_select.
Qed.

Lemma best_rated_serves_cuisine_witness :
  well_formed downtown = true ∧
  predict reject_other downtown None downtown_request
    = ([], Ok (response downtown_stats (Some (qc 15 1)))) ∧
  ∃ L texts cuisine_filter,
    locate reject_other downtown downtown_request = Ok L ∧
    column (df_location L) (cuisine_col L) = Some (ObjectSeries texts) ∧
    str_contains reject_other (ObjectSeries texts) (the_cuisine L)
      = Some cuisine_filter ∧
    ∀ rating name vals i,
      rating_col L = Some rating → name_col L = Some name →
      column (df_location L) rating = Some (FloatSeries vals) →
      first_max vals i → cuisine_filter !! i = Some true →
      Popular_Restaurant_serving_cuisine
        (response downtown_stats (Some (qc 15 1)))
      = Popular_Restaurant (response downtown_stats (Some (qc 15 1))).
Proof.
  assert (H : predict reject_other downtown None downtown_request
              = ([], Ok (response downtown_stats (Some (qc 15 1)))))
    by by_evaluation.
  exact (conj eq_refl (conj H
    (best_rated_serves_cuisine reject_other downtown None downtown_request
       [] _ eq_refl H))).
Defined.

(** *** From the options to a request *)

Lemma prefix_ci_refl (s : string) : Text.prefix_ci s s = true.
Proof.
  induction s as [|c s IH]; [done|]. cbn. unfold Text.eqb_ci.
  by rewrite Ascii.eqb_refl, IH.
Qed.

Lemma contains_ci_refl (s : string) : Text.contains_ci s s = true.
Proof.
  destruct s; [done|]. cbn [Text.contains_ci]. by rewrite prefix_ci_refl.
Qed.

Lemma strip_empty : Text.strip "" = "".
Proof. reflexivity. Qed.

Lemma elem_of_locations_text float_str (vals : list (option string))
    (s : string) :
  Str s ∈ locations_of float_str (ObjectSeries vals) ↔
  Some s ∈ vals ∧ Text.strip s ≠ "".
Proof.
  cbn [locations_of]. rewrite list_elem_of_fmap.
  setoid_rewrite merge_sort_Permutation.
  setoid_rewrite elem_of_List_filter. setoid_rewrite elem_of_unique.
  setoid_rewrite elem_of_dropna. setoid_rewrite truthy_nonempty.
  split.
  - by intros (x & [= <-] & ?).
  - intros ?. by exists s.
Qed.

(** X14. On a well-formed frame with the required columns and a text
    location column, every location that [get_options] lists and that
    has no special character of patterns is found by [predict]: sent back
    as the location of a request with any non-empty cuisine, it passes
    the location filter, so the call cannot end in 404; it ends in
    success or in the 500 of an exception. *)
Theorem listed_location_is_found
    (float_str : Qc -> string)
    (re_other : string -> option (string -> bool))
    (df : DataFrame) (model_data : option Model) (o : Options)
    (col : string) (vals : list (option string))
    (s cui : string) (p : option Qc) :
  well_formed df = true →
  required_columns df = true →
  find_column location_columns df = Some col →
  column df col = Some (ObjectSeries vals) →
  get_options float_str df = Ok o →
  Str s ∈ locations o →
  Re.literal s = true →
  Text.truthy cui = true →
  let req := {| location := Some s; cuisine := Some cui; price := p |} in
  (∃ L, locate re_other df req = Ok L) ∧
  ∀ calls e, predict re_other df model_data req = (calls, Err e) →
             e = ComputationError.
Proof.
  intros Hwf Hreq Hcol Hvals Ho Hs Hlit Hcui req.
  assert (Hdf : df_empty df = false).
  { destruct (df_empty df) eqn:Hdf; [|done].
    unfold get_options in Ho. by rewrite Hdf in Ho. }
  destruct (get_options_Ok float_str df Hdf) as (o' & Ho' & Hloc & _).
  rewrite Ho in Ho'. injection Ho' as <-.
  rewrite (Hloc _ _ Hcol Hvals) in Hs.
  apply elem_of_locations_text in Hs as [Hin Hne].
  assert (Hts : Text.truthy s = true).
  { apply truthy_nonempty. intros ->. by rewrite strip_empty in Hne. }
  destruct (required_columns_inv _ Hreq) as (lc & cc & pc & Hlc & Hcc & Hpc).
  rewrite Hcol in Hlc. injection Hlc as <-.
  assert (HL : ∃ L, locate re_other df req = Ok L).
  { rewrite (locate_resolved re_other df req s cui col cc pc
               (ObjectSeries vals)) by done.
    rewrite (literal_str_contains _ _ _ Hlit).
    apply list_elem_of_lookup in Hin as [i Hi].
    rewrite (df_select_not_empty _ df i Hdf); [by eexists| |].
    - unfold substring_mask, mask_of. rewrite list_lookup_fmap, Hi. cbn.
      by rewrite contains_ci_refl.
    - rewrite <-(well_formed_column df col _ Hwf Hvals). cbn.
      by eapply lookup_lt_Some. }
  split; [done|]. destruct HL as [L HL].
  intros calls e [_ [He | (L' & _ & He)]]%predict_Err_inv.
  - congruence.
  - by eapply statistics_Err.
Qed.

Lemma listed_location_is_found_witness :
  well_formed downtown = true ∧
  required_columns downtown = true ∧
  find_column location_columns downtown = Some "Location" ∧
  get_options repr_zero downtown
    = Ok {| locations := [Str "Downtown"];
            cuisines := ["Italian"; "Mexican"; "Thai"];
            total_records := 3 |} ∧
  Re.literal "Downtown" = true ∧
  (∃ L, locate reject_other downtown
          {| location := Some "Downtown"; cuisine := Some "Thai";
             price := None |} = Ok L) ∧
  ∀ calls e,
    predict reject_other downtown None
      {| location := Some "Downtown"; cuisine := Some "Thai";
         price := None |} = (calls, Err e) →
    e = ComputationError.
Proof.
  assert (Ho : get_options repr_zero downtown
    = Ok {| locations := [Str "Downtown"];
            cuisines := ["Italian"; "Mexican"; "Thai"];
            total_records := 3 |}) by by_evaluation.
  assert (Hs : Str "Downtown" ∈ [Str "Downtown"]) by left.
  exact (conj eq_refl (conj eq_refl (conj eq_refl (conj Ho (conj eq_refl
    (listed_location_is_found repr_zero reject_other downtown None _
       "Location" _ "Downtown" "Thai" None
       eq_refl eq_refl eq_refl eq_refl Ho Hs eq_refl eq_refl)))))).
Defined.

(** *** Letter case in the filters *)

Lemma lower_special (c : ascii) : Re.special (Text.lower c) = Re.special c.
Proof. by destruct c as [[] [] [] [] [] [] [] []]. Qed.

Lemma lower_dot (c : ascii) :
  Ascii.eqb (Text.lower c) "." = Ascii.eqb c ".".
Proof. by destruct c as [[] [] [] [] [] [] [] []]. Qed.

Lemma search_ext (r r' : list Re.atom) :
  (∀ s, Re.match_here r s = Re.match_here r' s) →
  ∀ s, Re.search r s = Re.search r' s.
Proof.
  intros Hr. induction s as [|x s IH]; cbn [Re.search]; rewrite Hr; [done|].
  by rewrite IH.
Qed.

(** Patterns of the fragment that differ in letter case only match the
    same texts. *)
Lemma parse_same_up_to_case (p q : string) (r : list Re.atom) :
  same_up_to_case p q → Re.parse p = Some r →
  ∃ r', Re.parse q = Some r' ∧
        ∀ s, Re.match_here r s = Re.match_here r' s.
Proof.
  unfold same_up_to_case. revert q r.
  induction p as [|c p IH]; intros [|d q] r Hsame Hp; try done.
  - injection Hp as <-. by exists [].
  - cbn in Hsame. injection Hsame as Hcd Hsame. cbn [Re.parse] in Hp |- *.
    assert (Ascii.eqb d "." = Ascii.eqb c ".") as ->
      by (by rewrite <-(lower_dot d), <-Hcd, lower_dot).
    assert (Re.special d = Re.special c) as ->
      by (by rewrite <-(lower_special d), <-Hcd, lower_special).
    destruct (Ascii.eqb c ".").
    + destruct (Re.parse p) as [r0|] eqn:Hr0; [|done]. injection Hp as <-.
      destruct (IH q r0 Hsame eq_refl) as (r' & -> & Hr').
      eexists. split; [done|]. intros [|x s]; [done|].
      cbn [Re.match_here]. by rewrite Hr'.
    + destruct (Re.special c); [done|].
      destruct (Re.parse p) as [r0|] eqn:Hr0; [|done]. injection Hp as <-.
      destruct (IH q r0 Hsame eq_refl) as (r' & -> & Hr').
      eexists. split; [done|]. intros [|x s]; [done|].
      cbn [Re.match_here Re.atom_match]. unfold Text.eqb_ci.
      by rewrite Hcd, Hr'.
Qed.

Lemma str_contains_same_up_to_case re_other (p q : string) :
  same_up_to_case p q → is_Some (Re.parse p) →
  ∀ s, str_contains re_other s p = str_contains re_other s q.
Proof.
  intros Hsame [r Hr] s.
  destruct (parse_same_up_to_case p q r Hsame Hr) as (r' & Hr' & Hmatch).
  destruct s as [vals|vals]; [|done]. unfold str_contains, re_compile.
  rewrite Hr, Hr'. cbn. f_equal. unfold mask_of. apply list_fmap_ext.
  intros _ [x|] _; [|done]. by apply search_ext.
Qed.

Lemma truthy_same_up_to_case (p q : string) :
  same_up_to_case p q → Text.truthy p = Text.truthy q.
Proof. unfold same_up_to_case. by destruct p, q. Qed.

(** The statistics use the cuisine text through the cuisine filter only. *)
Lemma statistics_same_filter re_other (L : Located) (loc cui : string) :
  (∀ s, str_contains re_other s (the_cuisine L)
        = str_contains re_other s cui) →
  statistics re_other
    {| the_location := loc; the_cuisine := cui;
       location_col := location_col L; cuisine_col := cuisine_col L;
       price_col := price_col L; rating_col := rating_col L;
       name_col := name_col L; df_location := df_location L |}
  = statistics re_other L.
Proof.
  intros Hsame. unfold statistics.
  cbn [the_cuisine cuisine_col price_col rating_col name_col df_location].
  destruct (column (df_location L) (cuisine_col L)) as [kinds|]; [|done].
  cbn [attempt mbind Outcome_bind].
  destruct (column (df_location L) (price_col L)) as [prices|]; [|done].
  cbn [attempt mbind Outcome_bind].
  destruct (series_mean prices); [|done]. cbn [attempt mbind Outcome_bind].
  by rewrite Hsame.
Qed.

(** X15. The filters ignore letter case: for a location and a cuisine
    made of ordinary characters and dots, a request that differs from
    another in the letter case of its location and cuisine only gets the
    same average price, popular cuisine and restaurants, or an error of
    the same status code. *)
Theorem matching_ignores_case
    (re_other : string -> option (string -> bool))
    (df : DataFrame) (model_data : option Model)
    (loc loc' cui cui' : string) (p : option Qc) :
  same_up_to_case loc loc' → same_up_to_case cui cui' →
  is_Some (Re.parse loc) → is_Some (Re.parse cui) →
  match (predict re_other df model_data
           {| location := Some loc; cuisine := Some cui; price := p |}).2,
        (predict re_other df model_data
           {| location := Some loc'; cuisine := Some cui'; price := p |}).2
  with
  | Ok r, Ok r' =>
      average_price r = average_price r' ∧
      popular_cuisine r = popular_cuisine r' ∧
      Popular_Restaurant r = Popular_Restaurant r' ∧
      Popular_Restaurant_serving_cuisine r
        = Popular_Restaurant_serving_cuisine r'
  | Err e, Err e' => status_code e = status_code e'
  | _, _ => False
  end.
Proof.
  intros Hloc Hcui Hploc Hpcui. unfold predict, locate.
  cbn [location cuisine].
  rewrite <-(truthy_same_up_to_case _ _ Hloc),
    <-(truthy_same_up_to_case _ _ Hcui).
  destruct (negb (Text.truthy loc) || negb (Text.truthy cui)); [done|].
  destruct (df_empty df); [done|].
  destruct (find_column location_columns df) as [lc|]; [|done].
  destruct (find_column cuisine_columns df) as [cc|]; [|done].
  destruct (find_column price_columns df) as [pc|]; [|done].
  destruct (column df lc) as [places|]; [|done].
  cbn [attempt mbind Outcome_bind].
  rewrite <-(str_contains_same_up_to_case re_other _ _ Hloc Hploc).
  destruct (str_contains re_other places loc) as [mask|]; [|done].
  cbn [attempt mbind Outcome_bind].
  destruct (df_empty (df_select mask df)); [done|].
  set (L := {| the_location := loc; the_cuisine := cui;
               location_col := lc; cuisine_col := cc; price_col := pc;
               rating_col := find_column rating_columns df;
               name_col := find_column name_columns df;
               df_location := df_select mask df |}).
  set (L' := {| the_location := loc'; the_cuisine := cui';
                location_col := lc; cuisine_col := cc; price_col := pc;
                rating_col := find_column rating_columns df;
                name_col := find_column name_columns df;
                df_location := df_select mask df |}).
  assert (Hst : statistics re_other L' = statistics re_other L).
  { apply (statistics_same_filter re_other L loc' cui'). intros s.
    exact (str_contains_same_up_to_case _ _ _ Hcui Hpcui s). }
  rewrite Hst.
  destruct (statistics re_other L) as [st|e]; [|done].
  unfold suggest. by destruct model_data as [model|].
Qed.

Lemma matching_ignores_case_witness :
  same_up_to_case "Downtown" "dOWNTOWN" ∧
  same_up_to_case "Italian" "ITALIAN" ∧
  match (predict reject_other downtown None
           {| location := Some "Downtown"; cuisine := Some "Italian";
              price := None |}).2,
        (predict reject_other downtown None
           {| location := Some "dOWNTOWN"; cuisine := Some "ITALIAN";
              price := None |}).2
  with
  | Ok r, Ok r' =>
      average_price r = average_price r' ∧
      popular_cuisine r = popular_cuisine r' ∧
      Popular_Restaurant r = Popular_Restaurant r' ∧
      Popular_Restaurant_serving_cuisine r
        = Popular_Restaurant_serving_cuisine r'
  | Err e, Err e' => status_code e = status_code e'
  | _, _ => False
  end.
Proof.
  exact (conj eq_refl (conj eq_refl
    (matching_ignores_case reject_other downtown None
       "Downtown" "dOWNTOWN" "Italian" "ITALIAN" None eq_refl eq_refl
       (ex_intro _ _ eq_refl) (ex_intro _ _ eq_refl)))).
Defined.

(** *** The average price and the prices of the location *)





(** *** A request that is answered *)

(** X17. A valid request over a dataset with data, text location and
    cuisine columns, numeric price and rating columns, a location and a
    cuisine that compile as patterns and at least one row for the
    location always gets a response: the model, loaded or not, raising or
    not, cannot make the call fail. *)
Theorem predict_answers
    (re_other : string -> option (string -> bool))
    (df : DataFrame) (model_data : option Model)
    (req : Request) (loc cui lc cc pc : string)
    (places kinds : list (option string)) (prices : list (option Qc))
    (mask : list bool) :
  location req = Some loc → cuisine req = Some cui →
  Text.truthy loc = true → Text.truthy cui = true →
  df_empty df = false →
  find_column location_columns df = Some lc →
  find_column cuisine_columns df = Some cc →
  find_column price_columns df = Some pc →
  column df lc = Some (ObjectSeries places) →
  column df cc = Some (ObjectSeries kinds) →
  column df pc = Some (FloatSeries prices) →
  (∀ rating, find_column rating_columns df = Some rating →
     ∃ ratings, column df rating = Some (FloatSeries ratings)) →
  str_contains re_other (ObjectSeries places) loc = Some mask →
  df_empty (df_select mask df) = false →
  is_Some (re_compile re_other cui) →
  ∃ calls r,
    predict re_other df model_data req = (calls, Ok r) ∧
    (calls = [] ↔ model_data = None).
Proof.
  intros Hloc Hcui Htl Htc Hdf Hlc Hcc Hpc Hplaces Hkinds Hprices Hratings
    Hmask Hrows Hcompile.
  destruct (predict_succeeds re_other df model_data req loc cui lc cc pc
              places kinds prices mask) as (calls & r & Hp); try done.
  exists calls, r. split; [done|].
  pose proof (predict_model_calls_aux re_other df model_data req) as Hc.
  rewrite Hp in Hc. destruct model_data as [model|].
  - destruct Hc as [x ->]. by split.
  - by subst calls.
Qed.

Lemma predict_answers_witness :
  df_empty downtown = false ∧
  str_contains reject_other
    (ObjectSeries [Some "Downtown"; Some "Downtown"; Some "Downtown"])
    "Downtown" = Some [true; true; true] ∧
  df_empty (df_select [true; true; true] downtown) = false ∧
  ∃ calls r,
    predict reject_other downtown (Some model_raising) downtown_request
      = (calls, Ok r) ∧
    (calls = [] ↔ Some model_raising = None).
Proof.
  assert (Hratings : ∀ rating,
    find_column rating_columns downtown = Some rating →
    ∃ ratings, column downtown rating = Some (FloatSeries ratings)).
  { intros rating [= <-]. by eexists. }
  exact (conj eq_refl (conj eq_refl (conj eq_refl
    (predict_answers reject_other downtown (Some model_raising)
       downtown_request "Downtown" "Italian"
       "Location" "Cuisines" "Price_for_one"
       [Some "Downtown"; Some "Downtown"; Some "Downtown"]
       [Some "Italian"; Some "Italian,Mexican"; Some "Thai"]
       [Some (qc 10 1); Some (qc 20 1); Some (qc 30 1)]
       [true; true; true]
       eq_refl eq_refl eq_refl eq_refl eq_refl eq_refl eq_refl eq_refl
       eq_refl eq_refl eq_refl Hratings eq_refl eq_refl
       (ex_intro _ _ eq_refl))))).
Defined.

(** *** The order of the rows *)

Lemma take_rows_all_from {A} (pre l : list A) :
  take_rows (seq (length pre) (length l)) (pre ++ l)%list = l.
Proof.
  revert pre. induction l as [|x l IH]; intros pre; [done|].
  cbn [length seq]. unfold take_rows. cbn [omap list_omap].
  rewrite list_lookup_middle by done. cbn. f_equal.
  specialize (IH (pre ++ [x])%list).
  rewrite length_app, Nat.add_1_r, <-app_assoc in IH. exact IH.
Qed.

Lemma take_rows_all {A} (l : list A) : take_rows (seq 0 (length l)) l = l.
Proof. apply (take_rows_all_from [] l). Qed.

Lemma take_rows_Permutation {A} (js js' : list nat) (l : list A) :
  js ≡ₚ js' → take_rows js l ≡ₚ take_rows js' l.
Proof. unfold take_rows. by intros ->. Qed.

Lemma take_rows_fmap {A B} (f : A → B) (js : list nat) (l : list A) :
  take_rows js (f <$> l) = f <$> take_rows js l.
Proof.
  unfold take_rows. induction js as [|j js IH]; [done|].
  cbn [omap list_omap]. rewrite list_lookup_fmap.
  destruct (l !! j); cbn; by rewrite IH.
Qed.

Lemma select_take_rows {A} (m : list bool) (l : list A) (js : list nat) :
  length m = length l → (∀ j, j ∈ js → (j < length l)%nat) →
  select (take_rows js m) (take_rows js l)
  = take_rows (filter (λ j, m !! j = Some true) js) l.
Proof.
  intros Hlen. induction js as [|j js IH]; intros Hin; [done|].
  destruct (lookup_lt_is_Some_2 l j) as [x Hx]; [apply Hin; left|].
  destruct (lookup_lt_is_Some_2 m j) as [b Hb];
    [rewrite Hlen; apply Hin; left|].
  assert (IH' : select (take_rows js m) (take_rows js l)
               = take_rows (filter (λ j, m !! j = Some true) js) l).
  { apply IH. intros i Hi. apply Hin. by right. }
  rewrite filter_cons. unfold take_rows in *. cbn [omap list_omap].
  rewrite Hx, Hb. cbn. destruct b.
  - rewrite decide_True by done. cbn [omap list_omap]. rewrite Hx. cbn. by f_equal.
  - by rewrite decide_False by done.
Qed.

Lemma series_take_all (s : Series) :
  series_take (seq 0 (series_length s)) s = s.
Proof.
  destruct s as [vals|vals]; cbn [series_length series_take];
    by rewrite take_rows_all.
Qed.

Lemma df_take_all (df : DataFrame) :
  well_formed df = true → df_take (seq 0 (nrows df)) df = df.
Proof.
  destruct df as [n d]. unfold well_formed, df_take. cbn [nrows data].
  intros Hwf. f_equal.
  - rewrite length_take_rows; [apply length_seq|].
    intros i Hi. by rewrite length_seq; apply elem_of_seq in Hi as [_ Hi].
  - induction d as [|[c s] d IH]; [done|].
    cbn in Hwf. apply andb_true_iff in Hwf as [Hs Hd].
    apply Nat.eqb_eq in Hs. cbn [map fst snd].
    rewrite <-Hs at 1. rewrite series_take_all. f_equal. by apply IH.
Qed.

Lemma series_select_take (m : list bool) (js : list nat) (s : Series) :
  length m = series_length s →
  (∀ j, j ∈ js → (j < series_length s)%nat) →
  series_select (take_rows js m) (series_take js s)
  = series_take (filter (λ j, m !! j = Some true) js) s.
Proof.
  intros Hlen Hin.
  destruct s as [vals|vals]; cbn in *; by rewrite select_take_rows.
Qed.

Lemma df_select_df_take (m : list bool) (js : list nat) (df : DataFrame) :
  well_formed df = true → length m = nrows df →
  (∀ j, j ∈ js → (j < nrows df)%nat) →
  df_select (take_rows js m) (df_take js df)
  = df_take (filter (λ j, m !! j = Some true) js) df.
Proof.
  intros Hwf Hlen Hin. unfold df_select, df_take. cbn [nrows data]. f_equal.
  - rewrite (length_select _ _ (take_rows js (seq 0 (nrows df)))).
    + rewrite select_take_rows; [done|by rewrite length_seq|].
      intros j Hj. rewrite length_seq. by apply Hin.
    + by rewrite length_seq.
  - rewrite map_map. apply map_ext_in. intros [c s] Hcs. cbn [fst snd].
    unfold well_formed in Hwf. rewrite forallb_forall in Hwf.
    specialize (Hwf _ Hcs). cbn in Hwf. apply Nat.eqb_eq in Hwf.
    rewrite series_select_take; [done|congruence|].
    intros j Hj. rewrite Hwf. by apply Hin.
Qed.

Lemma str_contains_take re_other (js : list nat) (s : Series) (pat : string) :
  str_contains re_other (series_take js s) pat
  = take_rows js <$> str_contains re_other s pat.
Proof.
  destruct s as [vals|vals]; [|done]. cbn.
  destruct (re_compile re_other pat) as [f|]; [|done]. cbn.
  unfold mask_of. by rewrite take_rows_fmap.
Qed.

Lemma length_str_contains re_other (s : Series) (pat : string)
    (m : list bool) :
  str_contains re_other s pat = Some m → length m = series_length s.
Proof.
  destruct s as [vals|vals]; [|done]. cbn.
  destruct (re_compile re_other pat) as [f|]; [|done]. cbn.
  intros [= <-]. unfold mask_of. by rewrite length_fmap.
Qed.

Lemma df_empty_df_take (js js' : list nat) (df : DataFrame) :
  js ≡ₚ js' → df_empty (df_take js' df) = df_empty (df_take js df).
Proof.
  intros Hperm. unfold df_empty, df_take. cbn [nrows data].
  rewrite (Permutation_length (take_rows_Permutation js js' _ Hperm)).
  by destruct (data df).
Qed.

(** The statistics that do not look at the order. *)
Lemma max_list_Permutation (l l' : list nat) :
  l ≡ₚ l' → max_list l = max_list l'.
Proof. induction 1; cbn; lia. Qed.

Lemma occurrences_Permutation {A} `{EqDecision A} (x : A) (l l' : list A) :
  l ≡ₚ l' → occurrences x l = occurrences x l'.
Proof. unfold occurrences. by intros ->. Qed.

Lemma merge_sort_Permutation_eq {A} (R : relation A)
    `{!RelDecision R, !PartialOrder R, !Total R} (l l' : list A) :
  l ≡ₚ l' → merge_sort R l = merge_sort R l'.
Proof.
  intros Hperm. apply (StronglySorted_unique R).
  - apply StronglySorted_merge_sort; apply _.
  - apply StronglySorted_merge_sort; apply _.
  - by rewrite !merge_sort_Permutation.
Qed.

Lemma mode_Permutation {A} `{EqDecision A} (R : relation A)
    `{!RelDecision R, !PartialOrder R, !Total R} (l l' : list A) :
  l ≡ₚ l' → mode R l = mode R l'.
Proof.
  intros Hperm. unfold mode. apply merge_sort_Permutation_eq; [apply _..|].
  apply NoDup_Permutation; [apply NoDup_remove_dups..|].
  intros x. rewrite !elem_of_remove_dups, !list_elem_of_filter.
  rewrite (occurrences_Permutation x l l' Hperm).
  rewrite (max_list_Permutation ((λ y, occurrences y l) <$> l)
             ((λ y, occurrences y l') <$> l')).
  - by rewrite Hperm.
  - rewrite <-Hperm. apply reflexive_eq, list_fmap_ext.
    intros i y _. by apply occurrences_Permutation.
Qed.

Lemma dropna_Permutation {A} (l l' : list (option A)) :
  l ≡ₚ l' → dropna l ≡ₚ dropna l'.
Proof. unfold dropna. by intros ->. Qed.

Lemma mode_first_take (js js' : list nat) (s : Series) :
  js ≡ₚ js' → mode_first (series_take js' s) = mode_first (series_take js s).
Proof.
  intros Hperm. destruct s as [vals|vals]; cbn [mode_first series_take];
    f_equal; f_equal; apply mode_Permutation; try apply _;
    by apply dropna_Permutation, take_rows_Permutation.
Qed.

Lemma forallb_Permutation {A} (f : A → bool) (l l' : list A) :
  l ≡ₚ l' → forallb f l = forallb f l'.
Proof.
  induction 1 as [|x l l' _ IH|x y l|l l' l'' _ IH1 _ IH2]; cbn.
  - done.
  - by rewrite IH.
  - by destruct (f x), (f y).
  - congruence.
Qed.

Lemma isna_all_take (js js' : list nat) (s : Series) :
  js ≡ₚ js' → isna_all (series_take js' s) = isna_all (series_take js s).
Proof.
  intros Hperm. destruct s as [vals|vals]; cbn [isna_all series_take];
    apply forallb_Permutation; by apply take_rows_Permutation.
Qed.

Lemma series_mean_take (js js' : list nat) (s : Series) :
  js ≡ₚ js' →
  is_Some (series_mean (series_take js' s))
  ↔ is_Some (series_mean (series_take js s)).
Proof.
  intros Hperm. destruct s as [vals|vals]; cbn [series_mean series_take].
  - pose proof (dropna_Permutation _ _
                  (take_rows_Permutation js js' vals Hperm)) as Hd.
    destruct (dropna (take_rows js vals)) as [|x l],
      (dropna (take_rows js' vals)) as [|x' l']; try done.
    + by apply Permutation_nil_cons in Hd.
    + symmetry in Hd. by apply Permutation_nil_cons in Hd.
  - by split.
Qed.

Lemma take_rows_lookup {A} (js : list nat) (l : list A) (i : nat) :
  (∀ j, j ∈ js → (j < length l)%nat) →
  take_rows js l !! i = js !! i ≫= (l !!.).
Proof.
  revert i. induction js as [|j js IH]; intros i Hin; [done|].
  destruct (lookup_lt_is_Some_2 l j) as [x Hx]; [apply Hin; left|].
  unfold take_rows in *. cbn [omap list_omap]. rewrite Hx.
  destruct i as [|i]; cbn; [done|].
  apply IH. intros k Hk. apply Hin. by right.
Qed.

Lemma cell_at_take (js : list nat) (s : Series) (i j : nat) :
  (∀ k, k ∈ js → (k < series_length s)%nat) →
  js !! i = Some j →
  cell_at (series_take js s) i = cell_at s j.
Proof.
  intros Hin Hj. destruct s as [vals|vals]; cbn [cell_at series_take];
    by rewrite take_rows_lookup, Hj.
Qed.

(** With no rating shared by two rows, the best-rated row of a selection
    is the same row in whatever order the selection comes. *)
Lemma first_max_take_distinct (js js' : list nat) (rvals : list (option Qc))
    (i i' : nat) :
  js ≡ₚ js' → (∀ j, j ∈ js → (j < length rvals)%nat) →
  distinct_values rvals →
  first_max (take_rows js rvals) i → first_max (take_rows js' rvals) i' →
  ∃ j, js !! i = Some j ∧ js' !! i' = Some j.
Proof.
  intros Hperm Hin Hdistinct (v & Hv & Hmax) (v' & Hv' & Hmax').
  assert (Hin' : ∀ j, j ∈ js' → (j < length rvals)%nat).
  { intros j Hj. apply Hin. by rewrite Hperm. }
  assert (Hle : (v' ≤ v)%Qc).
  { assert (Some v' ∈ take_rows js rvals) as [k Hk]%list_elem_of_lookup.
    { rewrite (take_rows_Permutation js js' rvals Hperm).
      by eapply list_elem_of_lookup_2. }
    by apply (Hmax k v'). }
  assert (Hge : (v ≤ v')%Qc).
  { assert (Some v ∈ take_rows js' rvals) as [k Hk]%list_elem_of_lookup.
    { rewrite <-(take_rows_Permutation js js' rvals Hperm).
      by eapply list_elem_of_lookup_2. }
    by apply (Hmax' k v). }
  assert (v' = v) as -> by by apply Qcle_antisym.
  rewrite take_rows_lookup in Hv, Hv' by done.
  destruct (js !! i) as [j|]; [|done].
  destruct (js' !! i') as [j'|]; [|done]. cbn in Hv, Hv'.
  exists j. by rewrite (Hdistinct j j' v Hv Hv').
Qed.

(** The rating lookup succeeds or raises whatever the order of the rows,
    and finds the same name when no rating is shared. *)
Lemma best_rated_take (js js' : list nat) (df : DataFrame)
    (rating name : string) (otherwise : Cell) :
  well_formed df = true → js ≡ₚ js' →
  (∀ j, j ∈ js → (j < nrows df)%nat) →
  match best_rated (df_take js df) rating name otherwise,
        best_rated (df_take js' df) rating name otherwise with
  | Ok c, Ok c' =>
      (∀ rvals, column df rating = Some (FloatSeries rvals) →
                distinct_values rvals) → c' = c
  | Err e, Err e' => e' = e
  | _, _ => False
  end.
Proof.
  intros Hwf Hperm Hin.
  assert (Hin' : ∀ j, j ∈ js' → (j < nrows df)%nat).
  { intros j Hj. apply Hin. by rewrite Hperm. }
  unfold best_rated. rewrite !column_df_take.
  destruct (column df rating) as [ratings|] eqn:Hratings; [|done].
  cbn [fmap option_fmap option_map attempt mbind Outcome_bind].
  rewrite (isna_all_take js js' ratings Hperm).
  destruct (isna_all (series_take js ratings)) eqn:Hna; [done|].
  cbn [negb]. destruct ratings as [vals|vals]; [done|].
  assert (Hna' := Hna). rewrite <-(isna_all_take js js' _ Hperm) in Hna'.
  cbn [series_take series_idxmax] in *.
  destruct (idxmax_is_Some _ Hna) as [i Hi].
  destruct (idxmax_is_Some _ Hna') as [i' Hi'].
  rewrite Hi, Hi'. cbn [attempt mbind Outcome_bind].
  destruct (column df name) as [names|] eqn:Hnames; [|done].
  cbn [fmap option_fmap option_map attempt mbind Outcome_bind].
  intros Hdistinct.
  pose proof (well_formed_column df rating _ Hwf Hratings) as Hlen.
  pose proof (well_formed_column df name _ Hwf Hnames) as Hlen'.
  cbn [series_length] in Hlen.
  destruct (first_max_take_distinct js js' vals i i' Hperm) as (j & Hj & Hj').
  - by rewrite Hlen.
  - by apply Hdistinct.
  - by apply idxmax_first_max.
  - by apply idxmax_first_max.
  - rewrite (cell_at_take js names i j), (cell_at_take js' names i' j);
      [done|by rewrite Hlen'|done|by rewrite Hlen'|done].
Qed.

(** The statistics of the same rows in two orders: both calls raise, or
    both return, with the same most frequent cuisine and, when no rating
    is shared, the same restaurants. *)
Lemma statistics_take re_other (df : DataFrame) (js js' : list nat)
    (loc cui lc cc pc : string) (rc nc : option string) :
  well_formed df = true → js ≡ₚ js' →
  (∀ j, j ∈ js → (j < nrows df)%nat) →
  match statistics re_other
          {| the_location := loc; the_cuisine := cui; location_col := lc;
             cuisine_col := cc; price_col := pc; rating_col := rc;
             name_col := nc; df_location := df_take js df |},
        statistics re_other
          {| the_location := loc; the_cuisine := cui; location_col := lc;
             cuisine_col := cc; price_col := pc; rating_col := rc;
             name_col := nc; df_location := df_take js' df |} with
  | Ok st, Ok st' =>
      st_popular_cuisine st' = st_popular_cuisine st ∧
      ((∀ rating rvals, rc = Some rating →
          column df rating = Some (FloatSeries rvals) →
          distinct_values rvals) →
       st_most_popular_restaurant_name st'
         = st_most_popular_restaurant_name st ∧
       st_most_popular_cuisine_restaurant_name st'
         = st_most_popular_cuisine_restaurant_name st)
  | Err e, Err e' => e' = e
  | _, _ => False
  end.
Proof.
  intros Hwf Hperm Hin.
  assert (Hin' : ∀ j, j ∈ js' → (j < nrows df)%nat).
  { intros j Hj. apply Hin. by rewrite Hperm. }
  set (D := ∀ rating rvals, rc = Some rating →
              column df rating = Some (FloatSeries rvals) →
              distinct_values rvals).
  unfold statistics.
  cbn [the_cuisine cuisine_col price_col rating_col name_col df_location].
  rewrite !column_df_take.
  destruct (column df cc) as [kinds|] eqn:Hkinds; [|done].
  destruct (column df pc) as [prices|]; [|done].
  cbn [fmap option_fmap option_map attempt mbind Outcome_bind].
  pose proof (series_mean_take js js' prices Hperm) as Hmean.
  destruct (series_mean (series_take js prices)) as [avg|],
    (series_mean (series_take js' prices)) as [avg'|];
    [ | exfalso; by destruct (proj2 Hmean (mk_is_Some _ _ eq_refl)) as [? [=]]
      | exfalso; by destruct (proj1 Hmean (mk_is_Some _ _ eq_refl)) as [? [=]]
      | done ].
  clear Hmean. cbn [attempt mbind Outcome_bind].
  assert (Hfirst :
    match match rc, nc with
          | Some rating, Some name =>
              best_rated (df_take js df) rating name (Str "Not Available")
          | _, _ => Ok (Str "Not Available")
          end,
          match rc, nc with
          | Some rating, Some name =>
              best_rated (df_take js' df) rating name (Str "Not Available")
          | _, _ => Ok (Str "Not Available")
          end with
    | Ok c, Ok c' => D → c' = c
    | Err e, Err e' => e' = e
    | _, _ => False
    end).
  { destruct rc as [rating|] eqn:Hrc, nc as [name|]; try done.
    pose proof (best_rated_take js js' df rating name (Str "Not Available")
                  Hwf Hperm Hin) as Hbest.
    destruct (best_rated (df_take js df) _ _ _),
      (best_rated (df_take js' df) _ _ _); try done.
    intros HD. apply Hbest. intros rvals. by apply HD. }
  destruct (match rc, nc with
            | Some rating, Some name =>
                best_rated (df_take js df) rating name (Str "Not Available")
            | _, _ => Ok (Str "Not Available")
            end) as [best|e],
    (match rc, nc with
     | Some rating, Some name =>
         best_rated (df_take js' df) rating name (Str "Not Available")
     | _, _ => Ok (Str "Not Available")
     end) as [best'|e']; try done.
  cbn [mbind Outcome_bind].
  rewrite !str_contains_take.
  destruct (str_contains re_other kinds cui) as [m|] eqn:Hm; [|done].
  cbn [fmap option_fmap option_map attempt mbind Outcome_bind].
  assert (Hlen : length m = nrows df).
  { rewrite (length_str_contains _ _ _ _ Hm).
    by apply (well_formed_column df cc). }
  rewrite !df_select_df_take by done.
  assert (Hsel : filter (λ j, m !! j = Some true) js
                 ≡ₚ filter (λ j, m !! j = Some true) js') by by rewrite Hperm.
  set (ks := filter (λ j, m !! j = Some true) js) in *.
  set (ks' := filter (λ j, m !! j = Some true) js') in *.
  rewrite (df_empty_df_take ks ks' df Hsel).
  assert (Hsecond :
    match match rc, nc with
          | Some rating, Some name =>
              if negb (df_empty (df_take ks df))
              then best_rated (df_take ks df) rating name (Str "Not Found")
              else Ok (Str "Not Found")
          | _, _ => Ok (Str "Not Found")
          end,
          match rc, nc with
          | Some rating, Some name =>
              if negb (df_empty (df_take ks df))
              then best_rated (df_take ks' df) rating name (Str "Not Found")
              else Ok (Str "Not Found")
          | _, _ => Ok (Str "Not Found")
          end with
    | Ok c, Ok c' => D → c' = c
    | Err e, Err e' => e' = e
    | _, _ => False
    end).
  { destruct rc as [rating|] eqn:Hrc, nc as [name|]; try done.
    destruct (df_empty (df_take ks df)); [done|].
    assert (Hks : ∀ j, j ∈ ks → (j < nrows df)%nat).
    { intros j [_ Hj]%list_elem_of_filter. by apply Hin. }
    pose proof (best_rated_take ks ks' df rating name (Str "Not Found")
                  Hwf Hsel Hks) as Hbest.
    destruct (best_rated (df_take ks df) _ _ _),
      (best_rated (df_take ks' df) _ _ _); try done.
    intros HD. apply Hbest. intros rvals. by apply HD. }
  destruct (match rc, nc with
            | Some rating, Some name =>
                if negb (df_empty (df_take ks df))
                then best_rated (df_take ks df) rating name (Str "Not Found")
                else Ok (Str "Not Found")
            | _, _ => Ok (Str "Not Found")
            end) as [served|e],
    (match rc, nc with
     | Some rating, Some name =>
         if negb (df_empty (df_take ks df))
         then best_rated (df_take ks' df) rating name (Str "Not Found")
         else Ok (Str "Not Found")
     | _, _ => Ok (Str "Not Found")
     end) as [served'|e']; try done.
  cbn [mbind Outcome_bind st_popular_cuisine st_most_popular_restaurant_name
       st_most_popular_cuisine_restaurant_name].
  split; [by rewrite (mode_first_take js js' kinds Hperm)|].
  intros HD. split; [by apply Hfirst | by apply Hsecond].
Qed.

Lemma df_select_as_take (m : list bool) (df : DataFrame) :
  well_formed df = true → length m = nrows df →
  df_select m df
  = df_take (filter (λ j, m !! j = Some true) (seq 0 (nrows df))) df.
Proof.
  intros Hwf Hlen.
  rewrite <-(df_select_df_take m (seq 0 (nrows df)) df Hwf Hlen).
  - rewrite <-Hlen at 1. by rewrite take_rows_all, df_take_all.
  - intros j Hj. apply elem_of_seq in Hj. lia.
Qed.

Lemma df_empty_reordered (idxs : list nat) (df : DataFrame) :
  well_formed df = true → idxs ≡ₚ seq 0 (nrows df) →
  df_empty (df_take idxs df) = df_empty df.
Proof.
  intros Hwf Hperm.
  rewrite (df_empty_df_take (seq 0 (nrows df)) idxs) by done.
  by rewrite df_take_all.
Qed.

Lemma required_columns_df_take (idxs : list nat) (df : DataFrame) :
  required_columns (df_take idxs df) = required_columns df.
Proof. unfold required_columns. by rewrite !find_column_df_take. Qed.

(** The rows of the location in the reordered frame are the rows of the
    location in the frame, reordered. *)
Lemma locate_take re_other (df : DataFrame) (req : Request)
    (idxs : list nat) :
  well_formed df = true → idxs ≡ₚ seq 0 (nrows df) →
  (∃ e, locate re_other df req = Err e ∧
        locate re_other (df_take idxs df) req = Err e) ∨
  (∃ loc cui lc cc pc js js',
     js ≡ₚ js' ∧ (∀ j, j ∈ js → (j < nrows df)%nat) ∧
     locate re_other df req
     = Ok {| the_location := loc; the_cuisine := cui; location_col := lc;
             cuisine_col := cc; price_col := pc;
             rating_col := find_column rating_columns df;
             name_col := find_column name_columns df;
             df_location := df_take js df |} ∧
     locate re_other (df_take idxs df) req
     = Ok {| the_location := loc; the_cuisine := cui; location_col := lc;
             cuisine_col := cc; price_col := pc;
             rating_col := find_column rating_columns df;
             name_col := find_column name_columns df;
             df_location := df_take js' df |}).
Proof.
  intros Hwf Hperm.
  pose proof (df_empty_reordered idxs df Hwf Hperm) as Hempty.
  pose proof (required_columns_df_take idxs df) as Hreq.
  destruct (valid_request req) eqn:Hvalid; cycle 1.
  { left. eexists. split; by apply locate_invalid. }
  destruct (df_empty df) eqn:Hdf.
  { left. eexists. split; by apply locate_no_data. }
  destruct (required_columns df) eqn:Hcols; cycle 1.
  { left. eexists. split; by apply locate_no_columns. }
  destruct (valid_request_inv req Hvalid) as (loc & cui & Hloc & Hcui & Htl & Htc).
  destruct (required_columns_inv df Hcols) as (lc & cc & pc & Hlc & Hcc & Hpc).
  destruct (find_column_column location_columns df lc Hlc) as [places Hplaces].
  rewrite (locate_resolved re_other df req loc cui lc cc pc places) by done.
  rewrite (locate_resolved re_other (df_take idxs df) req loc cui lc cc pc
             (series_take idxs places));
    [|done..| by rewrite find_column_df_take
             | by rewrite find_column_df_take
             | by rewrite find_column_df_take
             | by rewrite column_df_take, Hplaces].
  rewrite str_contains_take, !find_column_df_take.
  destruct (str_contains re_other places loc) as [m|] eqn:Hm; cycle 1.
  { left. by eexists. }
  cbn [fmap option_fmap option_map].
  assert (Hlen : length m = nrows df).
  { rewrite (length_str_contains _ _ _ _ Hm).
    by apply (well_formed_column df lc). }
  assert (Hin : ∀ j, j ∈ idxs → (j < nrows df)%nat).
  { intros j Hj. rewrite Hperm in Hj. apply elem_of_seq in Hj. lia. }
  rewrite (df_select_df_take m idxs df Hwf Hlen Hin).
  rewrite (df_select_as_take m df Hwf Hlen).
  assert (Hsel : filter (λ j, m !! j = Some true) (seq 0 (nrows df))
                 ≡ₚ filter (λ j, m !! j = Some true) idxs)
    by by rewrite Hperm.
  rewrite (df_empty_df_take _ _ df Hsel).
  destruct (df_empty (df_take (filter _ (seq 0 (nrows df))) df)).
  { left. by eexists. }
  right. do 7 eexists. split; [exact Hsel|]. split; [|done].
  intros j [_ Hj]%list_elem_of_filter. apply elem_of_seq in Hj. lia.
Qed.

Lemma suggest_calls (model_data : option Model) (input_df : ModelInput)
    (price : Qc) (average_price : float) :
  (suggest model_data input_df price average_price).1
  = match model_data with Some _ => [input_df] | None => [] end.
Proof. unfold suggest. by destruct model_data. Qed.

(** The handler on a frame and on the frame with its rows reordered. *)
Lemma predict_take re_other (df : DataFrame) (model_data : option Model)
    (req : Request) (idxs : list nat) :
  well_formed df = true → idxs ≡ₚ seq 0 (nrows df) →
  match predict re_other df model_data req,
        predict re_other (df_take idxs df) model_data req with
  | (calls, Ok r), (calls', Ok r') =>
      calls' = calls ∧
      popular_cuisine r' = popular_cuisine r ∧
      ((∀ rating rvals, find_column rating_columns df = Some rating →
          column df rating = Some (FloatSeries rvals) →
          distinct_values rvals) →
       Popular_Restaurant r' = Popular_Restaurant r ∧
       Popular_Restaurant_serving_cuisine r'
         = Popular_Restaurant_serving_cuisine r)
  | (calls, Err e), (calls', Err e') => calls' = calls ∧ e' = e
  | _, _ => False
  end.
Proof.
  intros Hwf Hperm. unfold predict.
  destruct (locate_take re_other df req idxs Hwf Hperm)
    as [(e & -> & ->)
       |(loc & cui & lc & cc & pc & js & js' & Hsel & Hin & -> & ->)];
    [done|].
  pose proof (statistics_take re_other df js js' loc cui lc cc pc
                (find_column rating_columns df) (find_column name_columns df)
                Hwf Hsel Hin) as Hstats.
  destruct (statistics re_other _) as [st|e],
    (statistics re_other _) as [st'|e']; try done.
  unfold input_df_of. cbn [location_col cuisine_col the_location the_cuisine].
  pose proof (suggest_calls model_data [(lc, loc); (cc, cui)] (price_of req)
                (st_average_price st)) as Hc.
  pose proof (suggest_calls model_data [(lc, loc); (cc, cui)] (price_of req)
                (st_average_price st')) as Hc'.
  destruct (suggest _ _ _ (st_average_price st)) as [c s].
  destruct (suggest _ _ _ (st_average_price st')) as [c' s'].
  cbn [fst] in Hc, Hc'. rewrite <-Hc in Hc'.
  cbn [response popular_cuisine Popular_Restaurant
       Popular_Restaurant_serving_cuisine].
  by split.
Qed.

(** X18. The order of the rows of a well-formed dataset does not change
    whether [predict] answers, which error it returns, whether the model
    is called, or the most frequent cuisine of the location. *)
Theorem predict_row_order
    (re_other : string -> option (string -> bool))
    (df : DataFrame) (model_data : option Model) (req : Request)
    (idxs : list nat) :
  well_formed df = true →
  idxs ≡ₚ seq 0 (nrows df) →
  (∀ calls e,
     predict re_other df model_data req = (calls, Err e) →
     predict re_other (df_take idxs df) model_data req = (calls, Err e)) ∧
  (∀ calls r,
     predict re_other df model_data req = (calls, Ok r) →
     ∃ r', predict re_other (df_take idxs df) model_data req = (calls, Ok r') ∧
           popular_cuisine r' = popular_cuisine r).
Proof.
  intros Hwf Hperm.
  pose proof (predict_take re_other df model_data req idxs Hwf Hperm) as H.
  destruct (predict re_other df model_data req) as [c [r|e]],
    (predict re_other (df_take idxs df) model_data req) as [c' [r'|e']];
    try done.
  - destruct H as (-> & Hpop & _). split; [by intros calls e [=]|].
    intros calls r0 [= <- <-]. by exists r'.
  - destruct H as [-> ->]. split; [done|]. by intros calls r [=].
Qed.

(** X19. When no two rows of a well-formed dataset have the same rating,
    the order of the rows does not change the two restaurants of the
    response either. *)
Theorem restaurants_row_order
    (re_other : string -> option (string -> bool))
    (df : DataFrame) (model_data : option Model) (req : Request)
    (idxs : list nat) (calls : list ModelInput) (r : Response) :
  well_formed df = true →
  idxs ≡ₚ seq 0 (nrows df) →
  (∀ rating rvals, find_column rating_columns df = Some rating →
     column df rating = Some (FloatSeries rvals) → distinct_values rvals) →
  predict re_other df model_data req = (calls, Ok r) →
  ∃ r', predict re_other (df_take idxs df) model_data req = (calls, Ok r') ∧
        Popular_Restaurant r' = Popular_Restaurant r ∧
        Popular_Restaurant_serving_cuisine r'
          = Popular_Restaurant_serving_cuisine r.
Proof.
  intros Hwf Hperm Hdistinct Hr.
  pose proof (predict_take re_other df model_data req idxs Hwf Hperm) as H.
  rewrite Hr in H.
  destruct (predict re_other (df_take idxs df) model_data req)
    as [c' [r'|e']]; [|done].
  destruct H as (-> & _ & Hnames). exists r'. split; [done|].
  by apply Hnames.
Qed.

Lemma predict_row_order_witness :
  well_formed downtown = true ∧
  [2; 0; 1]%nat ≡ₚ seq 0 (nrows downtown) ∧
  (∀ calls e,
     predict reject_other downtown None downtown_request = (calls, Err e) →
     predict reject_other (df_take [2; 0; 1]%nat downtown) None
       downtown_request = (calls, Err e)) ∧
  (∀ calls r,
     predict reject_other downtown None downtown_request = (calls, Ok r) →
     ∃ r', predict reject_other (df_take [2; 0; 1]%nat downtown) None
             downtown_request = (calls, Ok r') ∧
           popular_cuisine r' = popular_cuisine r).
Proof.
  assert (Hperm : [2; 0; 1]%nat ≡ₚ seq 0 (nrows downtown)) by by_evaluation.
  exact (conj eq_refl (conj Hperm
    (predict_row_order reject_other downtown None downtown_request
       [2; 0; 1]%nat eq_refl Hperm))).
Defined.

Lemma restaurants_row_order_witness :
  well_formed downtown = true ∧
  [2; 0; 1]%nat ≡ₚ seq 0 (nrows downtown) ∧
  distinct_values [Some (qc 2 1); Some (qc 5 1); Some (qc 3 1)] ∧
  predict reject_other downtown None downtown_request
    = ([], Ok (response downtown_stats (Some (qc 15 1)))) ∧
  ∃ r', predict reject_other (df_take [2; 0; 1]%nat downtown) None
          downtown_request = ([], Ok r') ∧
        Popular_Restaurant r'
          = Popular_Restaurant (response downtown_stats (Some (qc 15 1))) ∧
        Popular_Restaurant_serving_cuisine r'
          = Popular_Restaurant_serving_cuisine
              (response downtown_stats (Some (qc 15 1))).
Proof.
  assert (Hperm : [2; 0; 1]%nat ≡ₚ seq 0 (nrows downtown)) by by_evaluation.
  assert (Hd : distinct_values [Some (qc 2 1); Some (qc 5 1); Some (qc 3 1)]).
  { intros i j v Hi Hj.
    destruct i as [|[|[|i]]], j as [|[|[|j]]]; try done;
      cbn in Hi, Hj; injection Hi as <-; injection Hj as Hj;
      discriminate Hj. }
  assert (Hp : predict reject_other downtown None downtown_request
               = ([], Ok (response downtown_stats (Some (qc 15 1)))))
    by by_evaluation.
  assert (Hdistinct : ∀ rating rvals,
            find_column rating_columns downtown = Some rating →
            column downtown rating = Some (FloatSeries rvals) →
            distinct_values rvals).
  { intros rating rvals [= <-] [= <-]. exact Hd. }
  exact (conj eq_refl (conj Hperm (conj Hd (conj Hp
    (restaurants_row_order reject_other downtown None downtown_request
       [2; 0; 1]%nat [] _ eq_refl Hperm Hdistinct Hp))))).
Defined.

(** *** The options and the order of the rows *)

Lemma filtered_unique_Permutation {A} `{EqDecision A} (f : A → bool)
    (l l' : list A) :
  l ≡ₚ l' → List.filter f (unique l) ≡ₚ List.filter f (unique l').
Proof.
  intros Hperm.
  apply NoDup_Permutation; [apply NoDup_List_filter, NoDup_unique..|].
  intros x. rewrite !elem_of_List_filter, !elem_of_unique. by rewrite Hperm.
Qed.

Lemma locations_of_take float_str (js js' : list nat) (s : Series) :
  js ≡ₚ js' →
  locations_of float_str (series_take js' s)
  = locations_of float_str (series_take js s).
Proof.
  intros Hperm. destruct s as [vals|vals]; cbn [locations_of series_take];
    f_equal; apply merge_sort_Permutation_eq; try apply _;
    apply filtered_unique_Permutation, dropna_Permutation;
    by apply take_rows_Permutation.
Qed.

Lemma cuisines_of_take float_str (js js' : list nat) (s : Series) :
  js ≡ₚ js' →
  cuisines_of float_str (series_take js' s)
  = cuisines_of float_str (series_take js s).
Proof.
  intros Hperm. unfold cuisines_of. f_equal. f_equal.
  unfold all_cuisines. apply set_eq. intros token.
  rewrite !elem_of_list_to_set, !list_elem_of_bind.
  assert (∀ e, e ∈ entries_of float_str (series_take js' s)
               ↔ e ∈ entries_of float_str (series_take js s)) as Hsame.
  { intros e. destruct s as [vals|vals]; cbn [entries_of series_take];
      by rewrite (dropna_Permutation _ _
                    (take_rows_Permutation js js' vals Hperm)). }
  split; intros (e & Htoken & He); exists e; split; try done;
    by apply Hsame.
Qed.

(** X20. On a well-formed dataset, [get_options] answers the same for
    the rows in any order: the same error, or the same locations,
    cuisines and number of records. *)
Theorem get_options_row_order
    (float_str : Qc -> string) (df : DataFrame) (idxs : list nat) :
  well_formed df = true →
  idxs ≡ₚ seq 0 (nrows df) →
  get_options float_str (df_take idxs df) = get_options float_str df.
Proof.
  intros Hwf Hperm. unfold get_options.
  rewrite (df_empty_reordered idxs df Hwf Hperm).
  destruct (df_empty df); [done|].
  rewrite !find_column_df_take.
  assert (Hrows : nrows (df_take idxs df) = nrows df).
  { unfold df_take. cbn [nrows]. rewrite length_take_rows.
    - by rewrite Hperm, length_seq.
    - intros i Hi. rewrite length_seq. rewrite Hperm in Hi.
      apply elem_of_seq in Hi. lia. }
  rewrite Hrows.
  assert (Hall : ∀ s, series_length s = nrows df →
                     series_take (seq 0 (nrows df)) s = s).
  { intros s <-. apply series_take_all. }
  assert (Hloc : ∀ col,
    locations_of float_str <$> attempt (series_take idxs <$> column df col)
    = locations_of float_str <$> attempt (column df col)).
  { intros col. destruct (column df col) as [s|] eqn:Hs; [|done]. cbn.
    rewrite (locations_of_take float_str (seq 0 (nrows df)) idxs s) by done.
    by rewrite (Hall s (well_formed_column df col s Hwf Hs)). }
  assert (Hcui : ∀ col,
    cuisines_of float_str <$> attempt (series_take idxs <$> column df col)
    = cuisines_of float_str <$> attempt (column df col)).
  { intros col. destruct (column df col) as [s|] eqn:Hs; [|done]. cbn.
    rewrite (cuisines_of_take float_str (seq 0 (nrows df)) idxs s) by done.
    by rewrite (Hall s (well_formed_column df col s Hwf Hs)). }
  destruct (find_column location_columns df) as [lc|],
    (find_column cuisine_columns df) as [cc|];
    by rewrite ?column_df_take, ?Hloc, ?Hcui.
Qed.

Lemma get_options_row_order_witness :
  well_formed padded = true ∧
  [1; 2; 0]%nat ≡ₚ seq 0 (nrows padded) ∧
  get_options repr_zero (df_take [1; 2; 0]%nat padded)
  = get_options repr_zero padded.
Proof.
  assert (Hperm : [1; 2; 0]%nat ≡ₚ seq 0 (nrows padded)) by by_evaluation.
  exact (conj eq_refl (conj Hperm
    (get_options_row_order repr_zero padded [1; 2; 0]%nat eq_refl Hperm))).
Defined.
